(** * cf: credential resolution and zone onboarding of the Cloudflare helper CLI

    A shallow embedding of [cmd/cf/main.go].  Go strings are byte strings
    ([string], one [ascii] per byte); the process environment is a finite
    map; package-level variables, the environment, the subprocess runner and
    the HTTP transport live in an explicit state that every function
    threads. *)

From Stdlib Require Import ZArith NArith Ascii String List DecimalString.
From Stdlib Require DecimalPos.
From stdpp Require Import base option list gmap strings.

(** ** Go's [strings] package, as far as [main.go] calls it *)

Module GoStrings.

(** A byte given by its numeric value. *)
Definition byte (n : N) : ascii := ascii_of_N n.

Definition code (c : ascii) : N := N_of_ascii c.

(** [asciiSpace] of package [strings]: tab, line feed, vertical tab, form
    feed, carriage return and space. *)
Definition asciiSpace (c : ascii) : bool :=
  let n := code c in
  ((9 <=? n) && (n <=? 13) || (n =? 32))%N.

(** The UTF-8 encodings of the code points for which [unicode.IsSpace]
    holds, beyond ASCII: U+0085, U+00A0, U+1680, U+2000..U+200A, U+2028,
    U+2029, U+202F, U+205F and U+3000.  [wideSpace2 a b] recognises the
    two-byte ones, [wideSpace3 a b c] the three-byte ones. *)
Definition wideSpace2 (a b : ascii) : bool :=
  ((code a =? 194) && ((code b =? 133) || (code b =? 160)))%N.

Definition wideSpace3 (a b c : ascii) : bool :=
  let '(x, y, z) := (code a, code b, code c) in
  ( (x =? 225) && (y =? 154) && (z =? 128)
  || (x =? 226) && (y =? 128) &&
       ((128 <=? z) && (z <=? 138) || (z =? 168) || (z =? 169) || (z =? 175))
  || (x =? 226) && (y =? 129) && (z =? 159)
  || (x =? 227) && (y =? 128) && (z =? 128))%N.

(** [strings.TrimLeftFunc(s, unicode.IsSpace)]: the decoder yields a space
    rune exactly when the bytes at the front are the (shortest-form)
    encoding of one, so trimming drops such encodings while there is one. *)
Fixpoint trimLeftSpace (s : string) : string :=
  match s with
  | String a r =>
      if asciiSpace a then trimLeftSpace r
      else match r with
           | String b r2 =>
               if wideSpace2 a b then trimLeftSpace r2
               else match r2 with
                    | String c r3 =>
                        if wideSpace3 a b c then trimLeftSpace r3 else s
                    | EmptyString => s
                    end
           | EmptyString => s
           end
  | EmptyString => s
  end.

(** The same scan on the reversed string, for the right end: the last rune
    is a space exactly when the bytes at the end are the encoding of one. *)
Fixpoint trimLeftSpaceRev (s : string) : string :=
  match s with
  | String a r =>
      if asciiSpace a then trimLeftSpaceRev r
      else match r with
           | String b r2 =>
               if wideSpace2 b a then trimLeftSpaceRev r2
               else match r2 with
                    | String c r3 =>
                        if wideSpace3 c b a then trimLeftSpaceRev r3 else s
                    | EmptyString => s
                    end
           | EmptyString => s
           end
  | EmptyString => s
  end.

Definition trimRightSpace (s : string) : string :=
  String.rev (trimLeftSpaceRev (String.rev s)).

(** [strings.TrimSpace]: leading and trailing white space, as defined by
    Unicode, removed. *)
Definition TrimSpace (s : string) : string :=
  trimRightSpace (trimLeftSpace s).

(** [strings.HasPrefix]. *)
Fixpoint HasPrefix (s p : string) : bool :=
  match p, s with
  | EmptyString, _ => true
  | String _ _, EmptyString => false
  | String b p', String a s' => Ascii.eqb a b && HasPrefix s' p'
  end.

(** [strings.Contains]: [substr] occurs at some offset of [s]. *)
Fixpoint Contains (s substr : string) : bool :=
  HasPrefix s substr ||
  match s with
  | EmptyString => false
  | String _ s' => Contains s' substr
  end.

(** [strings.Join]. *)
Fixpoint Join (elems : list string) (sep : string) : string :=
  match elems with
  | [] => ""
  | [e] => e
  | e :: rest => e +:+ sep +:+ Join rest sep
  end.

(** The verb [%d] of package [fmt] on an integer. *)
Definition Itoa (n : Z) : string := NilZero.string_of_int (Z.to_int n).

End GoStrings.

Import GoStrings.

(** ** Go's [encoding/json], as far as [main.go] calls it

    [json.Unmarshal] first checks that the whole input is one JSON text and
    then fills the target following the shape of the value.  The model
    parses the text into a tree and decodes the tree into the target. *)

Module JSON.

#[warnings="-register-all"]
Inductive value : Type :=
| Null
| Bool (b : bool)
| Number (literal : string)
| Str (s : string)
| Array (elems : list value)
| Object (members : list (string * value)).

Inductive error : Type :=
| SyntaxError          (* the input is not one JSON text *)
| UnmarshalTypeError.  (* a value does not fit the Go type of its target *)

Definition inRange (lo hi : N) (c : ascii) : bool :=
  ((lo <=? code c) && (code c <=? hi))%N.

Definition isByte (n : N) (c : ascii) : bool := (code c =? n)%N.

Definition isDigit : ascii -> bool := inRange 48 57.

(** The scanner's [isSpace]: space, tab, carriage return, line feed. *)
Definition isSpace (c : ascii) : bool :=
  isByte 32 c || isByte 9 c || isByte 13 c || isByte 10 c.

Fixpoint skipSpace (s : string) : string :=
  match s with
  | String a r => if isSpace a then skipSpace r else s
  | EmptyString => s
  end.

Fixpoint dropPrefix (p s : string) : option string :=
  match p, s with
  | EmptyString, _ => Some s
  | String b p', String a s' => if Ascii.eqb a b then dropPrefix p' s' else None
  | String _ _, EmptyString => None
  end.

(** *** Strings *)

Definition hexVal (c : ascii) : option N :=
  if isDigit c then Some (code c - 48)%N
  else if inRange 97 102 c then Some (code c - 87)%N
  else if inRange 65 70 c then Some (code c - 55)%N
  else None.

(** [getu4]: the four hex digits after a [\u], and what follows them. *)
Definition hex4 (s : string) : option (N * string) :=
  match s with
  | String a (String b (String c (String d r))) =>
      match hexVal a, hexVal b, hexVal c, hexVal d with
      | Some x, Some y, Some z, Some w => Some (x * 4096 + y * 256 + z * 16 + w, r)%N
      | _, _, _, _ => None
      end
  | _ => None
  end.

(** [utf8.EncodeRune]; surrogates and values past U+10FFFF become U+FFFD. *)
Definition replacementChar : string :=
  String (byte 239) (String (byte 191) (String (byte 189) "")).

Definition encodeRune (r : N) : string :=
  if (r <? 128)%N then String (byte r) ""
  else if (r <? 2048)%N then
    String (byte (192 + r / 64)) (String (byte (128 + r mod 64)) "")
  else if ((55296 <=? r) && (r <=? 57343) || (1114111 <? r))%N then replacementChar
  else if (r <? 65536)%N then
    String (byte (224 + r / 4096))
      (String (byte (128 + (r / 64) mod 64)) (String (byte (128 + r mod 64)) ""))
  else
    String (byte (240 + r / 262144))
      (String (byte (128 + (r / 4096) mod 64))
         (String (byte (128 + (r / 64) mod 64)) (String (byte (128 + r mod 64)) ""))).

(** The number of bytes of the well-formed multi-byte UTF-8 sequence at the
    front of [s], by the ranges of [utf8.DecodeRune]; 0 when there is none
    (where the decoder reports [RuneError] of width 1). *)
Definition cont : ascii -> bool := inRange 128 191.

Definition runeWidth (s : string) : nat :=
  match s with
  | String a (String b r) =>
      if inRange 194 223 a && cont b then 2
      else match r with
           | String c r' =>
               if (isByte 224 a && inRange 160 191 b || inRange 225 236 a && cont b
                   || isByte 237 a && inRange 128 159 b || inRange 238 239 a && cont b)
                  && cont c then 3
               else match r' with
                    | String d _ =>
                        if (isByte 240 a && inRange 144 191 b || inRange 241 243 a && cont b
                            || isByte 244 a && inRange 128 143 b) && cont c && cont d
                        then 4 else 0
                    | EmptyString => 0
                    end
           | EmptyString => 0
           end
  | _ => 0
  end.

Fixpoint splitAt (n : nat) (s : string) : string * string :=
  match n, s with
  | S n', String a r => let '(h, t) := splitAt n' r in (String a h, t)
  | _, _ => ("", s)
  end.

(** The body of a string literal after its opening quote: the scanner's
    check and [unquote] in one pass.  Control bytes are refused; an escape
    is replaced by what it denotes, a [\u] surrogate pair by its code point
    and a lone surrogate by U+FFFD; a byte that starts no well-formed UTF-8
    sequence becomes U+FFFD.  Every call consumes at least one byte, so
    [fuel] = the length of the input never runs out. *)
Fixpoint stringBody (fuel : nat) (s : string) : option (string * string) :=
  match fuel with
  | O => None
  | S fuel' =>
      let emit (out : string) (rest : string) :=
        match stringBody fuel' rest with
        | Some (body, after) => Some (out +:+ body, after)
        | None => None
        end in
      match s with
      | EmptyString => None
      | String a r =>
          if isByte 34 a then Some ("", r)
          else if (code a <? 32)%N then None
          else if isByte 92 a then
            match r with
            | EmptyString => None
            | String e r2 =>
                if isByte 34 e || isByte 92 e || isByte 47 e then emit (String e "") r2
                else if isByte 98 e then emit (String (byte 8) "") r2
                else if isByte 102 e then emit (String (byte 12) "") r2
                else if isByte 110 e then emit (String (byte 10) "") r2
                else if isByte 114 e then emit (String (byte 13) "") r2
                else if isByte 116 e then emit (String (byte 9) "") r2
                else if isByte 117 e then
                  match hex4 r2 with
                  | None => None
                  | Some (rr, r6) =>
                      if ((55296 <=? rr) && (rr <=? 57343))%N then
                        match
                          match dropPrefix "\u" r6 with
                          | Some r8 => hex4 r8
                          | None => None
                          end
                        with
                        | Some (rr1, r12) =>
                            if ((rr <? 56320) && (56320 <=? rr1) && (rr1 <? 57344))%N
                            then emit (encodeRune
                                         ((rr - 55296) * 1024 + (rr1 - 56320) + 65536)%N) r12
                            else emit replacementChar r6
                        | None => emit replacementChar r6
                        end
                      else emit (encodeRune rr) r6
                  end
                else None
            end
          else if (code a <? 128)%N then emit (String a "") r
          else match runeWidth s with
               | O => emit replacementChar r
               | w => let '(h, t) := splitAt w s in emit h t
               end
      end
  end.

(** *** Numbers: an optional minus sign; 0, or a nonzero digit and more
    digits; an optional fraction (a dot and digits); an optional exponent
    (e or E, an optional sign, digits). *)

Fixpoint digits (s : string) : string * string :=
  match s with
  | String a r =>
      if isDigit a then let '(d, t) := digits r in (String a d, t) else ("", s)
  | EmptyString => ("", s)
  end.

Definition digits1 (s : string) : option (string * string) :=
  match digits s with
  | (EmptyString, _) => None
  | (d, t) => Some (d, t)
  end.

Definition numberLit (s : string) : option (string * string) :=
  let '(sign, s1) :=
    match s with
    | String a r => if isByte 45 a then ("-", r) else ("", s)
    | EmptyString => ("", s)
    end in
  match
    match s1 with
    | String a r =>
        if isByte 48 a then Some ("0", r)
        else if inRange 49 57 a then Some (digits s1)
        else None
    | EmptyString => None
    end
  with
  | None => None
  | Some (int, s2) =>
      match
        match s2 with
        | String a r =>
            if isByte 46 a then
              match digits1 r with
              | Some (d, t) => Some ("." +:+ d, t)
              | None => None
              end
            else Some ("", s2)
        | EmptyString => Some ("", s2)
        end
      with
      | None => None
      | Some (frac, s3) =>
          match
            match s3 with
            | String a r =>
                if isByte 101 a || isByte 69 a then
                  let '(sg, r') :=
                    match r with
                    | String b r2 =>
                        if isByte 43 b || isByte 45 b then (String b "", r2) else ("", r)
                    | EmptyString => ("", r)
                    end in
                  match digits1 r' with
                  | Some (d, t) => Some (String a sg +:+ d, t)
                  | None => None
                  end
                else Some ("", s3)
            | EmptyString => Some ("", s3)
            end
          with
          | None => None
          | Some (exp, s4) => Some (sign +:+ int +:+ frac +:+ exp, s4)
          end
      end
  end.

(** *** Values

    [maxNestingDepth] of the scanner: opening a container beyond this many
    open ones is a syntax error. *)
Definition maxNestingDepth : N := 10000.

(** Recursive descent, the three parsers decreasing on [fuel].  On every
    path of calls at least one byte is consumed for every two calls, so
    the fuel [parse] gives, twice the length of the input and two, never
    runs out.  [parseElems] and [parseMembers] start after a bracket, a
    brace or a comma. *)
Fixpoint parseValue (fuel : nat) (depth : N) (s : string) : option (value * string) :=
  match fuel with
  | O => None
  | S fuel' =>
      match skipSpace s with
      | EmptyString => None
      | String a r as s0 =>
          if isByte 123 a then
            if (depth <? maxNestingDepth)%N then
              match skipSpace r with
              | String b r' =>
                  if isByte 125 b then Some (Object [], r')
                  else match parseMembers fuel' (depth + 1)%N r with
                       | Some (ms, t) => Some (Object ms, t)
                       | None => None
                       end
              | EmptyString => None
              end
            else None
          else if isByte 91 a then
            if (depth <? maxNestingDepth)%N then
              match skipSpace r with
              | String b r' =>
                  if isByte 93 b then Some (Array [], r')
                  else match parseElems fuel' (depth + 1)%N r with
                       | Some (vs, t) => Some (Array vs, t)
                       | None => None
                       end
              | EmptyString => None
              end
            else None
          else if isByte 34 a then
            match stringBody (String.length r) r with
            | Some (body, t) => Some (Str body, t)
            | None => None
            end
          else if isByte 116 a then
            match dropPrefix "true" s0 with Some t => Some (Bool true, t) | None => None end
          else if isByte 102 a then
            match dropPrefix "false" s0 with Some t => Some (Bool false, t) | None => None end
          else if isByte 110 a then
            match dropPrefix "null" s0 with Some t => Some (Null, t) | None => None end
          else
            match numberLit s0 with
            | Some (lit, t) => Some (Number lit, t)
            | None => None
            end
      end
  end
with parseElems (fuel : nat) (depth : N) (s : string) : option (list value * string) :=
  match fuel with
  | O => None
  | S fuel' =>
      match parseValue fuel' depth s with
      | None => None
      | Some (v, r) =>
          match skipSpace r with
          | String b r' =>
              if isByte 44 b then
                match parseElems fuel' depth r' with
                | Some (vs, t) => Some (v :: vs, t)
                | None => None
                end
              else if isByte 93 b then Some ([v], r')
              else None
          | EmptyString => None
          end
      end
  end
with parseMembers (fuel : nat) (depth : N) (s : string)
    : option (list (string * value) * string) :=
  match fuel with
  | O => None
  | S fuel' =>
      match skipSpace s with
      | String a r =>
          if isByte 34 a then
            match stringBody (String.length r) r with
            | None => None
            | Some (key, r1) =>
                match skipSpace r1 with
                | String c r2 =>
                    if isByte 58 c then
                      match parseValue fuel' depth r2 with
                      | None => None
                      | Some (v, r3) =>
                          match skipSpace r3 with
                          | String b r' =>
                              if isByte 44 b then
                                match parseMembers fuel' depth r' with
                                | Some (ms, t) => Some ((key, v) :: ms, t)
                                | None => None
                                end
                              else if isByte 125 b then Some ([(key, v)], r')
                              else None
                          | EmptyString => None
                          end
                      end
                    else None
                | EmptyString => None
                end
            end
          else None
      | EmptyString => None
      end
  end.

(** [checkValid]: the whole input is one value between optional spaces. *)
Definition parse (data : string) : option value :=
  match parseValue (2 * String.length data + 2) 0 data with
  | Some (v, rest) =>
      match skipSpace rest with
      | EmptyString => Some v
      | String _ _ => None
      end
  | None => None
  end.

(** *** Decoding an object into a struct

    A key selects the field whose name it equals, or else the field whose
    name it equals under Unicode simple case folding ([foldName]).  Beyond
    the two cases of an ASCII letter only U+212A (Kelvin sign) folds to an
    ASCII letter, K, and only U+017F (long s) to S. *)
Definition toUpper (c : ascii) : ascii :=
  if inRange 97 122 c then byte (code c - 32) else c.

Fixpoint upperName (name : string) : string :=
  match name with
  | String a r => String (toUpper a) (upperName r)
  | EmptyString => EmptyString
  end.

Definition kelvinSign : string :=
  String (byte 226) (String (byte 132) (String (byte 170) "")).

Definition longS : string := String (byte 197) (String (byte 191) "").

Fixpoint foldsTo (folded key : string) : bool :=
  match folded, key with
  | EmptyString, EmptyString => true
  | String f fs, String a r =>
      if (code a <? 128)%N then Ascii.eqb (toUpper a) f && foldsTo fs r
      else if isByte 75 f then
        match dropPrefix kelvinSign key with Some r' => foldsTo fs r' | None => false end
      else if isByte 83 f then
        match dropPrefix longS key with Some r' => foldsTo fs r' | None => false end
      else false
  | _, _ => false
  end.

Definition keyMatches (name key : string) : bool :=
  String.eqb key name || foldsTo (upperName name) key.

(** The members of an object, in order, acting on a field of Go type
    [string] named [name] that holds [cur]: a string sets it, [null] leaves
    it, anything else is an [UnmarshalTypeError] ([None]); later members
    override earlier ones. *)
Fixpoint stringField (name : string) (ms : list (string * value)) (cur : string)
    : option string :=
  match ms with
  | [] => Some cur
  | (k, v) :: ms' =>
      if keyMatches name k then
        match v with
        | Str s => stringField name ms' s
        | Null => stringField name ms' cur
        | _ => None
        end
      else stringField name ms' cur
  end.

End JSON.

(** ** The process: package variables, environment, subprocesses, HTTP *)

(** An error value: [err_id] stands for the address of the value (what
    [==] on two [error]s compares), [err_msg] is what [Error()] returns. *)
Record GoError : Type := { err_id : nat; err_msg : string }.

Inductive result (A : Type) : Type :=
| Ok (a : A)
| Err (e : GoError).
Arguments Ok {A} a.
Arguments Err {A} e.

Record apiError : Type := { Code : Z; Message : string }.

(** [Result] is a [json.RawMessage]: the bytes of the value. *)
Record apiResponse : Type :=
  { Success : bool; Errors : list apiError; Result : string }.

Record zone : Type := { ID : string; Name : string; Status : string }.

(** The anonymous structs of [inferAccountIDFromMemberships]. *)
Record account : Type := { account_ID : string; account_Name : string }.
Record membership : Type := { Account : account }.
Record membershipsPayload : Type :=
  { payload_Success : bool;
    payload_Errors : list apiError;
    payload_Result : list membership }.

(** An outgoing request: method, URL, the [Authorization] header and the
    value handed to [json.Marshal] as body ([None] for a nil body); the
    [Content-Type] header is always [application/json]. *)
Record Request : Type :=
  { req_method : string;
    req_url : string;
    req_authorization : string;
    req_body : option JSON.value }.

(** What [http.DefaultClient.Do] followed by [json.NewDecoder(resp.Body).Decode]
    gives: the transport fails, the body does not decode, or there is a
    status code and a decoded payload. *)
Inductive HttpOutcome (P : Type) : Type :=
| TransportError (msg : string)
| DecodeError (msg : string)
| Response (status : Z) (payload : P).
Arguments TransportError {P} msg.
Arguments DecodeError {P} msg.
Arguments Response {P} status payload.

(** What [exec.Command(name, args...).Output()] gives. *)
Inductive CmdResult : Type :=
| CmdOutput (stdout : string)
| CmdFailed (msg : string).

(** Everything outside the process. *)
Record World : Type :=
  { environ : gmap string string;
    runCommand : string -> list string -> CmdResult;
    apiCall : Request -> HttpOutcome apiResponse;
    membershipsCall : Request -> HttpOutcome membershipsPayload }.

(** What the process does to its surroundings, in order. *)
Inductive Event : Type :=
| EvGetenv (key : string)
| EvExec (name : string) (args : list string)
| EvHTTP (req : Request)
| EvPrint (text : string).

Record State : Type :=
  { cachedAPIToken : string;      (* var cachedAPIToken string *)
    cachedAccountID : string;     (* var cachedAccountID string *)
    world : World;
    nextError : nat;              (* the next fresh error address *)
    trace : list Event }.

Definition M (A : Type) : Type := State -> A * State.

#[export] Instance M_ret : MRet M := fun A a st => (a, st).
#[export] Instance M_bind : MBind M :=
  fun A B k m st => let '(a, st') := m st in k a st'.
#[export] Instance M_fmap : FMap M :=
  fun A B f m st => let '(a, st') := m st in (f a, st').

(** [x, err := m; if err != nil { return zero, err }; k x] *)
Definition bindOk {A B : Type} (m : M (result A)) (k : A -> M (result B))
    : M (result B) :=
  r ← m; match r with Ok a => k a | Err e => mret (Err e) end.

Notation "x ←? y ; z" := (bindOk y (fun x => z))
  (at level 20, y at level 100, z at level 200, only parsing, right associativity).

Definition emit (ev : Event) : M unit :=
  fun st => (tt, {| cachedAPIToken := cachedAPIToken st;
                    cachedAccountID := cachedAccountID st;
                    world := world st;
                    nextError := nextError st;
                    trace := trace st ++ [ev] |}).

(** [errors.New], [fmt.Errorf] and the errors made by libraries: a fresh
    value each time. *)
Definition newError (msg : string) : M GoError :=
  fun st => ({| err_id := nextError st; err_msg := msg |},
             {| cachedAPIToken := cachedAPIToken st;
                cachedAccountID := cachedAccountID st;
                world := world st;
                nextError := S (nextError st);
                trace := trace st |}).

Definition fail {A : Type} (msg : string) : M (result A) :=
  e ← newError msg; mret (Err e).

Definition getCachedAPIToken : M string := fun st => (cachedAPIToken st, st).
Definition getCachedAccountID : M string := fun st => (cachedAccountID st, st).

Definition setCachedAPIToken (v : string) : M unit :=
  fun st => (tt, {| cachedAPIToken := v;
                    cachedAccountID := cachedAccountID st;
                    world := world st;
                    nextError := nextError st;
                    trace := trace st |}).

Definition setCachedAccountID (v : string) : M unit :=
  fun st => (tt, {| cachedAPIToken := cachedAPIToken st;
                    cachedAccountID := v;
                    world := world st;
                    nextError := nextError st;
                    trace := trace st |}).

Definition getWorld : M World := fun st => (world st, st).

(** [os.Getenv]: the value, or the empty string when the variable is absent. *)
Definition lookupenv (w : World) (key : string) : string :=
  default "" (environ w !! key).

Definition Getenv (key : string) : M string :=
  _ ← emit (EvGetenv key); w ← getWorld; mret (lookupenv w key).

(** [os.Setenv] and [os.Unsetenv], as tests and callers of the process use them. *)
Definition setWorld (w : World) (st : State) : State :=
  {| cachedAPIToken := cachedAPIToken st;
     cachedAccountID := cachedAccountID st;
     world := w;
     nextError := nextError st;
     trace := trace st |}.

Definition withEnviron (env : gmap string string) (w : World) : World :=
  {| environ := env;
     runCommand := runCommand w;
     apiCall := apiCall w;
     membershipsCall := membershipsCall w |}.

Definition Setenv (key value : string) (st : State) : State :=
  setWorld (withEnviron (<[key := value]> (environ (world st))) (world st)) st.

Definition Unsetenv (key : string) (st : State) : State :=
  setWorld (withEnviron (delete key (environ (world st))) (world st)) st.

(** [exec.Command(name, args...).Output()]. *)
Definition commandOutput (name : string) (args : list string) : M (result string) :=
  _ ← emit (EvExec name args);
  w ← getWorld;
  match runCommand w name args with
  | CmdOutput out => mret (Ok out)
  | CmdFailed msg => fail msg
  end.

Definition Print (text : string) : M unit := emit (EvPrint text).

Definition nonEmpty (s : string) : bool := negb (String.eqb s "").

(** [encoding/json] words its errors by position and offending byte;
    [main.go] never looks at that text, and the model keeps one text per
    kind of error. *)
Definition jsonErrorText (e : JSON.error) : string :=
  match e with
  | JSON.SyntaxError => "json: syntax error"
  | JSON.UnmarshalTypeError => "json: cannot unmarshal value into Go value"
  end.

Definition unmarshal {A : Type} (decoded : JSON.error + A) : M (result A) :=
  match decoded with
  | inr a => mret (Ok a)
  | inl e => fail (jsonErrorText e)
  end.

(** [json.Unmarshal(out, &parsed)] for [parsed] of type
    [struct { Token string `json:"token"` }], then [parsed.Token]. *)
Definition unmarshalToken (data : string) : JSON.error + string :=
  match JSON.parse data with
  | None => inl JSON.SyntaxError
  | Some (JSON.Object ms) =>
      match JSON.stringField "token" ms "" with
      | Some t => inr t
      | None => inl JSON.UnmarshalTypeError
      end
  | Some JSON.Null => inr ""
  | Some _ => inl JSON.UnmarshalTypeError
  end.

(** A JSON value decoded into a [zone] that holds [z]. *)
Definition decodeZone (v : JSON.value) (z : zone) : option zone :=
  match v with
  | JSON.Object ms =>
      match JSON.stringField "id" ms (ID z),
            JSON.stringField "name" ms (Name z),
            JSON.stringField "status" ms (Status z) with
      | Some i, Some n, Some s => Some {| ID := i; Name := n; Status := s |}
      | _, _, _ => None
      end
  | JSON.Null => Some z
  | _ => None
  end.

Definition zeroZone : zone := {| ID := ""; Name := ""; Status := "" |}.

(** [json.Unmarshal(data, &z)] for [var z zone]. *)
Definition unmarshalZone (data : string) : JSON.error + zone :=
  match JSON.parse data with
  | None => inl JSON.SyntaxError
  | Some v =>
      match decodeZone v zeroZone with
      | Some z => inr z
      | None => inl JSON.UnmarshalTypeError
      end
  end.

Fixpoint decodeZones (vs : list JSON.value) : option (list zone) :=
  match vs with
  | [] => Some []
  | v :: vs' =>
      match decodeZone v zeroZone, decodeZones vs' with
      | Some z, Some zs => Some (z :: zs)
      | _, _ => None
      end
  end.

(** [json.Unmarshal(data, &zones)] for [var zones []zone]. *)
Definition unmarshalZones (data : string) : JSON.error + list zone :=
  match JSON.parse data with
  | None => inl JSON.SyntaxError
  | Some (JSON.Array vs) =>
      match decodeZones vs with
      | Some zs => inr zs
      | None => inl JSON.UnmarshalTypeError
      end
  | Some JSON.Null => inr []
  | Some _ => inl JSON.UnmarshalTypeError
  end.

(** [url.QueryEscape]: letters, digits, [-], [_], [.] and [~] stay, a space
    becomes [+], every other byte [%XX] in upper-case hex. *)
Definition hexDigit (n : N) : ascii :=
  if (n <? 10)%N then byte (48 + n) else byte (55 + n).

Fixpoint QueryEscape (s : string) : string :=
  match s with
  | EmptyString => EmptyString
  | String a r =>
      if JSON.inRange 65 90 a || JSON.inRange 97 122 a || JSON.inRange 48 57 a
         || JSON.isByte 45 a || JSON.isByte 95 a || JSON.isByte 46 a || JSON.isByte 126 a
      then String a (QueryEscape r)
      else if JSON.isByte 32 a then String "+" (QueryEscape r)
      else String "%" (String (hexDigit (code a / 16))
                         (String (hexDigit (code a mod 16)) (QueryEscape r)))
  end.

(** ** [main.go] *)

Definition apiBase : string := "https://api.cloudflare.com/client/v4".

Definition missingTokenMessage : string :=
  "missing API token. set CF_API_TOKEN (or CLOUDFLARE_API_TOKEN), or login via Wrangler".

Definition tokenFromWrangler : M (result string) :=
  out ←? commandOutput "wrangler" ["auth"; "token"; "--json"];
  token ←? unmarshal (unmarshalToken out);
  if nonEmpty (TrimSpace token) then mret (Ok token)
  else fail "wrangler token output did not include token field".

Definition resolveAPIToken : M (result string) :=
  cached ← getCachedAPIToken;
  if nonEmpty cached then mret (Ok cached)
  else
    v ← TrimSpace <$> Getenv "CF_API_TOKEN";
    if nonEmpty v then _ ← setCachedAPIToken v; mret (Ok v)
    else
      v ← TrimSpace <$> Getenv "CLOUDFLARE_API_TOKEN";
      if nonEmpty v then _ ← setCachedAPIToken v; mret (Ok v)
      else
        r ← tokenFromWrangler;
        match r with
        | Ok token =>
            if nonEmpty token then _ ← setCachedAPIToken token; mret (Ok token)
            else fail missingTokenMessage
        | Err _ => fail missingTokenMessage
        end.

Definition formatAPIErrors (errs : list apiError) (status : Z) : M GoError :=
  match errs with
  | [] => newError ("Cloudflare API request failed (HTTP " +:+ Itoa status +:+ ")")
  | _ => newError (Join (map (fun e => Itoa (Code e) +:+ ": " +:+ Message e) errs) "; ")
  end.

Definition noMembershipsMessage : string :=
  "no Cloudflare account memberships found for token".

Definition choice (item : membership) : string :=
  account_Name (Account item) +:+ " (" +:+ account_ID (Account item) +:+ ")".

Definition multipleAccountsMessage (items : list membership) : string :=
  "multiple accounts found; set CF_ACCOUNT_ID. available: "
  +:+ Join (map choice items) ", ".

Definition membershipsRequest (token : string) : Request :=
  {| req_method := "GET";
     req_url := apiBase +:+ "/memberships";
     req_authorization := "Bearer " +:+ token;
     req_body := None |}.

(** [http.NewRequest] cannot fail here: the method and the URL are
    constants. *)
Definition inferAccountIDFromMemberships (token : string) : M (result string) :=
  let req := membershipsRequest token in
  _ ← emit (EvHTTP req);
  w ← getWorld;
  match membershipsCall w req with
  | TransportError msg => fail msg
  | DecodeError msg => fail msg
  | Response status payload =>
      if (400 <=? status)%Z || negb (payload_Success payload) then
        e ← formatAPIErrors (payload_Errors payload) status; mret (Err e)
      else
        match payload_Result payload with
        | [] => fail noMembershipsMessage
        | [item] => mret (Ok (account_ID (Account item)))
        | items => fail (multipleAccountsMessage items)
        end
  end.

Definition resolveAccountID : M (result string) :=
  cached ← getCachedAccountID;
  if nonEmpty cached then mret (Ok cached)
  else
    v ← TrimSpace <$> Getenv "CF_ACCOUNT_ID";
    if nonEmpty v then _ ← setCachedAccountID v; mret (Ok v)
    else
      v ← TrimSpace <$> Getenv "CLOUDFLARE_ACCOUNT_ID";
      if nonEmpty v then _ ← setCachedAccountID v; mret (Ok v)
      else
        token ←? resolveAPIToken;
        accountID ←? inferAccountIDFromMemberships token;
        _ ← setCachedAccountID accountID;
        mret (Ok accountID).

Definition apiRequest (method path token : string) (body : option JSON.value)
    : Request :=
  {| req_method := method;
     req_url := apiBase +:+ path;
     req_authorization := "Bearer " +:+ token;
     req_body := body |}.

(** [json.Marshal] does not fail on the bodies [main.go] passes (maps of
    strings and booleans), and [http.NewRequest] not on its methods and
    URLs (query parts are escaped). *)
Definition requestCF (method path : string) (body : option JSON.value)
    : M (result apiResponse) :=
  token ←? resolveAPIToken;
  let req := apiRequest method path token body in
  _ ← emit (EvHTTP req);
  w ← getWorld;
  match apiCall w req with
  | TransportError msg => fail msg
  | DecodeError msg => fail msg
  | Response status out =>
      if (400 <=? status)%Z || negb (Success out) then
        e ← formatAPIErrors (Errors out) status; mret (Err e)
      else mret (Ok out)
  end.

Definition zoneLookupPath (accountID name : string) : string :=
  "/zones?account.id=" +:+ QueryEscape accountID
  +:+ "&name=" +:+ QueryEscape name +:+ "&per_page=1".

(** A [*zone] is an [option zone], [None] for the nil pointer. *)
Definition getZoneByName (name : string) : M (result (option zone)) :=
  accountID ←? resolveAccountID;
  resp ←? requestCF "GET" (zoneLookupPath accountID name) None;
  zones ←? unmarshal (unmarshalZones (Result resp));
  match zones with
  | [] => mret (Ok None)
  | z :: _ => mret (Ok (Some z))
  end.

Definition zoneCreateBody (accountID domain : string) : JSON.value :=
  JSON.Object
    [ ("account", JSON.Object [("id", JSON.Str accountID)]);
      ("jump_start", JSON.Bool true);
      ("name", JSON.Str domain);
      ("type", JSON.Str "full") ].

Definition zoneLine (what : string) (z : zone) : string :=
  what +:+ Name z +:+ " (id=" +:+ ID z +:+ ", status=" +:+ Status z +:+ ")"
  +:+ String (byte 10) "".

Definition addZone (domain : string) : M (result (option zone)) :=
  accountID ←? resolveAccountID;
  r ← requestCF "POST" "/zones" (Some (zoneCreateBody accountID domain));
  match r with
  | Ok resp =>
      z ←? unmarshal (unmarshalZone (Result resp));
      _ ← Print (zoneLine "Zone created: " z);
      mret (Ok (Some z))
  | Err err =>
      if Contains (err_msg err) "1061" then
        existing ← getZoneByName domain;
        match existing with
        | Err existingErr => mret (Err existingErr)
        | Ok (Some z) =>
            _ ← Print (zoneLine "Zone already exists: " z);
            mret (Ok (Some z))
        | Ok None => mret (Err err)
        end
      else mret (Err err)
  end.

(** ** The permission-error classifier *)

(** A text written with apostrophes where the Go source has double quotes. *)
Fixpoint quoted (s : string) : string :=
  match s with
  | String a r => String (if JSON.isByte 39 a then byte 34 else a) (quoted r)
  | EmptyString => EmptyString
  end.

(** Modelled from the spec: the permission signature by which section 4.2
    recognises the error (the source tree has the tests of
    [explainZoneCreatePermissionError] only, not the function); the string
    is the one in the errors of the tests. *)
Definition permissionSignature : string := "com.cloudflare.api.account.zone.create".

(** Modelled from the spec: the mode lines and remediation lines of section
    4.2.  The two mode lines and the remediation of the environment mode
    are the strings the tests look for; the remediation of the fallback
    mode is worded after the spec (use the tool with another credential, or
    switch to a token that may create zones). *)
Definition envModeMarker : string := "Auth mode detected: API token from environment".
Definition envRemediation : string := "Use a token with zone-creation capability".
Definition toolModeMarker : string := "Auth mode detected: Wrangler token fallback".
Definition toolRemediation : string :=
  "Log in to Wrangler with an account that may create zones, or set CF_API_TOKEN to a token with zone-creation capability".

Definition newline : string := String (byte 10) "".

(** Modelled from the spec: the message of the new error, section 4.2: a
    restated summary of the original error, the mode line, the remediation
    and, in fallback mode, the captured identity text. *)
Definition summary (err : GoError) : string :=
  "Cloudflare refused to create the zone: " +:+ err_msg err.

Definition envModeMessage (err : GoError) : string :=
  summary err +:+ newline +:+ envModeMarker +:+ newline +:+ envRemediation.

Definition toolModeMessage (err : GoError) (identity : string) : string :=
  summary err +:+ newline +:+ toolModeMarker +:+ newline +:+ toolRemediation
  +:+ newline +:+ identity.

(** Modelled from the spec: the whoami query of the tool, through the same
    seam as the token query; its raw output, or nothing when it fails. *)
Definition wranglerWhoami : M string :=
  r ← commandOutput "wrangler" ["whoami"];
  match r with
  | Ok out => mret out
  | Err _ => mret ""
  end.

(** Modelled from the spec: [explainZoneCreatePermissionError], missing from
    the source tree, after section 4.2.  An error whose message does not
    contain the signature is returned as it is.  Otherwise the token
    variables of the environment are checked again, the way the resolver
    checks them, primary first; a value in either gives the message of the
    environment mode, none gives the whoami query and the message of the
    fallback mode.  The result is a Go [error]: [None] is nil. *)
Definition explainZoneCreatePermissionError (err : GoError) : M (option GoError) :=
  if negb (Contains (err_msg err) permissionSignature) then mret (Some err)
  else
    primary ← TrimSpace <$> Getenv "CF_API_TOKEN";
    if nonEmpty primary then Some <$> newError (envModeMessage err)
    else
      alias ← TrimSpace <$> Getenv "CLOUDFLARE_API_TOKEN";
      if nonEmpty alias then Some <$> newError (envModeMessage err)
      else
        identity ← wranglerWhoami;
        Some <$> newError (toolModeMessage err identity).

(** ** Vocabulary of the statements *)

(** The state of a process that has just started: the package variables
    hold Go's zero values. *)
Definition start (w : World) : State :=
  {| cachedAPIToken := ""; cachedAccountID := ""; world := w;
     nextError := 0; trace := [] |}.

(** The encodings of the white space of Unicode: the code points with the
    property White_Space, which is what [unicode.IsSpace] tests. *)
Definition spaceRunes : list string :=
  map (fun bytes => string_of_list_ascii (map byte bytes))
    [ [9]; [10]; [11]; [12]; [13]; [32];
      [194; 133]; [194; 160]; [225; 154; 128];
      [226; 128; 128]; [226; 128; 129]; [226; 128; 130]; [226; 128; 131];
      [226; 128; 132]; [226; 128; 133]; [226; 128; 134]; [226; 128; 135];
      [226; 128; 136]; [226; 128; 137]; [226; 128; 138];
      [226; 128; 168]; [226; 128; 169]; [226; 128; 175];
      [226; 129; 159]; [227; 128; 128] ]%N.

(** A string that is empty or consists of white space only. *)
Inductive Blank : string -> Prop :=
| Blank_empty : Blank ""
| Blank_space (r s : string) : In r spaceRunes -> Blank s -> Blank (r +:+ s).

(** What may happen in a process run between two calls of a resolver: the
    surroundings change (environment variables are set or unset, the tool
    or the server answer differently), or the process calls one of its
    functions.  The other functions of [main.go] (the list commands,
    [addDNSRecord], the wizard) reach the package variables through these
    calls only. *)
Inductive Action : Type :=
| ChangeWorld (w : World)
| CallResolveAPIToken
| CallResolveAccountID
| CallRequestCF (method path : string) (body : option JSON.value)
| CallGetZoneByName (name : string)
| CallAddZone (domain : string)
| CallExplain (err : GoError).

Definition perform (st : State) (a : Action) : State :=
  match a with
  | ChangeWorld w => setWorld w st
  | CallResolveAPIToken => snd (resolveAPIToken st)
  | CallResolveAccountID => snd (resolveAccountID st)
  | CallRequestCF method path body => snd (requestCF method path body st)
  | CallGetZoneByName name => snd (getZoneByName name st)
  | CallAddZone domain => snd (addZone domain st)
  | CallExplain err => snd (explainZoneCreatePermissionError err st)
  end.

Definition performAll (actions : list Action) (st : State) : State :=
  fold_left perform actions st.

(** The package variables overwritten. *)
Definition setCaches (token accountID : string) (st : State) : State :=
  {| cachedAPIToken := token; cachedAccountID := accountID; world := world st;
     nextError := nextError st; trace := trace st |}.

(** An invariant of the state kept by a computation. *)
Definition preserves {A : Type} (P : State -> Prop) (m : M A) : Prop :=
  forall st, P st -> P (snd (m st)).

(** The events a computation adds to the trace of [st]. *)
Definition added {A : Type} (m : M A) (st : State) : list Event :=
  drop (length (trace st)) (trace (snd (m st))).

(** The state after an event, after an allocation, after an assignment to
    a package variable; the error value allocated next. *)
Definition logged (ev : Event) (st : State) : State := snd (emit ev st).
Definition allocated (st : State) : State := snd (newError "" st).
Definition tokenCached (v : string) (st : State) : State := snd (setCachedAPIToken v st).
Definition accountCached (v : string) (st : State) : State := snd (setCachedAccountID v st).
Definition errorAt (st : State) (msg : string) : GoError :=
  {| err_id := nextError st; err_msg := msg |}.

Definition wranglerTokenCommand : Event := EvExec "wrangler" ["auth"; "token"; "--json"].

(** The resolver found no token: the one error of [resolveAPIToken]. *)
Definition missing (r : result string) : Prop :=
  exists e, r = Err e /\ err_msg e = missingTokenMessage.

(** Two states that differ in their traces at most. *)
Definition agree (s1 s2 : State) : Prop :=
  cachedAPIToken s1 = cachedAPIToken s2 /\
  cachedAccountID s1 = cachedAccountID s2 /\
  world s1 = world s2 /\
  nextError s1 = nextError s2.

(** Two surroundings that answer alike and whose environments give every
    variable the same value up to surrounding white space. *)
Definition similar (w w' : World) : Prop :=
  runCommand w' = runCommand w /\
  apiCall w' = apiCall w /\
  membershipsCall w' = membershipsCall w /\
  forall key, TrimSpace (lookupenv w' key) = TrimSpace (lookupenv w key).

(** The token in the package variable is [v]. *)
Definition tokenHeld (v : string) (st : State) : Prop := cachedAPIToken st = v.

(** *** Sample surroundings *)

Module Sample.

Definition noTool (name : string) (args : list string) : CmdResult :=
  CmdFailed "exec: wrangler: executable file not found in $PATH".

Definition offline {P : Type} (req : Request) : HttpOutcome P :=
  TransportError "dial tcp: connection refused".

Definition bare : World :=
  {| environ := ∅; runCommand := noTool;
     apiCall := offline; membershipsCall := offline |}.

Definition withTool (run : string -> list string -> CmdResult) (w : World) : World :=
  {| environ := environ w; runCommand := run;
     apiCall := apiCall w; membershipsCall := membershipsCall w |}.

(** The tool prints a token, and knows who is logged in. *)
Definition loggedInTool (name : string) (args : list string) : CmdResult :=
  if String.eqb name "wrangler" then
    match args with
    | ["auth"; "token"; "--json"] => CmdOutput (quoted "{'token':'tok-123'}")
    | ["whoami"] => CmdOutput "You are logged in with account example-account"
    | _ => CmdFailed "exit status 1"
    end
  else CmdFailed "exec: executable file not found in $PATH".

Definition permissionDenied : GoError :=
  {| err_id := 0;
     err_msg := quoted "0: Requires permission 'com.cloudflare.api.account.zone.create' to create zones for the selected account" |}.

Definition unrelated : GoError := {| err_id := 0; err_msg := "some other error" |}.

(** A token in the environment and a server that lists [items] as the
    memberships of that token. *)
Definition member (name id : string) : membership :=
  {| Account := {| account_ID := id; account_Name := name |} |}.

Definition memberships (items : list membership) : World :=
  {| environ := {["CF_API_TOKEN" := "tok"]};
     runCommand := noTool;
     apiCall := offline;
     membershipsCall := fun _ =>
       Response 200 {| payload_Success := true; payload_Errors := [];
                       payload_Result := items |} |}.

Definition twoAccounts : list membership :=
  [member "Personal" "0a1b"; member "Work" "9f8e"].

(** Token and account in the environment; the server refuses to create the
    zone with error 1061, and answers the lookup by name with [lookup]. *)
Definition zoneExists (lookup : HttpOutcome apiResponse) : World :=
  {| environ := {["CF_API_TOKEN" := "tok"; "CF_ACCOUNT_ID" := "acct"]};
     runCommand := noTool;
     apiCall := fun req =>
       if String.eqb (req_method req) "POST" then
         Response 400
           {| Success := false;
              Errors := [{| Code := 1061; Message := "example.com already exists" |}];
              Result := "" |}
       else lookup;
     membershipsCall := offline |}.

Definition found : HttpOutcome apiResponse :=
  Response 200
    {| Success := true; Errors := [];
       Result := quoted "[{'id':'z1','name':'example.com','status':'active'}]" |}.

Definition unreachable : HttpOutcome apiResponse :=
  TransportError "read tcp: connection reset by peer".

(** A space, a tab and a no-break space (U+00A0). *)
Definition blankValue : string :=
  " " +:+ String (byte 9) "" +:+ String (byte 194) (String (byte 160) "") +:+ "".

Definition blankPrimary : World :=
  {| environ := {["CF_API_TOKEN" := blankValue; "CLOUDFLARE_API_TOKEN" := "alias-token"]};
     runCommand := noTool; apiCall := offline; membershipsCall := offline |}.

End Sample.

(** * The commands and the command line *)

(** ** More of Go's library: [strings], [strconv] *)

(** [strings.Index]: the offset of the first occurrence of [substr] in [s],
    [None] for Go's -1. *)
Fixpoint Index (s substr : string) : option nat :=
  if HasPrefix s substr then Some 0
  else match s with
       | EmptyString => None
       | String _ r => match Index r substr with
                       | Some i => Some (S i)
                       | None => None
                       end
       end.

(** The slices [s[:n]] and [s[n:]], for [n] within the length of [s]. *)
Fixpoint sliceTo (n : nat) (s : string) : string :=
  match n, s with
  | S n', String a r => String a (sliceTo n' r)
  | _, _ => EmptyString
  end.

Fixpoint sliceFrom (n : nat) (s : string) : string :=
  match n, s with
  | S n', String _ r => sliceFrom n' r
  | _, _ => s
  end.

(** [strings.TrimPrefix]. *)
Definition TrimPrefix (s prefix : string) : string :=
  match JSON.dropPrefix prefix s with
  | Some rest => rest
  | None => s
  end.

(** [strings.EqualFold(s, name)] for a [name] of ASCII letters: equality
    under Unicode simple case folding.  Against an ASCII letter that is the
    other case of the letter and, beyond ASCII, the Kelvin sign for k and
    the long s for s; this is the folding of [JSON.foldsTo]. *)
Definition EqualFold (s name : string) : bool :=
  JSON.foldsTo (JSON.upperName name) s.

(** The two errors of [strconv]: [ErrSyntax] and [ErrRange]. *)
Inductive NumError : Type :=
| ErrSyntax
| ErrRange.

Definition maxUint64 : N := 18446744073709551615.

(** The loop of [strconv.ParseUint] in base 10 with 64 bits: a byte that is
    no digit is a syntax error, a value past [maxUint64] a range error,
    whichever comes first from the left. *)
Fixpoint parseUintFrom (s : string) (n : N) : NumError + N :=
  match s with
  | EmptyString => inr n
  | String c r =>
      if JSON.isDigit c then
        let n1 := (n * 10 + (code c - 48))%N in
        if (maxUint64 <? n1)%N then inl ErrRange else parseUintFrom r n1
      else inl ErrSyntax
  end.

(** [strconv.Atoi] where [int] has 64 bits (the release builds are amd64
    and arm64): an optional sign, then at least one digit, and the value
    within [-2^63, 2^63). *)
Definition Atoi (s : string) : NumError + Z :=
  let '(neg, digits) :=
    match s with
    | String c r =>
        if JSON.isByte 43 c then (false, r)
        else if JSON.isByte 45 c then (true, r)
        else (false, s)
    | EmptyString => (false, s)
    end in
  match digits with
  | EmptyString => inl ErrSyntax
  | String _ _ =>
      match parseUintFrom digits 0 with
      | inl e => inl e
      | inr un =>
          if neg then
            if (9223372036854775808 <? un)%N then inl ErrRange else inr (- Z.of_N un)%Z
          else
            if (9223372036854775808 <=? un)%N then inl ErrRange else inr (Z.of_N un)
      end
  end.

(** ** The command line *)

Definition isHelp (v : string) : bool :=
  String.eqb v "help" || String.eqb v "--help" || String.eqb v "-h".

(** The loop of [parseFlags] from index [i], on the arguments from [i] on
    and the map built so far.  An argument that does not start with [--] is
    skipped; [--key=value] is split at the first [=]; [--key] takes the next
    argument as its value unless that starts with [--] or there is none,
    and is then [true]. *)
Fixpoint parseFlagsFrom (args : list string) (out : gmap string string)
    : gmap string string :=
  match args with
  | [] => out
  | arg :: rest =>
      if negb (HasPrefix arg "--") then parseFlagsFrom rest out
      else
        match Index arg "=" with
        | Some idx =>
            parseFlagsFrom rest
              (<[TrimPrefix (sliceTo idx arg) "--" := sliceFrom (S idx) arg]> out)
        | None =>
            let key := TrimPrefix arg "--" in
            match rest with
            | next :: rest' =>
                if negb (HasPrefix next "--")
                then parseFlagsFrom rest' (<[key := next]> out)
                else parseFlagsFrom rest (<[key := "true"]> out)
            | [] => parseFlagsFrom rest (<[key := "true"]> out)
            end
        end
  end.

Definition parseFlags (args : list string) : gmap string string :=
  parseFlagsFrom args ∅.

(** [flags[key]]: the value, or the empty string when the key is absent. *)
Definition flag (flags : gmap string string) (key : string) : string :=
  default "" (flags !! key).

Definition parseBoolWithDefault (v : string) (fallback : bool) : bool :=
  if String.eqb (TrimSpace v) "" then fallback
  else EqualFold v "true" || EqualFold v "yes" || String.eqb v "1".

(** The Go function returns [(0, err)] on an error. *)
Definition parseIntWithDefault (v : string) (fallback : Z) : NumError + Z :=
  if String.eqb (TrimSpace v) "" then inr fallback
  else Atoi v.

(** *** Vocabulary for the command line *)

(** Flags written the two ways [parseFlags] reads them. *)
Definition spaced (pairs : list (string * string)) : list string :=
  flat_map (fun kv => ["--" +:+ fst kv; snd kv]) pairs.

Definition joined (pairs : list (string * string)) : list string :=
  map (fun kv => "--" +:+ fst kv +:+ "=" +:+ snd kv) pairs.

(** The map in which a later pair overrides an earlier one. *)
Definition lastWins (pairs : list (string * string)) : gmap string string :=
  fold_left (fun m kv => <[fst kv := snd kv]> m) pairs ∅.

(** Every byte of [s] satisfies [p]. *)
Fixpoint allBytes (p : ascii -> bool) (s : string) : bool :=
  match s with
  | EmptyString => true
  | String a r => p a && allBytes p r
  end.

(** An ASCII byte that is no white space. *)
Definition plain (c : ascii) : bool := (code c <? 128)%N && negb (asciiSpace c).

(** [s] with its ASCII upper-case letters made lower-case. *)
Definition toLower (c : ascii) : ascii :=
  if JSON.inRange 65 90 c then byte (code c + 32) else c.

Fixpoint lowerASCII (s : string) : string :=
  match s with
  | String a r => String (toLower a) (lowerASCII r)
  | EmptyString => EmptyString
  end.


(** The arguments are empty or begin with a flag. *)
Definition flagFirst (args : list string) : bool :=
  match args with
  | [] => true
  | a :: _ => HasPrefix a "--"
  end.


Definition isLowerLetter : ascii -> bool := JSON.inRange 97 122.

Definition noSpace (c : ascii) : bool := negb (asciiSpace c).


(** ** The list commands and [addDNSRecord] *)

Record registrarDomain : Type :=
  { domain_Name : string; AutoRenew : bool; Locked : bool; Privacy : bool }.

Record dnsRecord : Type :=
  { record_ID : string; record_Type : string;
    record_Name : string; record_Content : string }.

(** The members of an object, in order, acting on a field of Go type [bool]
    named [name] that holds [cur]: [true] and [false] set it, [null] leaves
    it, anything else is an [UnmarshalTypeError] ([None]). *)
Fixpoint boolField (name : string) (ms : list (string * JSON.value)) (cur : bool)
    : option bool :=
  match ms with
  | [] => Some cur
  | (k, v) :: ms' =>
      if JSON.keyMatches name k then
        match v with
        | JSON.Bool b => boolField name ms' b
        | JSON.Null => boolField name ms' cur
        | _ => None
        end
      else boolField name ms' cur
  end.

Definition zeroDomain : registrarDomain :=
  {| domain_Name := ""; AutoRenew := false; Locked := false; Privacy := false |}.

Definition decodeRegistrarDomain (v : JSON.value) (d : registrarDomain)
    : option registrarDomain :=
  match v with
  | JSON.Object ms =>
      match JSON.stringField "name" ms (domain_Name d),
            boolField "auto_renew" ms (AutoRenew d),
            boolField "locked" ms (Locked d),
            boolField "privacy" ms (Privacy d) with
      | Some n, Some a, Some l, Some p =>
          Some {| domain_Name := n; AutoRenew := a; Locked := l; Privacy := p |}
      | _, _, _, _ => None
      end
  | JSON.Null => Some d
  | _ => None
  end.

Fixpoint decodeRegistrarDomains (vs : list JSON.value) : option (list registrarDomain) :=
  match vs with
  | [] => Some []
  | v :: vs' =>
      match decodeRegistrarDomain v zeroDomain, decodeRegistrarDomains vs' with
      | Some d, Some ds => Some (d :: ds)
      | _, _ => None
      end
  end.

(** [json.Unmarshal(data, &domains)] for [var domains []registrarDomain]. *)
Definition unmarshalRegistrarDomains (data : string) : JSON.error + list registrarDomain :=
  match JSON.parse data with
  | None => inl JSON.SyntaxError
  | Some (JSON.Array vs) =>
      match decodeRegistrarDomains vs with
      | Some ds => inr ds
      | None => inl JSON.UnmarshalTypeError
      end
  | Some JSON.Null => inr []
  | Some _ => inl JSON.UnmarshalTypeError
  end.

Definition zeroRecord : dnsRecord :=
  {| record_ID := ""; record_Type := ""; record_Name := ""; record_Content := "" |}.

(** [json.Unmarshal(data, &r)] for [var r dnsRecord]. *)
Definition unmarshalDNSRecord (data : string) : JSON.error + dnsRecord :=
  match JSON.parse data with
  | None => inl JSON.SyntaxError
  | Some (JSON.Object ms) =>
      match JSON.stringField "id" ms "", JSON.stringField "type" ms "",
            JSON.stringField "name" ms "", JSON.stringField "content" ms "" with
      | Some i, Some t, Some n, Some c =>
          inr {| record_ID := i; record_Type := t; record_Name := n; record_Content := c |}
      | _, _, _, _ => inl JSON.UnmarshalTypeError
      end
  | Some JSON.Null => inr zeroRecord
  | Some _ => inl JSON.UnmarshalTypeError
  end.

(** The verb [%t]. *)
Definition showBool (b : bool) : string := if b then "true" else "false".

(** One call of [fmt.Printf] or [fmt.Println] for each line. *)
Fixpoint printAll (lines : list string) : M unit :=
  match lines with
  | [] => mret tt
  | line :: rest => _ ← Print line; printAll rest
  end.

Definition registrarLine (d : registrarDomain) : string :=
  domain_Name d +:+ "  auto_renew=" +:+ showBool (AutoRenew d)
  +:+ "  locked=" +:+ showBool (Locked d)
  +:+ "  privacy=" +:+ showBool (Privacy d) +:+ newline.

Definition noDomainsLine : string :=
  "No registrar domains found in this account." +:+ newline.

(** A function that returns only an [error] gives [Ok tt] for nil.  The
    path holds the account id as it is; a request that [http.NewRequest]
    refuses (a control byte, a malformed escape) counts as one the transport
    fails. *)
Definition listRegistrarDomains : M (result unit) :=
  accountID ←? resolveAccountID;
  resp ←? requestCF "GET" ("/accounts/" +:+ accountID +:+ "/registrar/domains") None;
  domains ←? unmarshal (unmarshalRegistrarDomains (Result resp));
  match domains with
  | [] => _ ← Print noDomainsLine; mret (Ok tt)
  | _ => _ ← printAll (map registrarLine domains); mret (Ok tt)
  end.

Definition zoneListLine (z : zone) : string :=
  Name z +:+ "  status=" +:+ Status z +:+ "  id=" +:+ ID z +:+ newline.

Definition noZonesLine : string := "No zones found in this account." +:+ newline.

Definition zoneListPath (accountID : string) : string :=
  "/zones?account.id=" +:+ QueryEscape accountID +:+ "&per_page=100".

Definition listZones : M (result unit) :=
  accountID ←? resolveAccountID;
  resp ←? requestCF "GET" (zoneListPath accountID) None;
  zones ←? unmarshal (unmarshalZones (Result resp));
  match zones with
  | [] => _ ← Print noZonesLine; mret (Ok tt)
  | _ => _ ← printAll (map zoneListLine zones); mret (Ok tt)
  end.

Definition zoneNotFoundMessage (zoneName : string) : string :=
  "zone not found for " +:+ zoneName +:+ ". run: cf zones add " +:+ zoneName.

(** The body of the request, with the keys in the order [json.Marshal]
    gives a map. *)
Definition recordBody (typeName name content : string) (ttl : Z) (proxied : bool)
    : JSON.value :=
  JSON.Object
    [ ("content", JSON.Str content);
      ("name", JSON.Str name);
      ("proxied", JSON.Bool proxied);
      ("ttl", JSON.Number (Itoa ttl));
      ("type", JSON.Str typeName) ].

Definition recordsPath (z : zone) : string := "/zones/" +:+ ID z +:+ "/dns_records".

Definition recordLine (r : dnsRecord) : string :=
  "DNS record created: " +:+ record_Type r +:+ " " +:+ record_Name r
  +:+ " -> " +:+ record_Content r +:+ " (id=" +:+ record_ID r +:+ ")" +:+ newline.

Definition addDNSRecord (zoneName typeName name content : string) (ttl : Z)
    (proxied : bool) : M (result unit) :=
  found ←? getZoneByName zoneName;
  match found with
  | None => fail (zoneNotFoundMessage zoneName)
  | Some z =>
      resp ←? requestCF "POST" (recordsPath z)
                (Some (recordBody typeName name content ttl proxied));
      r ←? unmarshal (unmarshalDNSRecord (Result resp));
      _ ← Print (recordLine r);
      mret (Ok tt)
  end.

(** *** Vocabulary for the commands *)

(** What the process may do, one after the other: as [Action], and the
    three commands above. *)
Inductive Step : Type :=
| Acts (a : Action)
| RunListRegistrarDomains
| RunListZones
| RunAddDNSRecord (zoneName typeName name content : string) (ttl : Z) (proxied : bool).

Definition step (st : State) (s : Step) : State :=
  match s with
  | Acts a => perform st a
  | RunListRegistrarDomains => snd (listRegistrarDomains st)
  | RunListZones => snd (listZones st)
  | RunAddDNSRecord zoneName typeName name content ttl proxied =>
      snd (addDNSRecord zoneName typeName name content ttl proxied st)
  end.

Definition steps (l : list Step) (st : State) : State := fold_left step l st.

(** Every request sent so far carries the token of the package variable,
    and that token is not empty. *)
Definition bearerOnly (st : State) : Prop :=
  forall req, In (EvHTTP req) (trace st) ->
    cachedAPIToken st <> "" /\
    req_authorization req = "Bearer " +:+ cachedAPIToken st.

(** The account in the package variable is [v]. *)
Definition accountHeld (v : string) (st : State) : Prop := cachedAccountID st = v.

Definition isPrint (ev : Event) : bool :=
  match ev with EvPrint _ => true | _ => false end.

Definition isHTTP (ev : Event) : bool :=
  match ev with EvHTTP _ => true | _ => false end.

(** Every event a computation adds to the trace satisfies [Q]. *)
Definition emits {A : Type} (Q : Event -> Prop) (m : M A) : Prop :=
  forall st, exists evs, trace (snd (m st)) = trace st ++ evs /\ Forall Q evs.


(** No request has been sent. *)
Definition noRequests (st : State) : Prop :=
  forall req, ~ In (EvHTTP req) (trace st).

(** An event that is no output; an event that is no request other than a
    [GET]. *)
Definition silent (ev : Event) : Prop := isPrint ev = false.

Definition readOnly (ev : Event) : Prop :=
  forall req, ev = EvHTTP req -> req_method req = "GET".

(** A command that prints at its end only, and prints exactly when it
    returns no error. *)
Definition reports {A : Type} (m : M (result A)) : Prop :=
  forall st, exists pre lines,
    trace (snd (m st)) = trace st ++ pre ++ map EvPrint lines /\
    Forall silent pre /\
    (lines = [] <-> exists e, fst (m st) = Err e).

(** *** More sample surroundings *)

Module Scenario.

(** Token and account in the environment; the server answers every [GET]
    with the list of its one zone and every other request with the record
    [created]. *)
Definition listed : apiResponse :=
  {| Success := true; Errors := [];
     Result := quoted "[{'id':'z1','name':'example.com','status':'active'}]" |}.

Definition created : apiResponse :=
  {| Success := true; Errors := [];
     Result := quoted "{'id':'r1','type':'A','name':'www','content':'1.2.3.4'}" |}.

Definition oneZone : World :=
  {| environ := {["CF_API_TOKEN" := "tok"; "CF_ACCOUNT_ID" := "acct"]};
     runCommand := Sample.noTool;
     apiCall := fun req =>
       if String.eqb (req_method req) "GET" then Response 200 listed
       else Response 200 created;
     membershipsCall := Sample.offline |}.

(** The token comes from the tool and the account from the memberships of
    the token, whose identifier is empty. *)
Definition namelessAccount : World :=
  {| environ := ∅;
     runCommand := Sample.loggedInTool;
     apiCall := Sample.offline;
     membershipsCall := fun _ =>
       Response 200 {| payload_Success := true; payload_Errors := [];
                       payload_Result := [Sample.member "Personal" ""] |} |}.

End Scenario.



(** ** The dispatcher and the wizard *)

(** *** Library functions over Unicode

    Two library functions depend on the tables of Unicode: the upper case
    of a letter beyond ASCII, and the characters [strconv.Quote] escapes.
    Both are left open: what is proved holds for every table. *)
Record Library : Type :=
  { unicode_upper : N -> N;         (* unicode.To(unicode.UpperCase, r), r > 127 *)
    strconv_Quote : string -> string }.

(** [unicode.ToUpper]: its own branch for ASCII, then the table. *)
Definition upperRune (lib : Library) (r : N) : N :=
  if (r <? 128)%N then
    if ((97 <=? r) && (r <=? 122))%N then (r - 32)%N else r
  else unicode_upper lib r.

(** [utf8.DecodeRuneInString] on a string that is not empty: the code point
    and its width, U+FFFD of width 1 for a byte that starts no well-formed
    sequence. *)
Definition decodeRune (s : string) : N * nat :=
  match s with
  | String a r =>
      if (code a <? 128)%N then (code a, 1)
      else
        match JSON.runeWidth s, r with
        | 2, String b _ => (((code a - 192) * 64 + (code b - 128))%N, 2)
        | 3, String b (String c _) =>
            (((code a - 224) * 4096 + (code b - 128) * 64 + (code c - 128))%N, 3)
        | 4, String b (String c (String d _)) =>
            (((code a - 240) * 262144 + (code b - 128) * 4096
              + (code c - 128) * 64 + (code d - 128))%N, 4)
        | _, _ => (65533%N, 1)
        end
  | EmptyString => (65533%N, 0)
  end.

(** [strings.Map] for a mapping that drops no rune: the runes of [s] mapped
    one by one and encoded again, [skip] being the bytes left of the rune
    decoded last. *)
Fixpoint mapRunes (mapping : N -> N) (skip : nat) (s : string) : string :=
  match s with
  | EmptyString => EmptyString
  | String a r =>
      match skip with
      | S k => mapRunes mapping k r
      | O =>
          let '(c, width) := decodeRune s in
          JSON.encodeRune (mapping c) +:+ mapRunes mapping (width - 1) r
      end
  end.

Definition isASCII (s : string) : bool := allBytes (fun c => (code c <? 128)%N) s.

(** [strings.ToUpper]: bytes for a string of ASCII, runes otherwise. *)
Definition ToUpper (lib : Library) (s : string) : string :=
  if isASCII s then JSON.upperName s else mapRunes (upperRune lib) 0 s.

(** The method [Error] of a [strconv.NumError] of the function [fn] on
    [num]. *)
Definition numErrorText (lib : Library) (fn num : string) (e : NumError) : string :=
  "strconv." +:+ fn +:+ ": parsing " +:+ strconv_Quote lib num +:+ ": "
  +:+ match e with
      | ErrSyntax => "invalid syntax"
      | ErrRange => "value out of range"
      end.

(** [fmt.Errorf(context + ": %w", err)] for the error [err] of
    [strconv.Atoi]: two values, the second with the text of the first. *)
Definition wrapAtoiError (lib : Library) (context num : string) (e : NumError)
    : M GoError :=
  inner ← newError (numErrorText lib "Atoi" num e);
  newError (context +:+ ": " +:+ err_msg inner).

(** *** Standard input and the host *)

(** What one call of [reader.ReadString('\n')] returns: the text read and
    no error, [io.EOF], or another error. *)
Inductive ReadErr : Type :=
| ReadOk
| ReadEOF
| ReadFailed (msg : string).

Record ReadResult : Type := { read_text : string; read_err : ReadErr }.

(** A [*bufio.Reader] on standard input: what its successive calls of
    [ReadString] return, and how many calls there were. *)
Record Reader : Type := { source : nat -> ReadResult; position : nat }.

Definition ReadString (reader : Reader) : ReadResult * Reader :=
  (source reader (position reader),
   {| source := source reader; position := S (position reader) |}).

(** [runtime.GOOS], the method [Start] of an [exec.Cmd] ([None] when the
    command starts) and standard input. *)
Record Host : Type :=
  { GOOS : string;
    startCommand : string -> list string -> option string;
    stdin : nat -> ReadResult }.

Definition NewReader (h : Host) : Reader := {| source := stdin h; position := 0 |}.

(** [x, err := m; if err != nil { return err }; k x] for a function that
    reads from the reader it is given. *)
Definition bindRead {A B : Type} (m : M (result A * Reader))
    (k : A * Reader -> M (result B)) : M (result B) :=
  p ← m;
  match p with
  | (Ok a, reader) => k (a, reader)
  | (Err e, _) => mret (Err e)
  end.

Notation "' x ←! y ; z" := (bindRead y (fun x : _ => z))
  (at level 20, x pattern, y at level 100, z at level 200, only parsing,
   right associativity).

Definition prompt (reader : Reader) (question fallback : string)
    : M (result string * Reader) :=
  let suffix := if String.eqb fallback "" then "" else " [" +:+ fallback +:+ "]" in
  _ ← Print (question +:+ suffix +:+ ": ");
  let '(line, reader') := ReadString reader in
  match read_err line with
  | ReadFailed msg => e ← newError msg; mret (Err e, reader')
  | _ =>
      let text := TrimSpace (read_text line) in
      if String.eqb text "" then mret (Ok fallback, reader')
      else mret (Ok text, reader')
  end.

Definition promptYesNo (reader : Reader) (question : string) (fallback : bool)
    : M (result bool * Reader) :=
  let defaultLabel := if fallback then "Y/n" else "y/N" in
  p ← prompt reader (question +:+ " (" +:+ defaultLabel +:+ ")") "";
  match p with
  | (Err e, reader') => mret (Err e, reader')
  | (Ok v, reader') =>
      if String.eqb v "" then mret (Ok fallback, reader')
      else if EqualFold v "y" || EqualFold v "yes" then mret (Ok true, reader')
      else if EqualFold v "n" || EqualFold v "no" then mret (Ok false, reader')
      else mret (Ok fallback, reader')
  end.

Definition openURL (h : Host) (rawURL : string) : M (result unit) :=
  let '(name, args) :=
    if String.eqb (GOOS h) "darwin" then ("open", [rawURL])
    else if String.eqb (GOOS h) "windows" then ("cmd", ["/c"; "start"; rawURL])
    else ("xdg-open", [rawURL]) in
  _ ← emit (EvExec name args);
  match startCommand h name args with
  | None => mret (Ok tt)
  | Some msg => fail msg
  end.

Definition dashboardURL : string := "https://dash.cloudflare.com/?to=/:account/domains".

(** The commands that [openURL] chooses from. *)
Definition openers (rawURL : string) : list (string * list string) :=
  [("open", [rawURL]); ("cmd", ["/c"; "start"; rawURL]); ("xdg-open", [rawURL])].

Definition zoneStatusLine (status : string) : string :=
  "Zone status is '" +:+ status
  +:+ "'. You may still need to update nameservers at your current registrar."
  +:+ newline.

(** How a loop left off: it ended with [break], it returned, or it was
    still running when the fuel ran out. *)
Inductive LoopEnd : Type :=
| Break
| Return (r : result unit)
| Running.

(** The [for] loop of [runWizard], [fuel] rounds of it. *)
Fixpoint recordLoop (lib : Library) (fuel : nat) (reader : Reader) (domain : string)
    : M LoopEnd :=
  match fuel with
  | O => mret Running
  | S fuel' =>
      p ← promptYesNo reader "Add a DNS record now?" true;
      match p with
      | (Err e, _) => mret (Return (Err e))
      | (Ok false, _) => mret Break
      | (Ok true, reader) =>
          r ← ('(zoneName, reader) ←! prompt reader "Zone name" domain;
               '(typeName, reader) ←! prompt reader "Record type" "A";
               '(name, reader) ←! prompt reader "Record name" "@";
               '(content, reader) ←! prompt reader "Record content (IP or hostname)" "";
               '(ttlRaw, reader) ←! prompt reader "TTL (1 means auto)" "1";
               match Atoi ttlRaw with
               | inl e => e' ← wrapAtoiError lib "invalid TTL" ttlRaw e; mret (Err e')
               | inr ttl =>
                   '(proxied, reader) ←!
                     promptYesNo reader "Proxied through Cloudflare (orange cloud)?" false;
                   _ ←? addDNSRecord zoneName (ToUpper lib typeName) name content
                          ttl proxied;
                   mret (Ok reader)
               end);
          match r with
          | Err e => mret (Return (Err e))
          | Ok reader => recordLoop lib fuel' reader domain
          end
      end
  end.

(** [runWizard], with [fuel] rounds for its loop; [None] when the loop was
    still running after them. *)
Definition runWizard (lib : Library) (h : Host) (fuel : nat) : M (option (result unit)) :=
  r ← ('(domain, reader) ←! prompt (NewReader h) "Domain you want to onboard (example.com)" "";
       if String.eqb domain "" then fail "domain is required"
       else
         '(alreadyRegistered, reader) ←!
           promptYesNo reader "Is this domain already registered somewhere?" true;
         reader ←?
           (if alreadyRegistered then mret (Ok reader)
            else
              _ ← Print (newline
                         +:+ "Manual step required: register domain in Cloudflare Dashboard:"
                         +:+ newline);
              _ ← Print (dashboardURL +:+ newline);
              '(openNow, reader) ←!
                promptYesNo reader "Open the dashboard URL in your browser now?" true;
              _ ← (if openNow then
                     opened ← openURL h dashboardURL;
                     match opened with
                     | Err err =>
                         Print ("Could not open browser automatically: "
                                +:+ err_msg err +:+ newline)
                     | Ok _ => Print ("Opened browser tab." +:+ newline)
                     end
                   else mret tt);
              '(_, reader) ←!
                prompt reader
                  "Press Enter when registration is complete and you want to continue" "";
              mret (Ok reader));
         '(addZoneNow, reader) ←!
           promptYesNo reader ("Add " +:+ domain +:+ " as a zone in Cloudflare now?") true;
         _ ←? (if addZoneNow then
                 z ←? addZone domain;
                 match z with
                 | Some z =>
                     if String.eqb (Status z) "active" then mret (Ok tt)
                     else _ ← Print (zoneStatusLine (Status z)); mret (Ok tt)
                 | None => mret (Ok tt)
                 end
               else mret (Ok tt));
         mret (Ok (reader, domain)));
  match r with
  | Err e => mret (Some (Err e))
  | Ok (reader, domain) =>
      l ← recordLoop lib fuel reader domain;
      match l with
      | Running => mret None
      | Return r => mret (Some r)
      | Break =>
          _ ← Print (newline +:+ "Wizard complete." +:+ newline);
          mret (Some (Ok tt))
      end
  end.

Definition helpText : string :=
  "cf: Cloudflare domain helper CLI

Usage:
  cf help
  cf wizard
  cf registrar list
  cf zones list
  cf zones add <domain>
  cf dns add --zone <zone-name> --type <A|AAAA|CNAME|TXT|...> --name <record-name> --content <value> [--ttl 1] [--proxied true|false]

Required env vars:
  CF_API_TOKEN or CLOUDFLARE_API_TOKEN
  CF_ACCOUNT_ID or CLOUDFLARE_ACCOUNT_ID
  (or Wrangler login for token fallback)

Examples:
  CF_API_TOKEN=... CF_ACCOUNT_ID=... cf registrar list
  CF_API_TOKEN=... CF_ACCOUNT_ID=... cf wizard
  CF_API_TOKEN=... CF_ACCOUNT_ID=... cf dns add --zone example.com --type A --name @ --content 1.2.3.4 --proxied false".

Definition printHelp : M unit := Print (helpText +:+ newline).

Definition unknownCommand : string := "unknown command. run: cf help".

Definition missingFlags : string :=
  "missing required flags for dns add: --zone --type --name --content".

(** [run] on [os.Args[1:]]; [None] when the loop of the wizard was still
    running after [fuel] rounds. *)
Definition run (lib : Library) (h : Host) (fuel : nat) (args : list string)
    : M (option (result unit)) :=
  let unknown : M (option (result unit)) := Some <$> fail unknownCommand in
  match args with
  | [] => _ ← printHelp; mret (Some (Ok tt))
  | command :: rest =>
      if isHelp command then _ ← printHelp; mret (Some (Ok tt))
      else if String.eqb command "wizard" then runWizard lib h fuel
      else if String.eqb command "registrar" then
        match rest with
        | sub :: _ =>
            if String.eqb sub "list" then Some <$> listRegistrarDomains else unknown
        | [] => unknown
        end
      else if String.eqb command "zones" then
        match rest with
        | sub :: rest' =>
            if String.eqb sub "list" then Some <$> listZones
            else if String.eqb sub "add" then
              match rest' with
              | [] => Some <$> fail "usage: cf zones add <domain>"
              | domain :: _ =>
                  z ← addZone domain;
                  match z with
                  | Ok _ => mret (Some (Ok tt))
                  | Err err => mret (Some (Err err))
                  end
              end
            else unknown
        | [] => unknown
        end
      else if String.eqb command "dns" then
        match rest with
        | sub :: rest' =>
            if String.eqb sub "add" then
              let flags := parseFlags rest' in
              let zoneName := flag flags "zone" in
              let typeName := ToUpper lib (flag flags "type") in
              let name := flag flags "name" in
              let content := flag flags "content" in
              match parseIntWithDefault (flag flags "ttl") 1 with
              | inl e =>
                  e' ← wrapAtoiError lib "invalid --ttl" (flag flags "ttl") e;
                  mret (Some (Err e'))
              | inr ttl =>
                  let proxied := parseBoolWithDefault (flag flags "proxied") false in
                  if String.eqb zoneName "" || String.eqb typeName ""
                     || String.eqb name "" || String.eqb content "" then
                    Some <$> fail missingFlags
                  else Some <$> addDNSRecord zoneName typeName name content ttl proxied
              end
            else unknown
        | [] => unknown
        end
      else unknown
  end.


(** *** Vocabulary for the wizard *)

(** From a state that satisfies [I], [m] returns a value that satisfies [Q]
    and leaves a state that satisfies [I]. *)
Definition hoare {A : Type} (I : State -> Prop) (m : M A) (Q : A -> Prop) : Prop :=
  forall st, I st -> Q (fst (m st)) /\ I (snd (m st)).

(** The line says no: after trimming it is n or no, in any case of the
    letters. *)
Definition answersNo (line : ReadResult) : Prop :=
  EqualFold (TrimSpace (read_text line)) "n"
  || EqualFold (TrimSpace (read_text line)) "no" = true.

(** Nothing but white space was read, and the read did not fail: an empty
    line, or the end of the input. *)
Definition blankLine (line : ReadResult) : Prop :=
  TrimSpace (read_text line) = "" /\ forall msg, read_err line <> ReadFailed msg.

(** From where the reader stands on there are only blank lines, or the
    input is at its end. *)
Definition idle (reader : Reader) : Prop :=
  forall n, position reader <= n -> blankLine (source reader n).

Definition inWorld (w : World) (st : State) : Prop := world st = w.

(** What the program may touch: the four variables of the environment, the
    tool for its token and the opener of the platform on the address of the
    dashboard, and the API by [GET] and [POST]. *)
Definition footprint (ev : Event) : Prop :=
  match ev with
  | EvGetenv key =>
      In key ["CF_API_TOKEN"; "CLOUDFLARE_API_TOKEN";
              "CF_ACCOUNT_ID"; "CLOUDFLARE_ACCOUNT_ID"]
  | EvExec name args =>
      (name = "wrangler" /\ args = ["auth"; "token"; "--json"]) \/
      In (name, args) (openers dashboardURL)
  | EvHTTP req =>
      HasPrefix (req_url req) apiBase = true /\
      (req_method req = "GET" \/ req_method req = "POST")
  | EvPrint _ => True
  end.

(** *** A sample console *)

Module Console.

(** Tables that change no letter beyond ASCII and quote nothing. *)
Definition plain : Library :=
  {| unicode_upper := fun r => r; strconv_Quote := fun s => s |}.

(** The lines typed, each ended by a newline, then the end of the input. *)
Definition typed (lines : list string) (n : nat) : ReadResult :=
  match lines !! n with
  | Some text => {| read_text := text +:+ newline; read_err := ReadOk |}
  | None => {| read_text := ""; read_err := ReadEOF |}
  end.

Definition linux (lines : list string) : Host :=
  {| GOOS := "linux"; startCommand := fun _ _ => None; stdin := typed lines |}.

End Console.



(** *** Vocabulary for the addresses *)

(** How often the byte [c] occurs in [s]. *)
Fixpoint count (c : ascii) (s : string) : nat :=
  match s with
  | EmptyString => 0
  | String a r => (if Ascii.eqb a c then 1 else 0) + count c r
  end.

(** The bytes [url.QueryEscape] writes: letters, digits, [-], [_], [.],
    [~], the [+] for a space and the [%] of an escape. *)
Definition escaped (c : ascii) : bool :=
  JSON.inRange 65 90 c || JSON.inRange 97 122 c || JSON.inRange 48 57 c
  || JSON.isByte 45 c || JSON.isByte 95 c || JSON.isByte 46 c || JSON.isByte 126 c
  || JSON.isByte 43 c || JSON.isByte 37 c.


(** * Properties *)

(** ** Strings *)

Section StringFacts.

Lemma append_cons (a : ascii) (s t : string) : String a s +:+ t = String a (s +:+ t).
Proof. reflexivity. Qed.

Lemma append_nil_l (s : string) : "" +:+ s = s.
Proof. reflexivity. Qed.

Lemma append_nil_r (s : string) : s +:+ "" = s.
Proof. induction s as [|a s IH]; [reflexivity|]. now rewrite append_cons, IH. Qed.

Lemma append_assoc (s t u : string) : (s +:+ t) +:+ u = s +:+ t +:+ u.
Proof. induction s as [|a s IH]; [reflexivity|]. now rewrite !append_cons, IH. Qed.

Lemma HasPrefix_app (p s : string) : HasPrefix (p +:+ s) p = true.
Proof.
  induction p as [|a p IH]; [now destruct s|].
  rewrite append_cons. simpl. now rewrite Ascii.eqb_refl, IH.
Qed.

Lemma HasPrefix_inv (s p : string) :
  HasPrefix s p = true -> exists t, s = p +:+ t.
Proof.
  revert s. induction p as [|b p IH]; intros s H.
  - exists s. reflexivity.
  - destruct s as [|a s]; [discriminate|]. simpl in H.
    apply andb_prop in H as [Hab Hp].
    apply Ascii.eqb_eq in Hab as ->.
    destruct (IH _ Hp) as [t ->]. exists t. reflexivity.
Qed.

(** [Contains] is the substring relation. *)
Lemma Contains_iff (s substr : string) :
  Contains s substr = true <-> exists a b, s = a +:+ substr +:+ b.
Proof.
  split.
  - induction s as [|c s IH]; cbn [Contains]; intros H.
    + rewrite orb_false_r in H. apply HasPrefix_inv in H as [t ->].
      exists "", t. reflexivity.
    + apply orb_prop in H as [H|H].
      * apply HasPrefix_inv in H as [t ->]. exists "", t. reflexivity.
      * destruct (IH H) as (a & b & ->). exists (String c a), b. reflexivity.
  - intros (a & b & ->). induction a as [|c a IH].
    + rewrite append_nil_l.
      destruct substr; simpl; [now destruct b|].
      rewrite Ascii.eqb_refl, HasPrefix_app. reflexivity.
    + rewrite append_cons. cbn [Contains]. rewrite IH. apply orb_true_r.
Qed.

Lemma Contains_middle (a substr b : string) : Contains (a +:+ substr +:+ b) substr = true.
Proof. apply Contains_iff. eauto. Qed.

Lemma Contains_prefix (substr b : string) : Contains (substr +:+ b) substr = true.
Proof. apply (Contains_middle "" substr b). Qed.

Lemma Contains_suffix (a substr : string) : Contains (a +:+ substr) substr = true.
Proof. rewrite <- (append_nil_r substr) at 1. apply Contains_middle. Qed.

Lemma Contains_inside (a s b substr : string) :
  Contains s substr = true -> Contains (a +:+ s +:+ b) substr = true.
Proof.
  intros (x & y & ->)%Contains_iff. apply Contains_iff.
  exists (a +:+ x), (y +:+ b). now rewrite !append_assoc.
Qed.

Lemma Contains_left (s b substr : string) :
  Contains s substr = true -> Contains (s +:+ b) substr = true.
Proof. apply (Contains_inside "" s b). Qed.

Lemma Contains_refl (s : string) : Contains s s = true.
Proof. apply Contains_iff. exists "", "". now rewrite append_nil_r. Qed.

Lemma Contains_trans (s t u : string) :
  Contains s t = true -> Contains t u = true -> Contains s u = true.
Proof.
  intros (a & b & ->)%Contains_iff Htu. now apply Contains_inside.
Qed.

Lemma Contains_right (a s substr : string) :
  Contains s substr = true -> Contains (a +:+ s) substr = true.
Proof. intros H. rewrite <- (append_nil_r s). now apply Contains_inside. Qed.

(** Every element of a joined list occurs in the result. *)
Lemma Join_contains (elems : list string) (sep e : string) :
  In e elems -> Contains (Join elems sep) e = true.
Proof.
  induction elems as [|x rest IH]; [intros []|].
  intros [->|Hin].
  - destruct rest; simpl; [apply Contains_suffix with (a := "")|apply Contains_prefix].
  - destruct rest as [|y rest']; [destruct Hin|].
    change (Join (x :: y :: rest') sep) with (x +:+ sep +:+ Join (y :: rest') sep).
    apply Contains_right, Contains_right, IH, Hin.
Qed.

Lemma nonEmpty_true (s : string) : nonEmpty s = true <-> s <> "".
Proof.
  unfold nonEmpty. destruct (String.eqb_spec s ""); simpl; split; congruence.
Qed.

Lemma nonEmpty_false (s : string) : nonEmpty s = false <-> s = "".
Proof.
  unfold nonEmpty. destruct (String.eqb_spec s ""); simpl; split; congruence.
Qed.

End StringFacts.


(** ** The library models on sample inputs *)

Section Samples.

Example TrimSpace_ascii : TrimSpace ("  a b " +:+ String (byte 9) newline) = "a b".
Proof. reflexivity. Qed.

(** A no-break space in front and an em space (U+2003) behind. *)
Example TrimSpace_unicode :
  TrimSpace (String (byte 194) (String (byte 160) "x y")
             +:+ String (byte 226) (String (byte 128) (String (byte 131) "")))
  = "x y".
Proof. reflexivity. Qed.

(** A lone lead byte is no space. *)
Example TrimSpace_broken_rune :
  TrimSpace (String (byte 194) " ") = String (byte 194) "".
Proof. reflexivity. Qed.

Example Itoa_samples : Itoa 0 = "0" /\ Itoa 1061 = "1061" /\ Itoa (-5) = "-5".
Proof. repeat split. Qed.

Example QueryEscape_sample : QueryEscape "exa mple.com/~a?" = "exa+mple.com%2F~a%3F".
Proof. reflexivity. Qed.

Example quoted_sample :
  quoted "{'a':1}"
  = "{" +:+ String (byte 34) "a" +:+ String (byte 34) ":1}".
Proof. reflexivity. Qed.

Example parse_nested :
  JSON.parse (quoted " { 'a' : [1, -2.5e3, true, null, {'b':[]}] , 'c': 'x\ty' } ")
  = Some (JSON.Object
            [("a", JSON.Array [JSON.Number "1"; JSON.Number "-2.5e3"; JSON.Bool true;
                               JSON.Null; JSON.Object [("b", JSON.Array [])]]);
             ("c", JSON.Str ("x" +:+ String (byte 9) "y"))]).
Proof. vm_compute. reflexivity. Qed.

Example parse_rejects :
  JSON.parse "" = None /\ JSON.parse "[1,]" = None /\ JSON.parse "01" = None /\
  JSON.parse "nul" = None /\ JSON.parse "{} {}" = None /\
  JSON.parse (quoted "{'a':1,}") = None /\ JSON.parse (quoted "'open") = None.
Proof. vm_compute. repeat split. Qed.

(** Keys match without regard to case, the last one wins, [null] changes
    nothing, and a value of another type is an error. *)
Example unmarshalToken_samples :
  unmarshalToken (quoted "{'token':'tok-123'}") = inr "tok-123" /\
  unmarshalToken (quoted "{'TOKEN':'a', 'Token':'b', 'other':1}") = inr "b" /\
  unmarshalToken (quoted "{'token':'a', 'token':null}") = inr "a" /\
  unmarshalToken (quoted "{'account':'x'}") = inr "" /\
  unmarshalToken "null" = inr "" /\
  unmarshalToken (quoted "{'token':123}") = inl JSON.UnmarshalTypeError /\
  unmarshalToken (quoted "['tok-123']") = inl JSON.UnmarshalTypeError /\
  unmarshalToken "wrangler: command not found" = inl JSON.SyntaxError.
Proof. vm_compute. repeat split. Qed.

Example unmarshalZones_samples :
  unmarshalZones (quoted "[{'id':'z1','name':'example.com','status':'pending'}, null]")
    = inr [{| ID := "z1"; Name := "example.com"; Status := "pending" |}; zeroZone] /\
  unmarshalZones "[]" = inr [] /\
  unmarshalZones "null" = inr [] /\
  unmarshalZones "" = inl JSON.SyntaxError /\
  unmarshalZones (quoted "[{'id':7}]") = inl JSON.UnmarshalTypeError.
Proof. vm_compute. repeat split. Qed.

Example formatAPIErrors_samples :
  err_msg (fst (formatAPIErrors [] 403 (start Sample.bare)))
    = "Cloudflare API request failed (HTTP 403)" /\
  err_msg (fst (formatAPIErrors
                  [{| Code := 1061; Message := "already exists" |};
                   {| Code := 7003; Message := "no route" |}] 400 (start Sample.bare)))
    = "1061: already exists; 7003: no route".
Proof. vm_compute. repeat split. Qed.

End Samples.

(** ** Running the monad *)

Ltac run :=
  cbv [mbind M_bind mret M_ret fmap M_fmap bindOk fail unmarshal
       getCachedAPIToken getCachedAccountID setCachedAPIToken setCachedAccountID
       getWorld Getenv emit newError commandOutput Print];
  cbn [fst snd cachedAPIToken cachedAccountID world nextError trace
       environ runCommand apiCall membershipsCall].

(** ** The functions, one equation each *)

Section Equations.

Lemma tokenFromWrangler_eq (st : State) :
  tokenFromWrangler st =
  let st1 := logged wranglerTokenCommand st in
  match runCommand (world st) "wrangler" ["auth"; "token"; "--json"] with
  | CmdFailed msg => (Err (errorAt st msg), allocated st1)
  | CmdOutput out =>
      match unmarshalToken out with
      | inl e => (Err (errorAt st (jsonErrorText e)), allocated st1)
      | inr token =>
          if nonEmpty (TrimSpace token) then (Ok token, st1)
          else (Err (errorAt st "wrangler token output did not include token field"),
                allocated st1)
      end
  end.
Proof.
  destruct st. unfold tokenFromWrangler. run.
  destruct runCommand; run; [|reflexivity].
  destruct unmarshalToken; run; [reflexivity|].
  destruct nonEmpty; reflexivity.
Qed.

Lemma resolveAPIToken_eq (st : State) :
  resolveAPIToken st =
  if nonEmpty (cachedAPIToken st) then (Ok (cachedAPIToken st), st)
  else
    let primary := TrimSpace (lookupenv (world st) "CF_API_TOKEN") in
    let st1 := logged (EvGetenv "CF_API_TOKEN") st in
    if nonEmpty primary then (Ok primary, tokenCached primary st1)
    else
      let alias := TrimSpace (lookupenv (world st) "CLOUDFLARE_API_TOKEN") in
      let st2 := logged (EvGetenv "CLOUDFLARE_API_TOKEN") st1 in
      if nonEmpty alias then (Ok alias, tokenCached alias st2)
      else
        match tokenFromWrangler st2 with
        | (Ok token, st3) =>
            if nonEmpty token then (Ok token, tokenCached token st3)
            else (Err (errorAt st3 missingTokenMessage), allocated st3)
        | (Err _, st3) => (Err (errorAt st3 missingTokenMessage), allocated st3)
        end.
Proof.
  destruct st. unfold resolveAPIToken. run.
  destruct nonEmpty; [reflexivity|]. run.
  destruct nonEmpty; [reflexivity|]. run.
  destruct nonEmpty; [reflexivity|]. run.
  unfold logged. run.
  destruct tokenFromWrangler as [[token|e] st3]; [|reflexivity].
  destruct nonEmpty; reflexivity.
Qed.

Lemma explain_eq (err : GoError) (st : State) :
  explainZoneCreatePermissionError err st =
  if negb (Contains (err_msg err) permissionSignature) then (Some err, st)
  else
    let primary := TrimSpace (lookupenv (world st) "CF_API_TOKEN") in
    let st1 := logged (EvGetenv "CF_API_TOKEN") st in
    if nonEmpty primary then (Some (errorAt st (envModeMessage err)), allocated st1)
    else
      let alias := TrimSpace (lookupenv (world st) "CLOUDFLARE_API_TOKEN") in
      let st2 := logged (EvGetenv "CLOUDFLARE_API_TOKEN") st1 in
      if nonEmpty alias then (Some (errorAt st (envModeMessage err)), allocated st2)
      else
        let st3 := logged (EvExec "wrangler" ["whoami"]) st2 in
        match runCommand (world st) "wrangler" ["whoami"] with
        | CmdOutput out =>
            (Some (errorAt st (toolModeMessage err out)), allocated st3)
        | CmdFailed _ =>
            (Some (errorAt (allocated st) (toolModeMessage err "")),
             allocated (allocated st3))
        end.
Proof.
  destruct st. unfold explainZoneCreatePermissionError, wranglerWhoami. run.
  destruct negb; [reflexivity|]. run.
  destruct nonEmpty; [reflexivity|]. run.
  destruct nonEmpty; [reflexivity|]. run.
  destruct runCommand; reflexivity.
Qed.

Lemma inferAccountIDFromMemberships_eq (token : string) (st : State) :
  inferAccountIDFromMemberships token st =
  let st1 := logged (EvHTTP (membershipsRequest token)) st in
  match membershipsCall (world st) (membershipsRequest token) with
  | TransportError msg => (Err (errorAt st msg), allocated st1)
  | DecodeError msg => (Err (errorAt st msg), allocated st1)
  | Response status payload =>
      if (400 <=? status)%Z || negb (payload_Success payload) then
        let '(e, st2) := formatAPIErrors (payload_Errors payload) status st1 in
        (Err e, st2)
      else
        match payload_Result payload with
        | [] => (Err (errorAt st noMembershipsMessage), allocated st1)
        | [item] => (Ok (account_ID (Account item)), st1)
        | items => (Err (errorAt st (multipleAccountsMessage items)), allocated st1)
        end
  end.
Proof.
  destruct st. unfold inferAccountIDFromMemberships. cbv zeta. run.
  destruct membershipsCall as [msg|msg|status payload]; run; try reflexivity.
  destruct orb; run.
  - destruct formatAPIErrors. reflexivity.
  - destruct payload_Result as [|item [|item' rest]]; reflexivity.
Qed.

Lemma resolveAccountID_eq (st : State) :
  resolveAccountID st =
  if nonEmpty (cachedAccountID st) then (Ok (cachedAccountID st), st)
  else
    let primary := TrimSpace (lookupenv (world st) "CF_ACCOUNT_ID") in
    let st1 := logged (EvGetenv "CF_ACCOUNT_ID") st in
    if nonEmpty primary then (Ok primary, accountCached primary st1)
    else
      let alias := TrimSpace (lookupenv (world st) "CLOUDFLARE_ACCOUNT_ID") in
      let st2 := logged (EvGetenv "CLOUDFLARE_ACCOUNT_ID") st1 in
      if nonEmpty alias then (Ok alias, accountCached alias st2)
      else
        match resolveAPIToken st2 with
        | (Err e, st3) => (Err e, st3)
        | (Ok token, st3) =>
            match inferAccountIDFromMemberships token st3 with
            | (Err e, st4) => (Err e, st4)
            | (Ok accountID, st4) => (Ok accountID, accountCached accountID st4)
            end
        end.
Proof.
  destruct st. unfold resolveAccountID. run.
  destruct nonEmpty; [reflexivity|]. run.
  destruct nonEmpty; [reflexivity|]. run.
  destruct nonEmpty; [reflexivity|]. run.
  unfold logged. run.
  destruct resolveAPIToken as [[token|e] st3]; [|reflexivity].
  destruct inferAccountIDFromMemberships as [[accountID|e] st4]; reflexivity.
Qed.

Lemma requestCF_eq (method path : string) (body : option JSON.value) (st : State) :
  requestCF method path body st =
  match resolveAPIToken st with
  | (Err e, st1) => (Err e, st1)
  | (Ok token, st1) =>
      let req := apiRequest method path token body in
      let st2 := logged (EvHTTP req) st1 in
      match apiCall (world st1) req with
      | TransportError msg => (Err (errorAt st1 msg), allocated st2)
      | DecodeError msg => (Err (errorAt st1 msg), allocated st2)
      | Response status out =>
          if (400 <=? status)%Z || negb (Success out) then
            let '(e, st3) := formatAPIErrors (Errors out) status st2 in (Err e, st3)
          else (Ok out, st2)
      end
  end.
Proof.
  unfold requestCF. run.
  destruct resolveAPIToken as [[token|e] st1]; [|reflexivity].
  destruct st1. cbv zeta. run.
  destruct apiCall as [msg|msg|status out]; run; try reflexivity.
  destruct orb; run; [|reflexivity].
  destruct formatAPIErrors. reflexivity.
Qed.

Lemma getZoneByName_eq (name : string) (st : State) :
  getZoneByName name st =
  match resolveAccountID st with
  | (Err e, st1) => (Err e, st1)
  | (Ok accountID, st1) =>
      match requestCF "GET" (zoneLookupPath accountID name) None st1 with
      | (Err e, st2) => (Err e, st2)
      | (Ok resp, st2) =>
          match unmarshalZones (Result resp) with
          | inl e => (Err (errorAt st2 (jsonErrorText e)), allocated st2)
          | inr [] => (Ok None, st2)
          | inr (z :: _) => (Ok (Some z), st2)
          end
      end
  end.
Proof.
  unfold getZoneByName. run.
  destruct resolveAccountID as [[accountID|e] st1]; [|reflexivity].
  destruct requestCF as [[resp|e] st2]; [|reflexivity].
  destruct unmarshalZones as [e|[|z zones]]; reflexivity.
Qed.

Lemma addZone_eq (domain : string) (st : State) :
  addZone domain st =
  match resolveAccountID st with
  | (Err e, st1) => (Err e, st1)
  | (Ok accountID, st1) =>
      match requestCF "POST" "/zones" (Some (zoneCreateBody accountID domain)) st1 with
      | (Ok resp, st2) =>
          match unmarshalZone (Result resp) with
          | inl e => (Err (errorAt st2 (jsonErrorText e)), allocated st2)
          | inr z => (Ok (Some z), logged (EvPrint (zoneLine "Zone created: " z)) st2)
          end
      | (Err err, st2) =>
          if Contains (err_msg err) "1061" then
            match getZoneByName domain st2 with
            | (Err existingErr, st3) => (Err existingErr, st3)
            | (Ok (Some z), st3) =>
                (Ok (Some z), logged (EvPrint (zoneLine "Zone already exists: " z)) st3)
            | (Ok None, st3) => (Err err, st3)
            end
          else (Err err, st2)
      end
  end.
Proof.
  unfold addZone. run.
  destruct resolveAccountID as [[accountID|e] st1]; [|reflexivity].
  destruct requestCF as [[resp|err] st2].
  - destruct unmarshalZone as [e|z]; reflexivity.
  - destruct Contains; [|reflexivity].
    destruct getZoneByName as [[[z|]|e] st3]; reflexivity.
Qed.

End Equations.

(** Projections of updated states. *)
Ltac proj :=
  cbv [logged allocated tokenCached accountCached errorAt setWorld setCaches
       emit newError setCachedAPIToken setCachedAccountID] in *;
  cbn [fst snd trace world nextError cachedAPIToken cachedAccountID
       err_msg err_id] in *.

(** ** The order of the token sources *)

(** C2. With nothing cached, [resolveAPIToken] reads the primary variable,
    then the alias, then asks the tool, in this order and no further than
    the first source with a value; when the tool fails, prints no JSON or
    prints no token, the result is the one missing-token error, whatever
    the failure was. *)
Theorem resolveAPIToken_source_order (st : State) :
  cachedAPIToken st = "" ->
  let primary := TrimSpace (lookupenv (world st) "CF_API_TOKEN") in
  let alias := TrimSpace (lookupenv (world st) "CLOUDFLARE_API_TOKEN") in
  let '(r, st') := resolveAPIToken st in
  (primary <> "" ->
     r = Ok primary /\ trace st' = trace st ++ [EvGetenv "CF_API_TOKEN"]) /\
  (primary = "" -> alias <> "" ->
     r = Ok alias /\
     trace st' = trace st ++ [EvGetenv "CF_API_TOKEN"; EvGetenv "CLOUDFLARE_API_TOKEN"]) /\
  (primary = "" -> alias = "" ->
     trace st' = trace st ++ [EvGetenv "CF_API_TOKEN"; EvGetenv "CLOUDFLARE_API_TOKEN";
                              wranglerTokenCommand] /\
     match runCommand (world st) "wrangler" ["auth"; "token"; "--json"] with
     | CmdFailed _ => missing r
     | CmdOutput out =>
         match unmarshalToken out with
         | inl _ => missing r
         | inr token => if nonEmpty (TrimSpace token) then r = Ok token else missing r
         end
     end).
Proof.
  intros Hc primary alias.
  rewrite resolveAPIToken_eq, Hc. change (nonEmpty "") with false. cbv iota.
  fold primary alias. cbv zeta.
  destruct (nonEmpty primary) eqn:Hp.
  { apply nonEmpty_true in Hp. proj.
    repeat split; intros; try contradiction; split; reflexivity. }
  apply nonEmpty_false in Hp.
  destruct (nonEmpty alias) eqn:Ha.
  { apply nonEmpty_true in Ha. proj. rewrite <- app_assoc.
    repeat split; intros; try contradiction; split; reflexivity. }
  apply nonEmpty_false in Ha.
  rewrite tokenFromWrangler_eq. proj.
  assert (Hmiss : forall n, missing (Err {| err_id := n; err_msg := missingTokenMessage |})).
  { intros n. eexists. split; reflexivity. }
  destruct (runCommand (world st) "wrangler" ["auth"; "token"; "--json"]) as [out|msg];
    [destruct (unmarshalToken out) as [e|token];
     [|destruct (nonEmpty (TrimSpace token)) eqn:Ht;
       [assert (nonEmpty token = true) as ->
          by (apply nonEmpty_true; intros ->; discriminate Ht)|]]|].
  all: proj; rewrite <- !app_assoc.
  all: split; [intros; contradiction|split; [intros; contradiction|intros _ _]].
  all: split; [reflexivity|first [reflexivity|apply Hmiss]].
Qed.

Lemma resolveAPIToken_source_order_witness :
  fst (resolveAPIToken (start (Sample.withTool Sample.loggedInTool Sample.bare)))
  = Ok "tok-123".
Proof.
  pose proof (resolveAPIToken_source_order
                (start (Sample.withTool Sample.loggedInTool Sample.bare)) eq_refl) as H.
  cbv zeta in H.
  destruct (resolveAPIToken (start (Sample.withTool Sample.loggedInTool Sample.bare)))
    as [r st'].
  destruct H as (_ & _ & H). specialize (H eq_refl eq_refl) as [_ H].
  exact H.
Defined.

(** ** The token printed by the tool *)

(** C7. With nothing cached and no token variable with a value, a tool that
    prints the JSON object [{"token":"tok-123"}] makes [resolveAPIToken]
    return [tok-123] and no error (and keep it in the package variable). *)
Theorem resolveAPIToken_wrangler_tok123 (st : State) :
  cachedAPIToken st = "" ->
  TrimSpace (lookupenv (world st) "CF_API_TOKEN") = "" ->
  TrimSpace (lookupenv (world st) "CLOUDFLARE_API_TOKEN") = "" ->
  runCommand (world st) "wrangler" ["auth"; "token"; "--json"]
    = CmdOutput (quoted "{'token':'tok-123'}") ->
  fst (resolveAPIToken st) = Ok "tok-123" /\
  cachedAPIToken (snd (resolveAPIToken st)) = "tok-123".
Proof.
  intros Hc Hp Ha Hrun.
  rewrite resolveAPIToken_eq, Hc, Hp, Ha. change (nonEmpty "") with false.
  cbv iota zeta. rewrite tokenFromWrangler_eq. proj. rewrite Hrun.
  replace (unmarshalToken (quoted "{'token':'tok-123'}")) with (@inr JSON.error _ "tok-123")
    by (vm_compute; reflexivity).
  replace (nonEmpty (TrimSpace "tok-123")) with true by (vm_compute; reflexivity).
  split; reflexivity.
Qed.

Lemma resolveAPIToken_wrangler_tok123_witness :
  fst (resolveAPIToken (start (Sample.withTool Sample.loggedInTool Sample.bare)))
    = Ok "tok-123" /\
  cachedAPIToken
    (snd (resolveAPIToken (start (Sample.withTool Sample.loggedInTool Sample.bare))))
    = "tok-123".
Proof.
  apply resolveAPIToken_wrangler_tok123; reflexivity.
Defined.

(** ** What a computation leaves alone *)

Section Frame.

Context (P : State -> Prop).
Hypothesis P_emit : forall ev, preserves P (emit ev).
Hypothesis P_newError : forall msg, preserves P (newError msg).

Lemma preserves_ret {A : Type} (a : A) : preserves P (mret a).
Proof. intros st H. exact H. Qed.

Lemma preserves_bind {A B : Type} (m : M A) (k : A -> M B) :
  preserves P m -> (forall a, preserves P (k a)) -> preserves P (m ≫= k).
Proof.
  intros Hm Hk st H. specialize (Hm st H).
  unfold mbind, M_bind. destruct (m st) as [a st']. exact (Hk a st' Hm).
Qed.

Lemma preserves_fmap {A B : Type} (f : A -> B) (m : M A) :
  preserves P m -> preserves P (f <$> m).
Proof.
  intros Hm st H. specialize (Hm st H).
  unfold fmap, M_fmap. destruct (m st) as [a st']. exact Hm.
Qed.

Lemma preserves_bindOk {A B : Type} (m : M (result A)) (k : A -> M (result B)) :
  preserves P m -> (forall a, preserves P (k a)) -> preserves P (bindOk m k).
Proof.
  intros Hm Hk. apply preserves_bind; [exact Hm|].
  intros [a|e]; [apply Hk|apply preserves_ret].
Qed.

Lemma preserves_getWorld : preserves P getWorld.
Proof. intros st H. exact H. Qed.

Lemma preserves_getCachedAPIToken : preserves P getCachedAPIToken.
Proof. intros st H. exact H. Qed.

Lemma preserves_getCachedAccountID : preserves P getCachedAccountID.
Proof. intros st H. exact H. Qed.

Ltac frame :=
  cbv zeta;
  repeat first
    [ simple apply preserves_ret
    | simple apply preserves_getWorld
    | simple apply preserves_getCachedAPIToken
    | simple apply preserves_getCachedAccountID
    | simple apply preserves_fmap
    | simple apply preserves_bind; [|intros ?]
    | simple apply preserves_bindOk; [|intros ?]
    | match goal with
      | |- preserves _ (if ?c then _ else _) => destruct c
      | |- preserves _ (match ?x with _ => _ end) => destruct x
      | H : _ |- preserves _ _ => simple apply H
      end ].

Lemma preserves_Getenv (key : string) : preserves P (Getenv key).
Proof. unfold Getenv. frame. Qed.

Lemma preserves_fail {A : Type} (msg : string) : preserves P (@fail A msg).
Proof. unfold fail. frame. Qed.

Lemma preserves_commandOutput (name : string) (args : list string) :
  preserves P (commandOutput name args).
Proof. unfold commandOutput, fail. frame. Qed.

Lemma preserves_unmarshal {A : Type} (decoded : JSON.error + A) :
  preserves P (unmarshal decoded).
Proof. unfold unmarshal, fail. frame. Qed.

Lemma preserves_tokenFromWrangler : preserves P tokenFromWrangler.
Proof.
  unfold tokenFromWrangler.
  apply preserves_bindOk; [apply preserves_commandOutput|intros out].
  apply preserves_bindOk; [apply preserves_unmarshal|intros token].
  destruct nonEmpty; [apply preserves_ret|apply preserves_fail].
Qed.

Lemma preserves_formatAPIErrors (errs : list apiError) (status : Z) :
  preserves P (formatAPIErrors errs status).
Proof. unfold formatAPIErrors. destruct errs; apply P_newError. Qed.

Lemma preserves_inferAccountIDFromMemberships (token : string) :
  preserves P (inferAccountIDFromMemberships token).
Proof.
  pose proof preserves_formatAPIErrors. pose proof @preserves_fail.
  unfold inferAccountIDFromMemberships. frame.
Qed.

Lemma preserves_explain (err : GoError) :
  preserves P (explainZoneCreatePermissionError err).
Proof.
  pose proof preserves_Getenv. pose proof preserves_commandOutput.
  unfold explainZoneCreatePermissionError, wranglerWhoami. frame.
Qed.

Lemma preserves_resolveAPIToken_writing :
  (forall v, preserves P (setCachedAPIToken v)) -> preserves P resolveAPIToken.
Proof.
  intros Hset. pose proof preserves_Getenv. pose proof preserves_tokenFromWrangler.
  pose proof @preserves_fail.
  unfold resolveAPIToken. frame.
Qed.

(** The functions that go through the resolvers keep what the resolvers and
    the account variable keep. *)
Hypothesis P_resolveAPIToken : preserves P resolveAPIToken.
Hypothesis P_setCachedAccountID : forall v, preserves P (setCachedAccountID v).

Lemma preserves_resolveAccountID : preserves P resolveAccountID.
Proof.
  pose proof preserves_Getenv. pose proof preserves_inferAccountIDFromMemberships.
  unfold resolveAccountID. frame.
Qed.

Lemma preserves_requestCF (method path : string) (body : option JSON.value) :
  preserves P (requestCF method path body).
Proof.
  pose proof preserves_formatAPIErrors. pose proof @preserves_fail.
  unfold requestCF. frame.
Qed.

Lemma preserves_getZoneByName (name : string) : preserves P (getZoneByName name).
Proof.
  pose proof preserves_resolveAccountID. pose proof preserves_requestCF.
  pose proof @preserves_unmarshal.
  unfold getZoneByName. frame.
Qed.

Lemma preserves_addZone (domain : string) : preserves P (addZone domain).
Proof.
  pose proof preserves_resolveAccountID. pose proof preserves_requestCF.
  pose proof @preserves_unmarshal. pose proof preserves_getZoneByName.
  unfold addZone, Print. frame.
Qed.

End Frame.

(** ** Memoization of the token *)

Section Memoization.

Lemma resolveAPIToken_cached (st : State) :
  nonEmpty (cachedAPIToken st) = true ->
  resolveAPIToken st = (Ok (cachedAPIToken st), st).
Proof. intros H. now rewrite resolveAPIToken_eq, H. Qed.

(** A successful resolution leaves its value, a non-empty one, in the
    package variable. *)
Lemma resolveAPIToken_caches (st st1 : State) (v : string) :
  resolveAPIToken st = (Ok v, st1) ->
  cachedAPIToken st1 = v /\ nonEmpty v = true.
Proof.
  rewrite resolveAPIToken_eq.
  destruct (nonEmpty (cachedAPIToken st)) eqn:Hc.
  { intros [= <- <-]. auto. }
  cbv zeta.
  destruct (nonEmpty (TrimSpace (lookupenv (world st) "CF_API_TOKEN"))) eqn:Hp.
  { intros [= <- <-]. auto. }
  destruct (nonEmpty (TrimSpace (lookupenv (world st) "CLOUDFLARE_API_TOKEN"))) eqn:Ha.
  { intros [= <- <-]. auto. }
  destruct tokenFromWrangler as [[token|e] st3]; [|discriminate].
  destruct (nonEmpty token) eqn:Ht; [|discriminate].
  intros [= <- <-]. auto.
Qed.

Variable v : string.
Hypothesis v_nonEmpty : nonEmpty v = true.

Lemma tokenHeld_perform (st : State) (a : Action) :
  tokenHeld v st -> tokenHeld v (perform st a).
Proof.
  assert (He : forall ev, preserves (tokenHeld v) (emit ev)) by (intros ev s H; exact H).
  assert (Hn : forall msg, preserves (tokenHeld v) (newError msg)) by (intros msg s H; exact H).
  assert (Ha : forall x, preserves (tokenHeld v) (setCachedAccountID x)) by (intros x s H; exact H).
  assert (Hr : preserves (tokenHeld v) resolveAPIToken).
  { intros s H. rewrite resolveAPIToken_cached; [exact H|].
    unfold tokenHeld in H. now rewrite H. }
  destruct a; cbn [perform].
  - intros H. exact H.
  - apply Hr.
  - now apply preserves_resolveAccountID.
  - now apply preserves_requestCF.
  - now apply preserves_getZoneByName.
  - now apply preserves_addZone.
  - now apply preserves_explain.
Qed.

Lemma tokenHeld_performAll (actions : list Action) (st : State) :
  tokenHeld v st -> tokenHeld v (performAll actions st).
Proof.
  unfold performAll. revert st.
  induction actions as [|a actions IH]; intros st H; [exact H|].
  cbn [fold_left]. apply IH, tokenHeld_perform, H.
Qed.

End Memoization.

(** C4. Once [resolveAPIToken] has succeeded in a run, every later call
    returns the same value and touches nothing, neither the environment nor
    the tool, whatever happened in between: the surroundings may have
    changed (a token variable set to another value, say) and the process
    may have called any of its functions. *)
Theorem resolveAPIToken_memoized (st st1 : State) (v : string) (actions : list Action) :
  resolveAPIToken st = (Ok v, st1) ->
  let st2 := performAll actions st1 in
  resolveAPIToken st2 = (Ok v, st2).
Proof.
  intros [Hv Hne]%resolveAPIToken_caches st2.
  assert (H : cachedAPIToken st2 = v) by (apply tokenHeld_performAll; assumption).
  rewrite resolveAPIToken_cached; rewrite H; auto.
Qed.

Lemma resolveAPIToken_memoized_witness :
  let st := start (withEnviron {["CF_API_TOKEN" := "first"]} Sample.bare) in
  let st1 := snd (resolveAPIToken st) in
  let st2 := Setenv "CF_API_TOKEN" "second" st1 in
  fst (resolveAPIToken st) = Ok "first" /\ resolveAPIToken st2 = (Ok "first", st2).
Proof.
  intros st st1 st2. split; [vm_compute; reflexivity|].
  apply (resolveAPIToken_memoized st st1 "first"
           [ChangeWorld (world (Setenv "CF_API_TOKEN" "second" st1))]).
  vm_compute; reflexivity.
Defined.

(** ** The classifier and the package variables *)

(** C8. [explainZoneCreatePermissionError] leaves both package variables as
    they are, its result does not depend on what they hold, and when the
    error is recognised it starts by reading the token variable of the
    environment. *)
Theorem explain_keeps_caches (err : GoError) (st : State) :
  cachedAPIToken (snd (explainZoneCreatePermissionError err st)) = cachedAPIToken st /\
  cachedAccountID (snd (explainZoneCreatePermissionError err st)) = cachedAccountID st /\
  (forall token accountID,
     fst (explainZoneCreatePermissionError err (setCaches token accountID st))
     = fst (explainZoneCreatePermissionError err st)) /\
  (Contains (err_msg err) permissionSignature = true ->
   exists evs, trace (snd (explainZoneCreatePermissionError err st))
               = trace st ++ EvGetenv "CF_API_TOKEN" :: evs).
Proof.
  split; [|split; [|split]].
  - apply (preserves_explain (fun s => cachedAPIToken s = cachedAPIToken st));
      try reflexivity; intros ? ? H; exact H.
  - apply (preserves_explain (fun s => cachedAccountID s = cachedAccountID st));
      try reflexivity; intros ? ? H; exact H.
  - intros token accountID. rewrite !explain_eq. proj.
    destruct negb; [reflexivity|].
    destruct nonEmpty; [reflexivity|].
    destruct nonEmpty; [reflexivity|].
    destruct runCommand; reflexivity.
  - intros Hsig. rewrite explain_eq, Hsig. cbn [negb]. proj.
    destruct nonEmpty; [exists []; reflexivity|].
    destruct nonEmpty; [eexists; rewrite <- app_assoc; reflexivity|].
    destruct runCommand; eexists; rewrite <- !app_assoc; reflexivity.
Qed.

Lemma explain_keeps_caches_witness :
  exists evs,
    trace (snd (explainZoneCreatePermissionError Sample.permissionDenied
                  (setCaches "cached-token" "cached-account" (start Sample.bare))))
    = [] ++ EvGetenv "CF_API_TOKEN" :: evs.
Proof.
  apply (explain_keeps_caches Sample.permissionDenied
           (setCaches "cached-token" "cached-account" (start Sample.bare))).
  vm_compute; reflexivity.
Defined.

(** ** The classifier *)

(** C1. An error whose message does not contain the permission signature
    comes back as the very value that went in (same address, same message),
    with nothing done on the way; and the result is never nil. *)
Theorem explain_unrelated_identity (err : GoError) (st : State) :
  (Contains (err_msg err) permissionSignature = false ->
   explainZoneCreatePermissionError err st = (Some err, st)) /\
  fst (explainZoneCreatePermissionError err st) <> None.
Proof.
  rewrite explain_eq. split.
  - intros ->. reflexivity.
  - destruct negb; [discriminate|]. cbv zeta.
    destruct nonEmpty; [discriminate|].
    destruct nonEmpty; [discriminate|].
    destruct runCommand; discriminate.
Qed.

Lemma explain_unrelated_identity_witness :
  explainZoneCreatePermissionError Sample.unrelated (start Sample.bare)
  = (Some Sample.unrelated, start Sample.bare).
Proof.
  apply (proj1 (explain_unrelated_identity Sample.unrelated (start Sample.bare))).
  vm_compute; reflexivity.
Defined.

(** C5. A recognised error, with a value in the primary or in the alias
    token variable: the new error announces the environment mode and tells
    to use a token that may create zones, and no subprocess is run. *)
Theorem explain_environment_mode (err : GoError) (st : State) :
  Contains (err_msg err) permissionSignature = true ->
  TrimSpace (lookupenv (world st) "CF_API_TOKEN") <> "" \/
  TrimSpace (lookupenv (world st) "CLOUDFLARE_API_TOKEN") <> "" ->
  exists e,
    fst (explainZoneCreatePermissionError err st) = Some e /\
    Contains (err_msg e) envModeMarker = true /\
    Contains (err_msg e) envRemediation = true /\
    forall name args, ~ In (EvExec name args) (added (explainZoneCreatePermissionError err) st).
Proof.
  intros Hsig Hset. unfold added. rewrite explain_eq, Hsig. cbn [negb]. cbv zeta.
  assert (Hmsg : Contains (envModeMessage err) envModeMarker = true /\
                 Contains (envModeMessage err) envRemediation = true).
  { unfold envModeMessage. split.
    - apply Contains_right, Contains_right, Contains_prefix.
    - do 4 apply Contains_right. apply Contains_refl. }
  destruct Hmsg as [Hmode Hfix].
  destruct (nonEmpty (TrimSpace (lookupenv (world st) "CF_API_TOKEN"))) eqn:Hp.
  { eexists. repeat split; [exact Hmode|exact Hfix|]. proj.
    rewrite drop_app_length. intros name args [[=]|[]]. }
  apply nonEmpty_false in Hp. destruct Hset as [Hset|Hset]; [contradiction|].
  apply nonEmpty_true in Hset. rewrite Hset.
  eexists. repeat split; [exact Hmode|exact Hfix|]. proj.
  rewrite <- app_assoc, drop_app_length. intros name args [[=]|[[=]|[]]].
Qed.

Lemma explain_environment_mode_witness :
  exists e,
    fst (explainZoneCreatePermissionError Sample.permissionDenied
           (start (withEnviron {["CF_API_TOKEN" := "test-token"]} Sample.bare))) = Some e /\
    Contains (err_msg e) envModeMarker = true /\
    Contains (err_msg e) envRemediation = true /\
    forall name args,
      ~ In (EvExec name args)
          (added (explainZoneCreatePermissionError Sample.permissionDenied)
             (start (withEnviron {["CF_API_TOKEN" := "test-token"]} Sample.bare))).
Proof.
  apply explain_environment_mode; [vm_compute; reflexivity|].
  left. vm_compute. discriminate.
Defined.

(** C6. A recognised error, with no value in either token variable: the new
    error announces the fallback mode and restates the original; what the
    tool's whoami prints is in the message as it is; when the tool fails
    the message is the same one without that text, whatever the failure. *)
Theorem explain_fallback_mode (err : GoError) (st : State) :
  Contains (err_msg err) permissionSignature = true ->
  TrimSpace (lookupenv (world st) "CF_API_TOKEN") = "" ->
  TrimSpace (lookupenv (world st) "CLOUDFLARE_API_TOKEN") = "" ->
  exists e,
    fst (explainZoneCreatePermissionError err st) = Some e /\
    Contains (err_msg e) toolModeMarker = true /\
    Contains (err_msg e) (err_msg err) = true /\
    match runCommand (world st) "wrangler" ["whoami"] with
    | CmdOutput out => Contains (err_msg e) out = true
    | CmdFailed _ => err_msg e = toolModeMessage err ""
    end.
Proof.
  intros Hsig Hp Ha. rewrite explain_eq, Hsig, Hp, Ha. cbn [negb].
  change (nonEmpty "") with false. cbv iota zeta.
  assert (Hmsg : forall identity,
             Contains (toolModeMessage err identity) toolModeMarker = true /\
             Contains (toolModeMessage err identity) (err_msg err) = true /\
             Contains (toolModeMessage err identity) identity = true).
  { intros identity. unfold toolModeMessage, summary. repeat split.
    - apply Contains_right, Contains_right, Contains_prefix.
    - apply Contains_left, Contains_suffix.
    - do 6 apply Contains_right. apply Contains_refl. }
  destruct (runCommand (world st) "wrangler" ["whoami"]) as [out|msg].
  - exists (errorAt st (toolModeMessage err out)). proj.
    destruct (Hmsg out) as (H1 & H2 & H3). auto.
  - exists (errorAt (allocated st) (toolModeMessage err "")). proj.
    destruct (Hmsg "") as (H1 & H2 & H3). auto.
Qed.

Lemma explain_fallback_mode_witness :
  exists e,
    fst (explainZoneCreatePermissionError Sample.permissionDenied
           (start (Sample.withTool Sample.loggedInTool Sample.bare))) = Some e /\
    Contains (err_msg e) toolModeMarker = true /\
    Contains (err_msg e) (err_msg Sample.permissionDenied) = true /\
    Contains (err_msg e) "You are logged in with account example-account" = true.
Proof.
  apply (explain_fallback_mode Sample.permissionDenied
           (start (Sample.withTool Sample.loggedInTool Sample.bare)));
    vm_compute; reflexivity.
Defined.

(** ** The account inferred from the memberships *)

Section Traces.

(** Nothing in the surroundings is written by the resolvers. *)
Lemma resolveAPIToken_world (st : State) :
  world (snd (resolveAPIToken st)) = world st.
Proof.
  apply (preserves_resolveAPIToken_writing (fun s => world s = world st));
    try reflexivity; intros ? ? H; exact H.
Qed.

(** The trace is written, never read. *)
Lemma tokenFromWrangler_agree (s1 s2 : State) :
  agree s1 s2 ->
  fst (tokenFromWrangler s1) = fst (tokenFromWrangler s2) /\
  agree (snd (tokenFromWrangler s1)) (snd (tokenFromWrangler s2)).
Proof.
  intros (Ht & Ha & Hw & Hn). rewrite !tokenFromWrangler_eq, Hw. cbv zeta.
  destruct runCommand as [out|msg]; [destruct unmarshalToken as [e|token];
                                      [|destruct nonEmpty]|].
  all: unfold agree; proj; rewrite ?Hn; auto.
Qed.

Lemma resolveAPIToken_agree (s1 s2 : State) :
  agree s1 s2 ->
  fst (resolveAPIToken s1) = fst (resolveAPIToken s2) /\
  agree (snd (resolveAPIToken s1)) (snd (resolveAPIToken s2)).
Proof.
  intros H. pose proof H as (Ht & Ha & Hw & Hn).
  rewrite !resolveAPIToken_eq, Ht, Hw. cbv zeta.
  destruct nonEmpty; [auto|].
  destruct nonEmpty; [unfold agree; proj; auto|].
  destruct nonEmpty; [unfold agree; proj; auto|].
  match goal with
  | |- context [tokenFromWrangler ?a] =>
      match goal with
      | |- context [tokenFromWrangler ?b] =>
          lazymatch a with b => fail | _ => idtac end;
          destruct (tokenFromWrangler_agree a b) as [Hr Hs];
          [unfold agree; proj; auto|];
          destruct (tokenFromWrangler a) as [r1 t1], (tokenFromWrangler b) as [r2 t2]
      end
  end.
  cbn [fst snd] in Hr, Hs. subst r2. destruct Hs as (Ht' & Ha' & Hw' & Hn').
  destruct r1 as [token|e]; [destruct nonEmpty|].
  all: unfold agree; proj; rewrite ?Hn'; auto.
Qed.

End Traces.

(** C3. With no account cached, no value in either account variable, a token
    that resolves and a memberships response that is a success: one account
    listed gives its id; none gives the no-memberships error; two or more
    give an error whose message contains the name and the id of every one
    of them. *)
Theorem resolveAccountID_from_memberships
    (st : State) (token : string) (status : Z) (payload : membershipsPayload) :
  cachedAccountID st = "" ->
  TrimSpace (lookupenv (world st) "CF_ACCOUNT_ID") = "" ->
  TrimSpace (lookupenv (world st) "CLOUDFLARE_ACCOUNT_ID") = "" ->
  fst (resolveAPIToken st) = Ok token ->
  membershipsCall (world st) (membershipsRequest token) = Response status payload ->
  (status < 400)%Z ->
  payload_Success payload = true ->
  let r := fst (resolveAccountID st) in
  match payload_Result payload with
  | [] => exists e, r = Err e /\ err_msg e = noMembershipsMessage
  | [item] => r = Ok (account_ID (Account item))
  | items =>
      exists e, r = Err e /\
        forall item, In item items ->
          Contains (err_msg e) (account_Name (Account item)) = true /\
          Contains (err_msg e) (account_ID (Account item)) = true
  end.
Proof.
  intros Hc Hp Ha Htok Hcall Hstatus Hsucc r. subst r.
  rewrite resolveAccountID_eq, Hc, Hp, Ha. change (nonEmpty "") with false.
  cbv iota zeta.
  set (st2 := logged _ (logged _ st)).
  destruct (resolveAPIToken_agree st2 st) as [Hr Hs]; [unfold agree; auto|].
  rewrite Htok in Hr. destruct Hs as (_ & _ & Hw & _).
  rewrite (resolveAPIToken_world st) in Hw.
  destruct (resolveAPIToken st2) as [r st3]. cbn [fst snd] in Hr, Hw. subst r.
  rewrite inferAccountIDFromMemberships_eq, Hw.
  rewrite Hcall, Hsucc.
  replace (400 <=? status)%Z with false by (symmetry; apply Z.leb_gt; exact Hstatus).
  cbn [orb negb]. cbv zeta.
  destruct (payload_Result payload) as [|item [|item' rest]]; cbn [fst].
  - eexists. split; reflexivity.
  - reflexivity.
  - eexists. split; [reflexivity|]. intros item0 Hin. cbn [errorAt err_msg].
    assert (Hchoice : Contains (multipleAccountsMessage (item :: item' :: rest))
                        (choice item0) = true).
    { unfold multipleAccountsMessage. apply Contains_right, Join_contains.
      apply in_map, Hin. }
    split; (eapply Contains_trans; [exact Hchoice|]); unfold choice.
    + apply Contains_prefix.
    + apply Contains_right, Contains_right, Contains_prefix.
Qed.

Lemma resolveAccountID_from_memberships_witness :
  exists e,
    fst (resolveAccountID (start (Sample.memberships Sample.twoAccounts))) = Err e /\
    forall item, In item Sample.twoAccounts ->
      Contains (err_msg e) (account_Name (Account item)) = true /\
      Contains (err_msg e) (account_ID (Account item)) = true.
Proof.
  apply (resolveAccountID_from_memberships
           (start (Sample.memberships Sample.twoAccounts)) "tok" 200
           {| payload_Success := true; payload_Errors := [];
              payload_Result := Sample.twoAccounts |});
    vm_compute; reflexivity.
Defined.

(** ** Adding a zone that exists already *)

(** C9, as the code has it.  When the account resolves and the creation
    request fails with [err]: if the text of [err] contains 1061, the zone
    is looked up by name, and a zone found is returned with no error, a
    failing lookup gives the error of the lookup, and a lookup that finds
    nothing gives [err]; if the text does not contain 1061 the result is
    [err]. *)
Theorem addZone_after_failed_creation
    (domain accountID : string) (st st1 st2 : State) (err : GoError) :
  resolveAccountID st = (Ok accountID, st1) ->
  requestCF "POST" "/zones" (Some (zoneCreateBody accountID domain)) st1 = (Err err, st2) ->
  fst (addZone domain st) =
    if Contains (err_msg err) "1061" then
      match fst (getZoneByName domain st2) with
      | Ok (Some z) => Ok (Some z)
      | Ok None => Err err
      | Err lookupErr => Err lookupErr
      end
    else Err err.
Proof.
  intros Hacc Hreq. rewrite addZone_eq, Hacc, Hreq.
  destruct Contains; [|reflexivity].
  destruct getZoneByName as [[[z|]|e] st3]; reflexivity.
Qed.

Lemma addZone_after_failed_creation_witness :
  fst (addZone "example.com" (start (Sample.zoneExists Sample.found)))
  = Ok (Some {| ID := "z1"; Name := "example.com"; Status := "active" |}).
Proof.
  rewrite (addZone_after_failed_creation "example.com" "acct"
             (start (Sample.zoneExists Sample.found)) _ _
             {| err_id := 0; err_msg := "1061: example.com already exists" |}
             eq_refl eq_refl).
  vm_compute. reflexivity.
Defined.

(** C9 as stated fails.  The creation fails with error 1061 and the lookup
    cannot reach the server: [addZone] returns the error of the lookup,
    which is neither of the two outcomes the claim allows, an existing zone
    with no error or the error of the creation. *)
Lemma addZone_lookup_unreachable :
  let st := start (Sample.zoneExists Sample.unreachable) in
  let created :=
    requestCF "POST" "/zones" (Some (zoneCreateBody "acct" "example.com"))
      (snd (resolveAccountID st)) in
  exists err,
    fst created = Err err /\
    Contains (err_msg err) "1061" = true /\
    fst (addZone "example.com" st)
      = Err {| err_id := 1; err_msg := "read tcp: connection reset by peer" |} /\
    ~ ((exists z, fst (addZone "example.com" st) = Ok (Some z)) \/
       fst (addZone "example.com" st) = Err err).
Proof.
  exists {| err_id := 0; err_msg := "1061: example.com already exists" |}.
  assert (H : fst (addZone "example.com" (start (Sample.zoneExists Sample.unreachable)))
              = Err {| err_id := 1; err_msg := "read tcp: connection reset by peer" |})
    by (vm_compute; reflexivity).
  split; [vm_compute; reflexivity|].
  split; [vm_compute; reflexivity|].
  split; [exact H|].
  cbv zeta. rewrite H. intros [[z Hz]|Hz]; discriminate.
Qed.

(** ** Blank values in the environment *)

Section BlankValues.

Lemma trimLeftSpace_rune (r s : string) :
  In r spaceRunes -> trimLeftSpace (r +:+ s) = trimLeftSpace s.
Proof.
  unfold spaceRunes. cbn [map string_of_list_ascii In].
  intros H. repeat (destruct H as [<-|H]; [reflexivity|]). destruct H.
Qed.

Lemma trimLeftSpace_blank (s : string) : Blank s -> trimLeftSpace s = "".
Proof.
  induction 1 as [|r s Hr Hs IH]; [reflexivity|].
  now rewrite trimLeftSpace_rune.
Qed.

(** [TrimSpace] empties a blank string. *)
Lemma TrimSpace_blank (s : string) : Blank s -> TrimSpace s = "".
Proof. intros H. unfold TrimSpace. now rewrite trimLeftSpace_blank. Qed.

Lemma lookupenv_delete (w : World) (key k : string) :
  lookupenv (withEnviron (delete key (environ w)) w) k
  = if decide (key = k) then "" else lookupenv w k.
Proof.
  unfold lookupenv. cbn [environ withEnviron].
  rewrite lookup_delete. destruct (decide (key = k)); reflexivity.
Qed.

(** Unsetting a variable with a blank value gives similar surroundings. *)
Lemma similar_unset (w : World) (key : string) :
  Blank (lookupenv w key) ->
  similar w (withEnviron (delete key (environ w)) w).
Proof.
  intros Hb. repeat split. intros k. rewrite lookupenv_delete.
  destruct (decide (key = k)) as [<-|]; [|reflexivity].
  rewrite (TrimSpace_blank _ Hb). reflexivity.
Qed.

Variable w' : World.

Lemma tokenFromWrangler_similar (st : State) :
  similar (world st) w' ->
  tokenFromWrangler (setWorld w' st)
  = (fst (tokenFromWrangler st), setWorld w' (snd (tokenFromWrangler st))).
Proof.
  intros (Hrun & _). rewrite !tokenFromWrangler_eq. cbv zeta.
  change (world (setWorld w' st)) with w'. rewrite Hrun.
  destruct runCommand as [out|msg]; [destruct unmarshalToken as [e|token];
                                      [|destruct nonEmpty]|];
    reflexivity.
Qed.

Lemma resolveAPIToken_similar (st : State) :
  similar (world st) w' ->
  resolveAPIToken (setWorld w' st)
  = (fst (resolveAPIToken st), setWorld w' (snd (resolveAPIToken st))).
Proof.
  intros Hsim. pose proof Hsim as (_ & _ & _ & Henv).
  rewrite !resolveAPIToken_eq. cbv zeta.
  change (world (setWorld w' st)) with w'.
  change (cachedAPIToken (setWorld w' st)) with (cachedAPIToken st).
  rewrite !Henv.
  destruct nonEmpty; [reflexivity|].
  destruct nonEmpty; [reflexivity|].
  destruct nonEmpty; [reflexivity|].
  change (logged (EvGetenv "CLOUDFLARE_API_TOKEN")
            (logged (EvGetenv "CF_API_TOKEN") (setWorld w' st)))
    with (setWorld w' (logged (EvGetenv "CLOUDFLARE_API_TOKEN")
                         (logged (EvGetenv "CF_API_TOKEN") st))).
  rewrite tokenFromWrangler_similar by exact Hsim.
  destruct tokenFromWrangler as [[token|e] st3]; cbn [fst snd];
    [destruct nonEmpty|]; reflexivity.
Qed.

Lemma inferAccountIDFromMemberships_similar (token : string) (st : State) :
  similar (world st) w' ->
  inferAccountIDFromMemberships token (setWorld w' st)
  = (fst (inferAccountIDFromMemberships token st),
     setWorld w' (snd (inferAccountIDFromMemberships token st))).
Proof.
  intros (_ & _ & Hcall & _). rewrite !inferAccountIDFromMemberships_eq. cbv zeta.
  change (world (setWorld w' st)) with w'. rewrite Hcall.
  destruct membershipsCall as [msg|msg|status payload]; try reflexivity.
  destruct orb.
  - unfold formatAPIErrors. destruct payload_Errors; reflexivity.
  - destruct payload_Result as [|item [|item' rest]]; reflexivity.
Qed.

Lemma resolveAccountID_similar (st : State) :
  similar (world st) w' ->
  resolveAccountID (setWorld w' st)
  = (fst (resolveAccountID st), setWorld w' (snd (resolveAccountID st))).
Proof.
  intros Hsim. pose proof Hsim as (_ & _ & _ & Henv).
  rewrite !resolveAccountID_eq. cbv zeta.
  change (world (setWorld w' st)) with w'.
  change (cachedAccountID (setWorld w' st)) with (cachedAccountID st).
  rewrite !Henv.
  destruct nonEmpty; [reflexivity|].
  destruct nonEmpty; [reflexivity|].
  destruct nonEmpty; [reflexivity|].
  set (st2 := logged (EvGetenv "CLOUDFLARE_ACCOUNT_ID")
                (logged (EvGetenv "CF_ACCOUNT_ID") st)).
  change (logged (EvGetenv "CLOUDFLARE_ACCOUNT_ID")
            (logged (EvGetenv "CF_ACCOUNT_ID") (setWorld w' st)))
    with (setWorld w' st2).
  rewrite resolveAPIToken_similar by exact Hsim.
  pose proof (resolveAPIToken_world st2) as Hw.
  destruct (resolveAPIToken st2) as [[token|e] st3]; cbn [fst snd] in *;
    [|reflexivity].
  rewrite inferAccountIDFromMemberships_similar by (rewrite Hw; exact Hsim).
  destruct inferAccountIDFromMemberships as [[accountID|e] st4]; reflexivity.
Qed.

End BlankValues.

(** C10. A variable of the environment whose value is empty or white space
    only counts as unset for both resolvers: with the variable removed they
    return the same, write the same to the package variables, and consult
    the same sources in the same order.  So a blank primary token variable
    leaves the token to the alias, and a blank primary account variable
    leaves the account to the alias. *)
Theorem blank_variable_is_unset (key : string) (st : State) :
  Blank (lookupenv (world st) key) ->
  resolveAPIToken (Unsetenv key st)
    = (fst (resolveAPIToken st), Unsetenv key (snd (resolveAPIToken st))) /\
  resolveAccountID (Unsetenv key st)
    = (fst (resolveAccountID st), Unsetenv key (snd (resolveAccountID st))) /\
  (key = "CF_API_TOKEN" -> cachedAPIToken st = "" ->
   TrimSpace (lookupenv (world st) "CLOUDFLARE_API_TOKEN") <> "" ->
   fst (resolveAPIToken st) = Ok (TrimSpace (lookupenv (world st) "CLOUDFLARE_API_TOKEN"))) /\
  (key = "CF_ACCOUNT_ID" -> cachedAccountID st = "" ->
   TrimSpace (lookupenv (world st) "CLOUDFLARE_ACCOUNT_ID") <> "" ->
   fst (resolveAccountID st) = Ok (TrimSpace (lookupenv (world st) "CLOUDFLARE_ACCOUNT_ID"))).
Proof.
  intros Hb. pose proof (similar_unset _ _ Hb) as Hsim.
  split; [|split; [|split]].
  - unfold Unsetenv. rewrite resolveAPIToken_world.
    apply resolveAPIToken_similar, Hsim.
  - unfold Unsetenv.
    rewrite (preserves_resolveAccountID (fun s => world s = world st));
      try reflexivity; try (intros ? ? H; exact H).
    + apply resolveAccountID_similar, Hsim.
    + intros s Hs. now rewrite resolveAPIToken_world.
  - intros -> Hc Ha. rewrite resolveAPIToken_eq, Hc, (TrimSpace_blank _ Hb).
    change (nonEmpty "") with false. cbv iota zeta.
    apply nonEmpty_true in Ha. now rewrite Ha.
  - intros -> Hc Ha. rewrite resolveAccountID_eq, Hc, (TrimSpace_blank _ Hb).
    change (nonEmpty "") with false. cbv iota zeta.
    apply nonEmpty_true in Ha. now rewrite Ha.
Qed.

Lemma blank_variable_is_unset_witness :
  fst (resolveAPIToken (start Sample.blankPrimary)) = Ok "alias-token" /\
  fst (resolveAPIToken (Unsetenv "CF_API_TOKEN" (start Sample.blankPrimary)))
  = Ok "alias-token".
Proof.
  assert (Hb : Blank (lookupenv (world (start Sample.blankPrimary)) "CF_API_TOKEN")).
  { change (Blank Sample.blankValue). unfold Sample.blankValue.
    repeat (apply Blank_space; [vm_compute; tauto|]). apply Blank_empty. }
  destruct (blank_variable_is_unset "CF_API_TOKEN" (start Sample.blankPrimary) Hb)
    as (Hunset & _ & Halias & _).
  assert (H : fst (resolveAPIToken (start Sample.blankPrimary)) = Ok "alias-token").
  { rewrite Halias; [vm_compute; reflexivity|reflexivity|reflexivity|].
    vm_compute. discriminate. }
  split; [exact H|]. rewrite Hunset. exact H.
Defined.

(** * The command line *)

(** ** [parseFlags] *)

Section Flags.

Lemma two_dashes (k : string) : "--" +:+ k = String "-" (String "-" k).
Proof. reflexivity. Qed.

Lemma Index_None (s substr : string) :
  Index s substr = None <-> Contains s substr = false.
Proof.
  induction s as [|a s IH]; cbn [Index Contains].
  - destruct (HasPrefix "" substr); cbn [orb]; split; intros; congruence.
  - destruct (HasPrefix (String a s) substr); cbn [orb].
    + split; intros; congruence.
    + rewrite <- IH. destruct (Index s substr); split; intros; congruence.
Qed.

Lemma HasPrefix_empty (s : string) : HasPrefix s "" = true.
Proof. now destruct s. Qed.

Lemma HasPrefix_byte (a b : ascii) (s : string) :
  HasPrefix (String a s) (String b "") = Ascii.eqb a b.
Proof. cbn. now rewrite HasPrefix_empty, andb_true_r. Qed.

Lemma Index_after (k v : string) :
  Contains k "=" = false ->
  Index (k +:+ "=" +:+ v) "=" = Some (String.length k).
Proof.
  induction k as [|a k IH]; intros H.
  - change ("" +:+ "=" +:+ v) with (String "=" v).
    cbn [Index]. now rewrite HasPrefix_byte.
  - cbn [Contains] in H. apply orb_false_elim in H as [Ha Hk].
    rewrite HasPrefix_byte in Ha.
    rewrite append_cons. cbn [Index String.length].
    rewrite HasPrefix_byte, Ha. now rewrite IH.
Qed.

Lemma sliceTo_app (a b : string) : sliceTo (String.length a) (a +:+ b) = a.
Proof.
  induction a as [|c a IH]; [now destruct b|].
  rewrite append_cons. cbn [String.length sliceTo]. now rewrite IH.
Qed.

Lemma sliceFrom_app (a b : string) : sliceFrom (String.length a) (a +:+ b) = b.
Proof.
  induction a as [|c a IH]; [now destruct b|].
  rewrite append_cons. cbn [String.length sliceFrom]. exact IH.
Qed.

Lemma sliceFrom_after (a : string) (c : ascii) (b : string) :
  sliceFrom (S (String.length a)) (a +:+ String c b) = b.
Proof.
  induction a as [|d a IH]; [reflexivity|].
  rewrite append_cons. cbn [String.length sliceFrom]. exact IH.
Qed.

Lemma union_insert_empty (m out : gmap string string) (k v : string) :
  m ∪ <[k := v]> out = (m ∪ <[k := v]> ∅) ∪ out.
Proof.
  rewrite (insert_union_singleton_l out), (insert_union_singleton_l ∅).
  rewrite (right_id_L ∅ (∪)). now rewrite (assoc_L (∪)).
Qed.

(** Induction on the arguments the way the loop walks them: one or two at
    a time. *)
Lemma args_ind2 (P : list string -> Prop) :
  P [] -> (forall a, P [a]) ->
  (forall a b rest, P rest -> P (b :: rest) -> P (a :: b :: rest)) ->
  forall args, P args.
Proof.
  intros H0 H1 H2 args.
  assert (H : P args /\ forall a, P (a :: args)); [|exact (proj1 H)].
  induction args as [|b rest [IH1 IH2]]; [split; [exact H0|exact H1]|].
  split; [apply IH2|]. intros a. apply H2; [exact IH1|apply IH2].
Qed.

Lemma parseFlagsFrom_cons (arg : string) (rest : list string) (out : gmap string string) :
  parseFlagsFrom (arg :: rest) out =
  if negb (HasPrefix arg "--") then parseFlagsFrom rest out
  else
    match Index arg "=" with
    | Some idx =>
        parseFlagsFrom rest
          (<[TrimPrefix (sliceTo idx arg) "--" := sliceFrom (S idx) arg]> out)
    | None =>
        match rest with
        | next :: rest' =>
            if negb (HasPrefix next "--")
            then parseFlagsFrom rest' (<[TrimPrefix arg "--" := next]> out)
            else parseFlagsFrom rest (<[TrimPrefix arg "--" := "true"]> out)
        | [] => <[TrimPrefix arg "--" := "true"]> out
        end
    end.
Proof. destruct rest; reflexivity. Qed.

(** The map built so far is only ever overridden. *)
Lemma parseFlagsFrom_union (args : list string) (out : gmap string string) :
  parseFlagsFrom args out = parseFlags args ∪ out.
Proof.
  unfold parseFlags. revert out.
  induction args as [|a|a b rest IH1 IH2] using args_ind2; intros out.
  - cbn. now rewrite (left_id_L ∅ (∪)).
  - rewrite !(parseFlagsFrom_cons a). destruct (negb (HasPrefix a "--")).
    + cbn. now rewrite (left_id_L ∅ (∪)).
    + destruct (Index a "="); cbn [parseFlagsFrom];
        now rewrite <- insert_union_l, (left_id_L ∅ (∪)).
  - rewrite !(parseFlagsFrom_cons a). destruct (negb (HasPrefix a "--")); [apply IH2|].
    destruct (Index a "=") as [idx|].
    + rewrite IH2, (IH2 (<[_ := _]> ∅)). apply union_insert_empty.
    + destruct (negb (HasPrefix b "--")).
      * rewrite IH1, (IH1 (<[_ := _]> ∅)). apply union_insert_empty.
      * rewrite IH2, (IH2 (<[_ := _]> ∅)). apply union_insert_empty.
Qed.

Lemma parseFlagsFrom_app (l1 l2 : list string) (out : gmap string string) :
  flagFirst l2 = true ->
  parseFlagsFrom (l1 ++ l2) out = parseFlagsFrom l2 (parseFlagsFrom l1 out).
Proof.
  intros Hl2. revert out.
  induction l1 as [|a|a b rest IH1 IH2] using args_ind2; intros out.
  - reflexivity.
  - change ([a] ++ l2) with (a :: l2). rewrite !(parseFlagsFrom_cons a).
    destruct (negb (HasPrefix a "--")); [reflexivity|].
    destruct (Index a "="); [reflexivity|].
    destruct l2 as [|c l2]; [reflexivity|]. cbn [flagFirst] in Hl2.
    rewrite Hl2. reflexivity.
  - change ((a :: b :: rest) ++ l2) with (a :: b :: (rest ++ l2)).
    rewrite !(parseFlagsFrom_cons a).
    destruct (negb (HasPrefix a "--")); [apply IH2|].
    destruct (Index a "="); [apply IH2|].
    destruct (negb (HasPrefix b "--")); [apply IH1|apply IH2].
Qed.

Lemma dashes_prefix (x : string) : HasPrefix (String "-" (String "-" x)) "--" = true.
Proof. cbn. apply HasPrefix_empty. Qed.

Lemma parseFlagsFrom_spaced (pairs : list (string * string)) (out : gmap string string) :
  Forall (fun kv => Contains (fst kv) "=" = false /\ HasPrefix (snd kv) "--" = false) pairs ->
  parseFlagsFrom (spaced pairs) out
  = fold_left (fun m kv => <[fst kv := snd kv]> m) pairs out.
Proof.
  intros H. revert out. induction H as [|[k v] pairs [Hk Hv] _ IH]; intros out.
  - reflexivity.
  - cbn [fst snd] in Hk, Hv.
    change (spaced ((k, v) :: pairs)) with (("--" +:+ k) :: v :: spaced pairs).
    rewrite parseFlagsFrom_cons, two_dashes, dashes_prefix.
    assert (Hidx : Index (String "-" (String "-" k)) "=" = None).
    { apply Index_None. cbn [Contains]. rewrite !HasPrefix_byte. exact Hk. }
    rewrite Hidx, Hv. cbn [negb fold_left fst snd].
    change (TrimPrefix (String "-" (String "-" k)) "--") with k.
    apply IH.
Qed.

Lemma parseFlagsFrom_joined (pairs : list (string * string)) (out : gmap string string) :
  Forall (fun kv => Contains (fst kv) "=" = false) pairs ->
  parseFlagsFrom (joined pairs) out
  = fold_left (fun m kv => <[fst kv := snd kv]> m) pairs out.
Proof.
  intros H. revert out. induction H as [|[k v] pairs Hk _ IH]; intros out.
  - reflexivity.
  - cbn [fst snd] in Hk.
    change (joined ((k, v) :: pairs))
      with (("--" +:+ k +:+ "=" +:+ v) :: joined pairs).
    rewrite parseFlagsFrom_cons, two_dashes, dashes_prefix.
    assert (Hidx : Index (String "-" (String "-" (k +:+ "=" +:+ v))) "="
                   = Some (S (S (String.length k)))).
    { cbn [Index]. rewrite !HasPrefix_byte. cbn [Ascii.eqb Bool.eqb].
      now rewrite (Index_after k v Hk). }
    rewrite Hidx. cbn [negb fold_left fst snd].
    change (sliceTo (S (S (String.length k))) (String "-" (String "-" (k +:+ "=" +:+ v))))
      with (String "-" (String "-" (sliceTo (String.length k) (k +:+ "=" +:+ v)))).
    change (sliceFrom (S (S (S (String.length k))))
              (String "-" (String "-" (k +:+ "=" +:+ v))))
      with (sliceFrom (S (String.length k)) (k +:+ String "=" v)).
    rewrite sliceTo_app, sliceFrom_after.
    change (TrimPrefix (String "-" (String "-" k)) "--") with k.
    apply IH.
Qed.

End Flags.

(** X1. Flags read from a command line made of two parts, the second of
    which is empty or begins with a flag, are the flags of the second part
    over those of the first: a later flag overrides an earlier one. *)
Theorem parseFlags_app (l1 l2 : list string) :
  flagFirst l2 = true ->
  parseFlags (l1 ++ l2) = parseFlags l2 ∪ parseFlags l1.
Proof.
  intros H. unfold parseFlags at 1.
  rewrite parseFlagsFrom_app by exact H. apply parseFlagsFrom_union.
Qed.

Lemma parseFlags_app_witness :
  parseFlags (["--type"; "A"] ++ ["--type=AAAA"; "--proxied"])
  = parseFlags ["--type=AAAA"; "--proxied"] ∪ parseFlags ["--type"; "A"].
Proof. apply parseFlags_app. reflexivity. Defined.

(** X2. Flags written as [--key value], with keys free of [=] and values
    that do not begin with [--], are read back as written, a later pair
    overriding an earlier one with the same key. *)
Theorem parseFlags_spaced (pairs : list (string * string)) :
  Forall (fun kv => Contains (fst kv) "=" = false /\ HasPrefix (snd kv) "--" = false) pairs ->
  parseFlags (spaced pairs) = lastWins pairs.
Proof. apply parseFlagsFrom_spaced. Qed.

Lemma parseFlags_spaced_witness :
  parseFlags ["--zone"; "example.com"; "--ttl"; "-5"; "--zone"; "example.org"]
  = <["zone" := "example.org"]> (<["ttl" := "-5"]> (<["zone" := "example.com"]> ∅)).
Proof.
  apply (parseFlags_spaced
           [("zone", "example.com"); ("ttl", "-5"); ("zone", "example.org")]).
  repeat constructor.
Defined.

(** X3. Flags written as [--key=value], with keys free of [=], are read back
    as written whatever the value is: it may be empty, contain [=] or begin
    with [--]. *)
Theorem parseFlags_joined (pairs : list (string * string)) :
  Forall (fun kv => Contains (fst kv) "=" = false) pairs ->
  parseFlags (joined pairs) = lastWins pairs.
Proof. apply parseFlagsFrom_joined. Qed.

Lemma parseFlags_joined_witness :
  parseFlags ["--content=--a=b"; "--name="]
  = <["name" := ""]> (<["content" := "--a=b"]> ∅).
Proof.
  apply (parseFlags_joined [("content", "--a=b"); ("name", "")]).
  repeat constructor.
Defined.

(** ** Strings without white space *)

Section PlainStrings.

Lemma rev_app_rev_app (s t u : string) :
  String.rev_app (String.rev_app s t) u = String.rev_app t (s +:+ u).
Proof.
  revert t u. induction s as [|a s IH]; intros t u; [reflexivity|].
  cbn [String.rev_app]. rewrite IH. reflexivity.
Qed.

Lemma rev_involutive (s : string) : String.rev (String.rev s) = s.
Proof.
  unfold String.rev. rewrite rev_app_rev_app. cbn [String.rev_app].
  apply append_nil_r.
Qed.

Lemma allBytes_rev_app (p : ascii -> bool) (s t : string) :
  allBytes p s = true -> allBytes p t = true -> allBytes p (String.rev_app s t) = true.
Proof.
  revert t. induction s as [|a s IH]; intros t Hs Ht; [exact Ht|].
  cbn [allBytes] in Hs. apply andb_prop in Hs as [Ha Hs].
  cbn [String.rev_app]. apply IH; [exact Hs|]. cbn [allBytes]. now rewrite Ha, Ht.
Qed.

Lemma plain_bounds (a : ascii) :
  plain a = true -> (code a < 128)%N /\ asciiSpace a = false.
Proof.
  unfold plain. intros [H1 H2]%andb_prop.
  apply N.ltb_lt in H1. apply negb_true_iff in H2. auto.
Qed.

Lemma wideSpace_plain (a b c : ascii) :
  plain a = true ->
  wideSpace2 a b = false /\ wideSpace3 a b c = false /\
  wideSpace2 b a = false /\ wideSpace3 c b a = false.
Proof.
  intros [Ha _]%plain_bounds. unfold wideSpace2, wideSpace3.
  assert (He : forall n, (128 <= n)%N -> (code a =? n)%N = false)
    by (intros n Hn; apply N.eqb_neq; lia).
  assert (Hl : forall n, (128 <= n)%N -> (n <=? code a)%N = false)
    by (intros n Hn; apply N.leb_gt; lia).
  rewrite !He, !Hl by lia. cbn [andb orb].
  rewrite !andb_false_r. auto.
Qed.

Lemma trimLeftSpace_plain (a : ascii) (r : string) :
  plain a = true -> trimLeftSpace (String a r) = String a r.
Proof.
  intros H. destruct (plain_bounds a H) as [_ Hs].
  destruct r as [|b [|c r]]; cbn [trimLeftSpace]; rewrite Hs; try reflexivity.
  - now destruct (wideSpace_plain a b b H) as (-> & _).
  - now destruct (wideSpace_plain a b c H) as (-> & -> & _).
Qed.

Lemma trimLeftSpaceRev_plain (a : ascii) (r : string) :
  plain a = true -> trimLeftSpaceRev (String a r) = String a r.
Proof.
  intros H. destruct (plain_bounds a H) as [_ Hs].
  destruct r as [|b [|c r]]; cbn [trimLeftSpaceRev]; rewrite Hs; try reflexivity.
  - now destruct (wideSpace_plain a b b H) as (_ & _ & -> & _).
  - now destruct (wideSpace_plain a b c H) as (_ & _ & -> & ->).
Qed.

(** [TrimSpace] leaves a string of ASCII bytes without white space alone. *)
Lemma TrimSpace_plain (s : string) : allBytes plain s = true -> TrimSpace s = s.
Proof.
  intros H. unfold TrimSpace, trimRightSpace.
  assert (Hl : trimLeftSpace s = s).
  { destruct s as [|a r]; [reflexivity|]. cbn [allBytes] in H.
    apply andb_prop in H as [Ha _]. now apply trimLeftSpace_plain. }
  rewrite Hl.
  assert (Hr : allBytes plain (String.rev s) = true)
    by (apply allBytes_rev_app; [exact H|reflexivity]).
  destruct (String.rev s) as [|a r] eqn:E.
  - rewrite <- (rev_involutive s), E. reflexivity.
  - cbn [allBytes] in Hr. apply andb_prop in Hr as [Ha _].
    rewrite trimLeftSpaceRev_plain by exact Ha.
    rewrite <- E. apply rev_involutive.
Qed.

End PlainStrings.

(** ** [parseBoolWithDefault] *)

Section Booleans.

(** One byte against one lower-case letter of the name. *)
Lemma fold_byte (a n : ascii) :
  isLowerLetter n = true -> toLower a = n ->
  (code a <? 128)%N = true /\ Ascii.eqb (JSON.toUpper a) (JSON.toUpper n) = true /\
  plain a = true.
Proof.
  intros Hn <-. revert Hn.
  destruct a as [[] [] [] [] [] [] [] []]; vm_compute; intros; try discriminate; auto.
Qed.

Lemma EqualFold_lower (name v : string) :
  allBytes isLowerLetter name = true -> lowerASCII v = name ->
  EqualFold v name = true /\ allBytes plain v = true.
Proof.
  unfold EqualFold. revert v.
  induction name as [|n name IH]; intros [|a v] Hname Hv; try discriminate.
  - split; reflexivity.
  - cbn [lowerASCII] in Hv. injection Hv as Ha Hv.
    cbn [allBytes] in Hname. apply andb_prop in Hname as [Hn Hname].
    destruct (fold_byte a n Hn Ha) as (Hascii & Hup & Hplain).
    destruct (IH v Hname Hv) as [Hfold Hall].
    cbn [JSON.upperName JSON.foldsTo allBytes].
    now rewrite Hascii, Hup, Hfold, Hplain, Hall.
Qed.

(** What [EqualFold] accepts against a name of lower-case letters has no
    white-space byte. *)
Lemma foldsTo_noSpace (folded key : string) :
  allBytes (JSON.inRange 65 90) folded = true ->
  JSON.foldsTo folded key = true -> allBytes noSpace key = true.
Proof.
  revert key. induction folded as [|f fs IH]; intros [|a r] Hf H; try discriminate.
  - reflexivity.
  - cbn [allBytes] in Hf. apply andb_prop in Hf as [Hf Hfs].
    cbn [JSON.foldsTo] in H.
    destruct (code a <? 128)%N eqn:Hascii.
    + apply andb_prop in H as [Hup H]. apply Ascii.eqb_eq in Hup. subst f.
      cbn [allBytes]. rewrite (IH r Hfs H), andb_true_r.
      revert Hf. clear.
      destruct a as [[] [] [] [] [] [] [] []]; vm_compute; intros; try discriminate; auto.
    + assert (Hwide : forall (p : string) r',
                 JSON.dropPrefix p (String a r) = Some r' ->
                 allBytes noSpace p = true -> JSON.foldsTo fs r' = true ->
                 allBytes noSpace (String a r) = true).
      { intros p r' Hp Hns Hrest.
        assert (Hkey : String a r = p +:+ r').
        { clear - Hp. revert Hp. generalize (String a r) as s. 
          induction p as [|b p IHp]; intros s Hp.
          - injection Hp as Hp. now subst.
          - destruct s as [|c s]; [discriminate|]. cbn [JSON.dropPrefix] in Hp.
            destruct (Ascii.eqb_spec c b) as [->|]; [|discriminate].
            rewrite append_cons. f_equal. now apply IHp. }
        rewrite Hkey. clear - Hns Hrest IH Hfs.
        induction p as [|b p IHp]; [apply (IH r' Hfs Hrest)|].
        cbn [allBytes] in Hns. apply andb_prop in Hns as [Hb Hns].
        rewrite append_cons. cbn [allBytes]. now rewrite Hb, IHp. }
      destruct (JSON.isByte 75 f).
      * destruct (JSON.dropPrefix JSON.kelvinSign (String a r)) as [r'|] eqn:Hp;
          [|discriminate].
        now apply (Hwide JSON.kelvinSign r').
      * destruct (JSON.isByte 83 f); [|discriminate].
        destruct (JSON.dropPrefix JSON.longS (String a r)) as [r'|] eqn:Hp;
          [|discriminate].
        now apply (Hwide JSON.longS r').
Qed.

Lemma String_eqb_empty (a : ascii) (s : string) : String.eqb (String a s) "" = false.
Proof. reflexivity. Qed.

End Booleans.

(** X4. Any upper and lower case spelling of [true] or [yes], and [1], is
    true, whatever the default. *)
Theorem parseBoolWithDefault_spellings (v : string) (fallback : bool) :
  lowerASCII v = "true" \/ lowerASCII v = "yes" \/ v = "1" ->
  parseBoolWithDefault v fallback = true.
Proof.
  unfold parseBoolWithDefault.
  intros [H|[H| ->]]; [| |reflexivity].
  - destruct (EqualFold_lower "true" v eq_refl H) as [Hfold Hplain].
    rewrite (TrimSpace_plain v Hplain), Hfold.
    destruct v; [discriminate|reflexivity].
  - destruct (EqualFold_lower "yes" v eq_refl H) as [Hfold Hplain].
    rewrite (TrimSpace_plain v Hplain), Hfold.
    destruct v; [discriminate|]. cbn [String.eqb].
    now rewrite orb_true_r.
Qed.

Lemma parseBoolWithDefault_spellings_witness :
  parseBoolWithDefault "tRuE" false = true /\ parseBoolWithDefault "YES" false = true.
Proof.
  split; apply parseBoolWithDefault_spellings; [left|right; left]; reflexivity.
Defined.

(** X5. The value is compared as it is, not trimmed: one with a white-space
    byte anywhere, unless it is all white space, is false, whatever the
    default ([" true"] with default true is false). *)
Theorem parseBoolWithDefault_padded (v : string) (fallback : bool) :
  allBytes noSpace v = false ->
  TrimSpace v <> "" ->
  parseBoolWithDefault v fallback = false.
Proof.
  intros Hsp Hne. unfold parseBoolWithDefault.
  destruct (String.eqb_spec (TrimSpace v) ""); [contradiction|].
  assert (Hfold : forall name, allBytes (JSON.inRange 65 90) (JSON.upperName name) = true ->
                               EqualFold v name = false).
  { intros name Hname. unfold EqualFold.
    destruct (JSON.foldsTo (JSON.upperName name) v) eqn:E; [|reflexivity].
    rewrite (foldsTo_noSpace _ _ Hname E) in Hsp. discriminate. }
  rewrite !Hfold by reflexivity. cbn [orb].
  destruct (String.eqb_spec v "1") as [->|]; [discriminate|reflexivity].
Qed.

Lemma parseBoolWithDefault_padded_witness :
  parseBoolWithDefault " true" true = false.
Proof.
  apply parseBoolWithDefault_padded; [reflexivity|vm_compute; discriminate].
Defined.

(** ** [parseIntWithDefault] *)

Section Integers.

Import Decimal.

Lemma of_uint_acc_ge (d : uint) (acc : positive) :
  (N.pos acc <= N.pos (Pos.of_uint_acc d acc))%N.
Proof.
  revert acc. induction d as [|d IH|d IH|d IH|d IH|d IH|d IH|d IH|d IH|d IH|d IH];
    intros acc; cbn [Pos.of_uint_acc]; [lia|..];
    (etransitivity; [|apply IH]); lia.
Qed.

(** The loop on the digits of a decimal number, from a positive value. *)
Lemma parseUintFrom_acc (d : uint) (acc : positive) :
  (N.pos acc <= maxUint64)%N ->
  parseUintFrom (NilEmpty.string_of_uint d) (N.pos acc) =
  if (N.pos (Pos.of_uint_acc d acc) <=? maxUint64)%N
  then inr (N.pos (Pos.of_uint_acc d acc)) else inl ErrRange.
Proof.
  revert acc. induction d as [|d IH|d IH|d IH|d IH|d IH|d IH|d IH|d IH|d IH|d IH];
    intros acc Hacc; cbn [NilEmpty.string_of_uint parseUintFrom Pos.of_uint_acc].
  1: { apply N.leb_le in Hacc. now rewrite Hacc. }
  all: change (JSON.isDigit _) with true; cbv iota zeta.
  all: match goal with
       | IH' : forall acc, _ -> parseUintFrom (NilEmpty.string_of_uint ?d') _ = _
         |- context [Pos.of_uint_acc ?d' ?acc'] =>
           match goal with
           | |- context [(maxUint64 <? ?n1)%N] =>
               replace n1 with (N.pos acc')
                 by (vm_compute (code _); lia);
               pose proof (of_uint_acc_ge d' acc');
               destruct (N.ltb_spec maxUint64 (N.pos acc'));
               [destruct (N.leb_spec (N.pos (Pos.of_uint_acc d' acc')) maxUint64);
                [lia|reflexivity]
               |apply IH'; assumption]
           end
       end.
Qed.

Lemma parseUintFrom_uint (d : uint) :
  parseUintFrom (NilEmpty.string_of_uint d) 0 =
  if (Pos.of_uint d <=? maxUint64)%N then inr (Pos.of_uint d) else inl ErrRange.
Proof.
  induction d as [|d IH|d IH|d IH|d IH|d IH|d IH|d IH|d IH|d IH|d IH];
    cbn [NilEmpty.string_of_uint parseUintFrom Pos.of_uint]; [reflexivity|exact IH|..].
  all: change (JSON.isDigit _) with true; cbv iota zeta.
  all: match goal with
       | |- context [(maxUint64 <? ?n1)%N] =>
           let v := eval vm_compute in n1 in change n1 with v
       end.
  all: change (maxUint64 <? _)%N with false; cbv iota.
  all: apply parseUintFrom_acc; vm_compute; discriminate.
Qed.

Lemma string_of_uint_plain (d : uint) :
  allBytes plain (NilEmpty.string_of_uint d) = true.
Proof. induction d; cbn [NilEmpty.string_of_uint allBytes]; auto. Qed.

(** [Atoi] on the digits of a positive number, with and without the sign. *)
Lemma Atoi_digits (p : positive) :
  let digits := NilEmpty.string_of_uint (Pos.to_uint p) in
  Atoi digits = (if (N.pos p <? 9223372036854775808)%N
                 then inr (Z.pos p) else inl ErrRange) /\
  Atoi (String "-" digits) = (if (N.pos p <=? 9223372036854775808)%N
                              then inr (Z.neg p) else inl ErrRange) /\
  digits <> "".
Proof.
  intros digits.
  pose proof (parseUintFrom_uint (Pos.to_uint p)) as Hscan.
  rewrite DecimalPos.Unsigned.of_to in Hscan. fold digits in Hscan.
  assert (Hne : exists c r, digits = String c r /\ JSON.isDigit c = true).
  { subst digits. pose proof (DecimalPos.Unsigned.to_uint_nonnil p) as Hnil.
    destruct (Pos.to_uint p); [contradiction|..];
      cbn [NilEmpty.string_of_uint]; eexists _, _; split; reflexivity. }
  destruct Hne as (c & r & Hd & Hc).
  assert (Hsign : JSON.isByte 43 c = false /\ JSON.isByte 45 c = false).
  { revert Hc. clear.
    destruct c as [[] [] [] [] [] [] [] []]; vm_compute; intros; try discriminate; auto. }
  destruct Hsign as [Hplus Hminus].
  split; [|split; [|rewrite Hd; discriminate]].
  - unfold Atoi. rewrite Hd, Hplus, Hminus, <- Hd, Hscan.
    destruct (N.leb_spec (N.pos p) maxUint64) as [Hle|Hgt].
    + destruct (N.leb_spec 9223372036854775808 (N.pos p)),
               (N.ltb_spec (N.pos p) 9223372036854775808); try lia; reflexivity.
    + unfold maxUint64 in Hgt.
      destruct (N.ltb_spec (N.pos p) 9223372036854775808); [lia|reflexivity].
  - unfold Atoi. change (JSON.isByte 43 "-") with false.
    change (JSON.isByte 45 "-") with true. cbv iota.
    rewrite Hd, <- Hd, Hscan.
    destruct (N.leb_spec (N.pos p) maxUint64) as [Hle|Hgt].
    + destruct (N.ltb_spec 9223372036854775808 (N.pos p)),
               (N.leb_spec (N.pos p) 9223372036854775808); try lia; reflexivity.
    + unfold maxUint64 in Hgt.
      destruct (N.leb_spec (N.pos p) 9223372036854775808); [lia|reflexivity].
Qed.

Lemma Itoa_cases (n : Z) :
  Itoa n = match n with
           | Z0 => "0"
           | Z.pos p => NilEmpty.string_of_uint (Pos.to_uint p)
           | Z.neg p => String "-" (NilEmpty.string_of_uint (Pos.to_uint p))
           end.
Proof.
  unfold Itoa. destruct n as [|p|p]; [reflexivity|..];
    cbn [Z.to_int NilZero.string_of_int NilZero.string_of_uint];
    pose proof (DecimalPos.Unsigned.to_uint_nonnil p);
    unfold NilZero.string_of_uint; destruct (Pos.to_uint p); try contradiction; reflexivity.
Qed.

Lemma Itoa_plain (n : Z) : allBytes plain (Itoa n) = true /\ Itoa n <> "".
Proof.
  rewrite Itoa_cases. destruct n as [|p|p].
  - split; [reflexivity|discriminate].
  - split; [apply string_of_uint_plain|apply Atoi_digits].
  - split; [|discriminate]. cbn [allBytes]. now rewrite string_of_uint_plain.
Qed.

(** A byte that is no digit after the sign makes [Atoi] fail. *)
Lemma parseUintFrom_nondigit (s : string) (n : N) :
  allBytes JSON.isDigit s = false -> exists e, parseUintFrom s n = inl e.
Proof.
  revert n. induction s as [|c s IH]; intros n H; [discriminate|].
  cbn [allBytes] in H. cbn [parseUintFrom].
  destruct (JSON.isDigit c); [|eauto]. cbn [andb] in H. cbv zeta.
  destruct (maxUint64 <? _)%N; [eauto|apply IH, H].
Qed.

Lemma space_no_digit (s : string) :
  allBytes noSpace s = false -> allBytes JSON.isDigit s = false.
Proof.
  induction s as [|c s IH]; [discriminate|]. cbn [allBytes].
  destruct (noSpace c) eqn:Hc; cbn [andb].
  - intros H. rewrite (IH H). apply andb_false_r.
  - intros _. replace (JSON.isDigit c) with false; [reflexivity|].
    revert Hc. clear.
    destruct c as [[] [] [] [] [] [] [] []]; vm_compute; intros; try discriminate; auto.
Qed.

End Integers.

(** X6. A number written in decimal is read back by [parseIntWithDefault]
    when it fits 64 bits, and is a range error when it does not; the
    default plays no part. *)
Theorem parseIntWithDefault_Itoa (n fallback : Z) :
  parseIntWithDefault (Itoa n) fallback =
  if ((-9223372036854775808 <=? n) && (n <=? 9223372036854775807))%Z
  then inr n else inl ErrRange.
Proof.
  unfold parseIntWithDefault.
  destruct (Itoa_plain n) as [Hplain Hne].
  rewrite (TrimSpace_plain _ Hplain).
  destruct (String.eqb_spec (Itoa n) ""); [contradiction|].
  rewrite Itoa_cases. destruct n as [|p|p]; [reflexivity|..].
  - destruct (Atoi_digits p) as (-> & _ & _).
    destruct (N.ltb_spec (N.pos p) 9223372036854775808),
             (Z.leb_spec (Z.pos p) 9223372036854775807); try lia; reflexivity.
  - destruct (Atoi_digits p) as (_ & -> & _).
    destruct (N.leb_spec (N.pos p) 9223372036854775808),
             (Z.leb_spec (-9223372036854775808) (Z.neg p)); try lia; reflexivity.
Qed.

(** X7. The value is parsed as it is, not trimmed: one with a white-space
    byte anywhere, unless it is all white space, is an error and not the
    default. *)
Theorem parseIntWithDefault_padded (v : string) (fallback : Z) :
  allBytes noSpace v = false ->
  TrimSpace v <> "" ->
  exists e, parseIntWithDefault v fallback = inl e.
Proof.
  intros Hsp Hne. unfold parseIntWithDefault.
  destruct (String.eqb_spec (TrimSpace v) ""); [contradiction|].
  unfold Atoi. destruct v as [|c r]; [eauto|].
  assert (Hscan : forall s, allBytes noSpace s = false ->
                            exists e, parseUintFrom s 0 = inl e).
  { intros s Hs. apply parseUintFrom_nondigit, space_no_digit, Hs. }
  assert (Hrest : allBytes noSpace r = false \/ noSpace c = false).
  { cbn [allBytes] in Hsp. destruct (noSpace c); [left; exact Hsp|right; reflexivity]. }
  destruct (JSON.isByte 43 c) eqn:Hplus; [|destruct (JSON.isByte 45 c) eqn:Hminus];
    cbv beta iota zeta.
  - destruct Hrest as [Hr|Hc].
    + destruct r; [eauto|]. destruct (Hscan _ Hr) as [e ->]. eauto.
    + exfalso. revert Hplus Hc. clear.
      destruct c as [[] [] [] [] [] [] [] []]; vm_compute; intros; discriminate.
  - destruct Hrest as [Hr|Hc].
    + destruct r; [eauto|]. destruct (Hscan _ Hr) as [e ->]. eauto.
    + exfalso. revert Hminus Hc. clear.
      destruct c as [[] [] [] [] [] [] [] []]; vm_compute; intros; discriminate.
  - destruct (Hscan _ Hsp) as [e ->]. eauto.
Qed.

Lemma parseIntWithDefault_padded_witness :
  exists e, parseIntWithDefault "120 " 1 = inl e.
Proof.
  apply parseIntWithDefault_padded; [reflexivity|vm_compute; discriminate].
Defined.

(** * The commands *)

(** ** One equation each *)

Section CommandEquations.

Lemma printAll_state (lines : list string) (st : State) :
  cachedAPIToken (snd (printAll lines st)) = cachedAPIToken st /\
  cachedAccountID (snd (printAll lines st)) = cachedAccountID st /\
  world (snd (printAll lines st)) = world st /\
  nextError (snd (printAll lines st)) = nextError st /\
  trace (snd (printAll lines st)) = trace st ++ map EvPrint lines.
Proof.
  revert st. induction lines as [|line rest IH]; intros st.
  - cbn. now rewrite app_nil_r.
  - cbn [printAll]. unfold Print. run.
    destruct (IH (logged (EvPrint line) st)) as (H1 & H2 & H3 & H4 & H5).
    unfold logged, emit in H1, H2, H3, H4, H5. cbn [snd] in H1, H2, H3, H4, H5.
    rewrite H1, H2, H3, H4, H5. cbn [map cachedAPIToken cachedAccountID world nextError trace].
    rewrite <- app_assoc. repeat split.
Qed.

Lemma listZones_eq (st : State) :
  listZones st =
  match resolveAccountID st with
  | (Err e, st1) => (Err e, st1)
  | (Ok accountID, st1) =>
      match requestCF "GET" (zoneListPath accountID) None st1 with
      | (Err e, st2) => (Err e, st2)
      | (Ok resp, st2) =>
          match unmarshalZones (Result resp) with
          | inl e => (Err (errorAt st2 (jsonErrorText e)), allocated st2)
          | inr [] => (Ok tt, logged (EvPrint noZonesLine) st2)
          | inr zones => (Ok tt, snd (printAll (map zoneListLine zones) st2))
          end
      end
  end.
Proof.
  unfold listZones. run.
  destruct resolveAccountID as [[accountID|e] st1]; [|reflexivity].
  destruct requestCF as [[resp|e] st2]; [|reflexivity].
  destruct unmarshalZones as [e|[|z zones]]; try reflexivity.
  now destruct (printAll _ st2).
Qed.

Lemma listRegistrarDomains_eq (st : State) :
  listRegistrarDomains st =
  match resolveAccountID st with
  | (Err e, st1) => (Err e, st1)
  | (Ok accountID, st1) =>
      match requestCF "GET" ("/accounts/" +:+ accountID +:+ "/registrar/domains")
              None st1 with
      | (Err e, st2) => (Err e, st2)
      | (Ok resp, st2) =>
          match unmarshalRegistrarDomains (Result resp) with
          | inl e => (Err (errorAt st2 (jsonErrorText e)), allocated st2)
          | inr [] => (Ok tt, logged (EvPrint noDomainsLine) st2)
          | inr domains => (Ok tt, snd (printAll (map registrarLine domains) st2))
          end
      end
  end.
Proof.
  unfold listRegistrarDomains. run.
  destruct resolveAccountID as [[accountID|e] st1]; [|reflexivity].
  destruct requestCF as [[resp|e] st2]; [|reflexivity].
  destruct unmarshalRegistrarDomains as [e|[|d domains]]; try reflexivity.
  now destruct (printAll _ st2).
Qed.

Lemma addDNSRecord_eq (zoneName typeName name content : string) (ttl : Z)
    (proxied : bool) (st : State) :
  addDNSRecord zoneName typeName name content ttl proxied st =
  match getZoneByName zoneName st with
  | (Err e, st1) => (Err e, st1)
  | (Ok None, st1) => (Err (errorAt st1 (zoneNotFoundMessage zoneName)), allocated st1)
  | (Ok (Some z), st1) =>
      match requestCF "POST" (recordsPath z)
              (Some (recordBody typeName name content ttl proxied)) st1 with
      | (Err e, st2) => (Err e, st2)
      | (Ok resp, st2) =>
          match unmarshalDNSRecord (Result resp) with
          | inl e => (Err (errorAt st2 (jsonErrorText e)), allocated st2)
          | inr r => (Ok tt, logged (EvPrint (recordLine r)) st2)
          end
      end
  end.
Proof.
  unfold addDNSRecord. run.
  destruct getZoneByName as [[[z|]|e] st1]; try reflexivity.
  destruct requestCF as [[resp|e] st2]; [|reflexivity].
  destruct unmarshalDNSRecord as [e|r]; reflexivity.
Qed.

End CommandEquations.

(** ** Invariants of a run *)

Ltac keeps :=
  cbv zeta;
  repeat first
    [ simple apply preserves_ret
    | simple apply preserves_getWorld
    | simple apply preserves_getCachedAPIToken
    | simple apply preserves_getCachedAccountID
    | simple apply preserves_fmap
    | simple apply preserves_bind; [|intros ?]
    | simple apply preserves_bindOk; [|intros ?]
    | match goal with
      | |- preserves _ (if ?c then _ else _) => destruct c
      | |- preserves _ (match ?x with _ => _ end) => destruct x
      | H : _ |- preserves _ _ => simple apply H
      end ].

Section Quiet.

Context (P : State -> Prop).
Hypothesis P_quiet : forall ev, isHTTP ev = false -> preserves P (emit ev).
Hypothesis P_newError : forall msg, preserves P (newError msg).

Lemma quiet_Print (text : string) : preserves P (Print text).
Proof. apply P_quiet. reflexivity. Qed.

Lemma quiet_printAll (lines : list string) : preserves P (printAll lines).
Proof.
  induction lines as [|line rest IH]; cbn [printAll].
  - apply preserves_ret.
  - apply preserves_bind; [apply quiet_Print|intros _; exact IH].
Qed.

Lemma quiet_fail {A : Type} (msg : string) : preserves P (@fail A msg).
Proof. unfold fail. keeps. Qed.

Lemma quiet_unmarshal {A : Type} (decoded : JSON.error + A) :
  preserves P (unmarshal decoded).
Proof. pose proof @quiet_fail. unfold unmarshal. keeps. Qed.

Lemma quiet_Getenv (key : string) : preserves P (Getenv key).
Proof.
  unfold Getenv. apply preserves_bind; [now apply P_quiet|intros _]. keeps.
Qed.

Lemma quiet_commandOutput (name : string) (args : list string) :
  preserves P (commandOutput name args).
Proof.
  pose proof @quiet_fail. unfold commandOutput.
  apply preserves_bind; [now apply P_quiet|intros _]. keeps.
Qed.

Lemma quiet_explain (err : GoError) :
  preserves P (explainZoneCreatePermissionError err).
Proof.
  pose proof quiet_Getenv. pose proof quiet_commandOutput.
  unfold explainZoneCreatePermissionError, wranglerWhoami. keeps.
Qed.

Lemma quiet_tokenFromWrangler : preserves P tokenFromWrangler.
Proof.
  pose proof quiet_commandOutput. pose proof @quiet_unmarshal. pose proof @quiet_fail.
  unfold tokenFromWrangler. keeps.
Qed.

Lemma quiet_formatAPIErrors (errs : list apiError) (status : Z) :
  preserves P (formatAPIErrors errs status).
Proof. unfold formatAPIErrors. keeps. Qed.

Lemma quiet_resolveAPIToken_writing :
  (forall v, preserves P (setCachedAPIToken v)) -> preserves P resolveAPIToken.
Proof.
  intros Hset. pose proof quiet_Getenv. pose proof quiet_tokenFromWrangler.
  pose proof @quiet_fail.
  unfold resolveAPIToken. keeps.
Qed.

Hypothesis P_resolveAccountID : preserves P resolveAccountID.
Hypothesis P_requestCF : forall method path body, preserves P (requestCF method path body).

Lemma quiet_getZoneByName (name : string) : preserves P (getZoneByName name).
Proof. pose proof @quiet_unmarshal. unfold getZoneByName. keeps. Qed.

Lemma quiet_addZone (domain : string) : preserves P (addZone domain).
Proof.
  pose proof @quiet_unmarshal. pose proof quiet_getZoneByName. pose proof quiet_Print.
  unfold addZone. keeps.
Qed.

Lemma quiet_listZones : preserves P listZones.
Proof.
  pose proof @quiet_unmarshal. pose proof quiet_printAll. pose proof quiet_Print.
  unfold listZones. keeps.
Qed.

Lemma quiet_listRegistrarDomains : preserves P listRegistrarDomains.
Proof.
  pose proof @quiet_unmarshal. pose proof quiet_printAll. pose proof quiet_Print.
  unfold listRegistrarDomains. keeps.
Qed.

Lemma quiet_addDNSRecord (zoneName typeName name content : string) (ttl : Z)
    (proxied : bool) :
  preserves P (addDNSRecord zoneName typeName name content ttl proxied).
Proof.
  pose proof @quiet_unmarshal. pose proof quiet_getZoneByName. pose proof quiet_Print.
  pose proof @quiet_fail.
  unfold addDNSRecord. keeps.
Qed.

Hypothesis P_resolveAPIToken : preserves P resolveAPIToken.
Hypothesis P_world : forall w st, P st -> P (setWorld w st).

Lemma quiet_step (st : State) (s : Step) : P st -> P (step st s).
Proof.
  destruct s as [[]| | |]; cbn [step perform]; intros H.
  - now apply P_world.
  - now apply P_resolveAPIToken.
  - now apply P_resolveAccountID.
  - now apply P_requestCF.
  - now apply quiet_getZoneByName.
  - now apply quiet_addZone.
  - now apply quiet_explain.
  - now apply quiet_listRegistrarDomains.
  - now apply quiet_listZones.
  - now apply quiet_addDNSRecord.
Qed.

Lemma quiet_steps (l : list Step) (st : State) : P st -> P (steps l st).
Proof.
  unfold steps. revert st. induction l as [|s l IH]; intros st H; [exact H|].
  cbn [fold_left]. apply IH, quiet_step, H.
Qed.

End Quiet.


(** ** The token of the requests *)

Section Bearer.

Lemma noRequests_resolveAPIToken : preserves noRequests resolveAPIToken.
Proof.
  apply quiet_resolveAPIToken_writing.
  - intros ev Hev st H req Hin. cbn in Hin.
    apply in_app_or in Hin as [Hin|[Hin|[]]]; [exact (H req Hin)|].
    subst ev. discriminate.
  - intros msg st H. exact H.
  - intros v st H. exact H.
Qed.

Lemma bearerOnly_quiet (ev : Event) :
  isHTTP ev = false -> preserves bearerOnly (emit ev).
Proof.
  intros Hev st H req Hin. cbn in Hin.
  apply in_app_or in Hin as [Hin|[Hin|[]]]; [exact (H req Hin)|].
  subst ev. discriminate.
Qed.

Lemma bearerOnly_request (req : Request) (st : State) :
  cachedAPIToken st <> "" ->
  req_authorization req = "Bearer " +:+ cachedAPIToken st ->
  bearerOnly st -> bearerOnly (logged (EvHTTP req) st).
Proof.
  intros Hne Hreq H r Hin. cbn in Hin.
  apply in_app_or in Hin as [Hin|[Hin|[]]]; [exact (H r Hin)|].
  injection Hin as <-. split; assumption.
Qed.

Lemma bearerOnly_empty (st : State) :
  bearerOnly st -> cachedAPIToken st = "" -> noRequests st.
Proof. intros H He req Hin. now destruct (H req Hin). Qed.

Lemma noRequests_bearerOnly (st : State) : noRequests st -> bearerOnly st.
Proof. intros H req Hin. now destruct (H req). Qed.

Lemma bearerOnly_newError (msg : string) : preserves bearerOnly (newError msg).
Proof. intros st H. exact H. Qed.

Lemma bearerOnly_resolveAPIToken : preserves bearerOnly resolveAPIToken.
Proof.
  intros st H. destruct (nonEmpty (cachedAPIToken st)) eqn:Hc.
  - now rewrite resolveAPIToken_cached.
  - apply noRequests_bearerOnly, noRequests_resolveAPIToken, bearerOnly_empty; [exact H|].
    now apply nonEmpty_false.
Qed.

Lemma bearerOnly_requestCF (method path : string) (body : option JSON.value) :
  preserves bearerOnly (requestCF method path body).
Proof.
  intros st H. rewrite requestCF_eq.
  pose proof (bearerOnly_resolveAPIToken st H) as H1.
  destruct (resolveAPIToken st) as [[token|e] st1] eqn:E; [|exact H1].
  apply resolveAPIToken_caches in E as [Ht Hne]. cbn [snd] in H1.
  assert (H2 : bearerOnly (logged (EvHTTP (apiRequest method path token body)) st1)).
  { apply bearerOnly_request; [| |exact H1].
    - rewrite Ht. now apply nonEmpty_true.
    - now rewrite Ht. }
  cbv zeta. destruct apiCall as [msg|msg|status out]; try exact H2.
  destruct orb; [|exact H2].
  pose proof (quiet_formatAPIErrors bearerOnly bearerOnly_newError (Errors out) status _ H2)
    as H3.
  destruct formatAPIErrors. exact H3.
Qed.

Lemma bearerOnly_infer (token : string) (st : State) :
  cachedAPIToken st = token -> nonEmpty token = true ->
  bearerOnly st -> bearerOnly (snd (inferAccountIDFromMemberships token st)).
Proof.
  intros Ht Hne H. rewrite inferAccountIDFromMemberships_eq.
  assert (H2 : bearerOnly (logged (EvHTTP (membershipsRequest token)) st)).
  { apply bearerOnly_request; [| |exact H].
    - rewrite Ht. now apply nonEmpty_true.
    - now rewrite Ht. }
  cbv zeta. destruct membershipsCall as [msg|msg|status payload]; try exact H2.
  destruct orb.
  - pose proof (quiet_formatAPIErrors bearerOnly bearerOnly_newError
                  (payload_Errors payload) status _ H2) as H3.
    destruct formatAPIErrors. exact H3.
  - destruct payload_Result as [|item [|item' rest]]; exact H2.
Qed.

Lemma bearerOnly_resolveAccountID : preserves bearerOnly resolveAccountID.
Proof.
  intros st H. rewrite resolveAccountID_eq.
  destruct nonEmpty; [exact H|]. cbv zeta.
  assert (H1 : bearerOnly (logged (EvGetenv "CF_ACCOUNT_ID") st))
    by now apply bearerOnly_quiet.
  destruct nonEmpty; [exact H1|].
  assert (H2 : bearerOnly (logged (EvGetenv "CLOUDFLARE_ACCOUNT_ID")
                             (logged (EvGetenv "CF_ACCOUNT_ID") st)))
    by now apply bearerOnly_quiet.
  destruct nonEmpty; [exact H2|].
  pose proof (bearerOnly_resolveAPIToken _ H2) as H3.
  destruct resolveAPIToken as [[token|e] st3] eqn:E; [|exact H3].
  apply resolveAPIToken_caches in E as [Ht Hne].
  pose proof (bearerOnly_infer token st3 Ht Hne H3) as H4.
  destruct inferAccountIDFromMemberships as [[accountID|e] st4]; exact H4.
Qed.

Lemma bearerOnly_steps (l : list Step) (st : State) :
  bearerOnly st -> bearerOnly (steps l st).
Proof.
  apply quiet_steps.
  - exact bearerOnly_quiet.
  - exact bearerOnly_newError.
  - exact bearerOnly_resolveAccountID.
  - exact bearerOnly_requestCF.
  - exact bearerOnly_resolveAPIToken.
  - intros w s H. exact H.
Qed.

End Bearer.

(** X8. Whatever a run does, in whatever order, and however its
    surroundings change in between, every request it has sent carries as
    [Authorization] header the word Bearer and the token held in the package
    variable, which is not empty: no request goes out without a token, and
    the requests of one run all carry the same token. *)
Theorem requests_carry_cached_token (w : World) (l : list Step) (req : Request) :
  let st := steps l (start w) in
  In (EvHTTP req) (trace st) ->
  cachedAPIToken st <> "" /\
  req_authorization req = "Bearer " +:+ cachedAPIToken st.
Proof.
  intros st Hin. apply (bearerOnly_steps l (start w)); [|exact Hin].
  intros r [].
Qed.

Lemma requests_carry_cached_token_witness :
  let l := [RunListZones; Acts (ChangeWorld (Sample.zoneExists Sample.found));
            RunAddDNSRecord "example.com" "A" "www" "1.2.3.4" 1 false] in
  let req := apiRequest "POST" "/zones/z1/dns_records" "tok"
               (Some (recordBody "A" "www" "1.2.3.4" 1 false)) in
  In (EvHTTP req) (trace (steps l (start Scenario.oneZone))) /\
  cachedAPIToken (steps l (start Scenario.oneZone)) <> "" /\
  req_authorization req = "Bearer " +:+ cachedAPIToken (steps l (start Scenario.oneZone)).
Proof.
  intros l req.
  assert (Hin : In (EvHTTP req) (trace (steps l (start Scenario.oneZone)))).
  { vm_compute. do 5 right. left. reflexivity. }
  split; [exact Hin|].
  exact (requests_carry_cached_token Scenario.oneZone l req Hin).
Defined.


(** ** Memoization of the account *)

Section AccountMemoization.

Lemma resolveAccountID_cached (st : State) :
  nonEmpty (cachedAccountID st) = true ->
  resolveAccountID st = (Ok (cachedAccountID st), st).
Proof. intros H. now rewrite resolveAccountID_eq, H. Qed.

(** A successful resolution leaves its value in the package variable. *)
Lemma resolveAccountID_caches (st st1 : State) (v : string) :
  resolveAccountID st = (Ok v, st1) -> cachedAccountID st1 = v.
Proof.
  rewrite resolveAccountID_eq.
  destruct (nonEmpty (cachedAccountID st)); [now intros [= <- <-]|].
  cbv zeta.
  destruct (nonEmpty (TrimSpace (lookupenv (world st) "CF_ACCOUNT_ID")));
    [now intros [= <- <-]|].
  destruct (nonEmpty (TrimSpace (lookupenv (world st) "CLOUDFLARE_ACCOUNT_ID")));
    [now intros [= <- <-]|].
  destruct resolveAPIToken as [[token|e] st3]; [|discriminate].
  destruct inferAccountIDFromMemberships as [[accountID|e] st4]; [|discriminate].
  now intros [= <- <-].
Qed.

Variable v : string.
Hypothesis v_nonEmpty : nonEmpty v = true.

Lemma accountHeld_steps (l : list Step) (st : State) :
  accountHeld v st -> accountHeld v (steps l st).
Proof.
  assert (He : forall ev, preserves (accountHeld v) (emit ev)) by (intros ev s H; exact H).
  assert (Hn : forall msg, preserves (accountHeld v) (newError msg))
    by (intros msg s H; exact H).
  assert (Ht : preserves (accountHeld v) resolveAPIToken).
  { apply preserves_resolveAPIToken_writing; [exact He|exact Hn|].
    intros x s H. exact H. }
  apply quiet_steps.
  - intros ev _. apply He.
  - exact Hn.
  - intros s H. rewrite resolveAccountID_cached; [exact H|].
    unfold accountHeld in H. now rewrite H.
  - intros method path body. now apply preserves_requestCF.
  - exact Ht.
  - intros w s H. exact H.
Qed.

End AccountMemoization.

(** X9. Once [resolveAccountID] has returned an account identifier that is
    not empty, every later call in the run returns the same identifier and
    touches nothing, whatever commands ran in between and however the
    surroundings changed (the account variables set to other values,
    say). *)
Theorem resolveAccountID_memoized (st st1 : State) (v : string) (l : list Step) :
  resolveAccountID st = (Ok v, st1) -> v <> "" ->
  let st2 := steps l st1 in
  resolveAccountID st2 = (Ok v, st2).
Proof.
  intros Hr Hv st2. apply resolveAccountID_caches in Hr.
  apply nonEmpty_true in Hv.
  pose proof (accountHeld_steps v Hv l st1 Hr) as H. fold st2 in H.
  unfold accountHeld in H. rewrite <- H.
  apply resolveAccountID_cached. now rewrite H.
Qed.

Lemma resolveAccountID_memoized_witness :
  let st := start (Sample.memberships [Sample.member "Personal" "0a1b"]) in
  let st1 := snd (resolveAccountID st) in
  let l := [Acts (ChangeWorld (Sample.zoneExists Sample.found)); RunListZones] in
  fst (resolveAccountID st) = Ok "0a1b" /\
  resolveAccountID (steps l st1) = (Ok "0a1b", steps l st1).
Proof.
  intros st st1 l. split; [vm_compute; reflexivity|].
  apply (resolveAccountID_memoized st st1 "0a1b" l).
  - vm_compute; reflexivity.
  - discriminate.
Defined.


(** ** What a command adds to the trace *)

Section Emits.

Context (Q : Event -> Prop).

Lemma emits_still {A : Type} (m : M A) :
  (forall st, trace (snd (m st)) = trace st) -> emits Q m.
Proof. intros H st. exists []. rewrite H, app_nil_r. auto. Qed.

Lemma emits_ret {A : Type} (a : A) : emits Q (mret a).
Proof. now apply emits_still. Qed.

Lemma emits_getWorld : emits Q getWorld.
Proof. now apply emits_still. Qed.

Lemma emits_getCachedAPIToken : emits Q getCachedAPIToken.
Proof. now apply emits_still. Qed.

Lemma emits_getCachedAccountID : emits Q getCachedAccountID.
Proof. now apply emits_still. Qed.

Lemma emits_setCachedAPIToken (v : string) : emits Q (setCachedAPIToken v).
Proof. now apply emits_still. Qed.

Lemma emits_setCachedAccountID (v : string) : emits Q (setCachedAccountID v).
Proof. now apply emits_still. Qed.

Lemma emits_newError (msg : string) : emits Q (newError msg).
Proof. now apply emits_still. Qed.

Lemma emits_emit (ev : Event) : Q ev -> emits Q (emit ev).
Proof. intros H st. exists [ev]. split; [reflexivity|]. now constructor. Qed.

Lemma emits_bind {A B : Type} (m : M A) (k : A -> M B) :
  emits Q m -> (forall a, emits Q (k a)) -> emits Q (m ≫= k).
Proof.
  intros Hm Hk st. destruct (Hm st) as (evs1 & H1 & F1).
  unfold mbind, M_bind. destruct (m st) as [a st']. cbn [snd] in H1.
  destruct (Hk a st') as (evs2 & H2 & F2).
  exists (evs1 ++ evs2). split.
  - now rewrite H2, H1, app_assoc.
  - now apply Forall_app.
Qed.

Lemma emits_fmap {A B : Type} (f : A -> B) (m : M A) : emits Q m -> emits Q (f <$> m).
Proof.
  intros Hm st. destruct (Hm st) as (evs & H & F).
  unfold fmap, M_fmap. destruct (m st) as [a st']. now exists evs.
Qed.

Lemma emits_bindOk {A B : Type} (m : M (result A)) (k : A -> M (result B)) :
  emits Q m -> (forall a, emits Q (k a)) -> emits Q (bindOk m k).
Proof.
  intros Hm Hk. apply emits_bind; [exact Hm|].
  intros [a|e]; [apply Hk|apply emits_ret].
Qed.

Ltac emitting :=
  cbv zeta;
  repeat first
    [ simple apply emits_ret
    | simple apply emits_getWorld
    | simple apply emits_getCachedAPIToken
    | simple apply emits_getCachedAccountID
    | simple apply emits_setCachedAPIToken
    | simple apply emits_setCachedAccountID
    | simple apply emits_newError
    | simple apply emits_fmap
    | simple apply emits_bind; [|intros ?]
    | simple apply emits_bindOk; [|intros ?]
    | match goal with
      | |- emits _ (if ?c then _ else _) => destruct c
      | |- emits _ (match ?x with _ => _ end) => destruct x
      | H : _ |- emits _ _ => simple apply H
      end ].

Lemma emits_fail {A : Type} (msg : string) : emits Q (@fail A msg).
Proof. unfold fail. emitting. Qed.

Lemma emits_unmarshal {A : Type} (decoded : JSON.error + A) : emits Q (unmarshal decoded).
Proof. pose proof @emits_fail. unfold unmarshal. emitting. Qed.

Lemma emits_formatAPIErrors (errs : list apiError) (status : Z) :
  emits Q (formatAPIErrors errs status).
Proof. unfold formatAPIErrors. emitting. Qed.

(** The events of the resolvers and of the lookups. *)
Lemma emits_Getenv (key : string) : Q (EvGetenv key) -> emits Q (Getenv key).
Proof.
  intros H. unfold Getenv. apply emits_bind; [now apply emits_emit|intros _]. emitting.
Qed.

Lemma emits_commandOutput (name : string) (args : list string) :
  Q (EvExec name args) -> emits Q (commandOutput name args).
Proof.
  intros H. pose proof @emits_fail. unfold commandOutput.
  apply emits_bind; [now apply emits_emit|intros _]. emitting.
Qed.

Hypothesis Q_wrangler : Q wranglerTokenCommand.
Hypothesis Q_tokenVar : Q (EvGetenv "CF_API_TOKEN").
Hypothesis Q_tokenAlias : Q (EvGetenv "CLOUDFLARE_API_TOKEN").

Lemma emits_tokenFromWrangler : emits Q tokenFromWrangler.
Proof.
  pose proof (emits_commandOutput _ _ Q_wrangler).
  pose proof @emits_unmarshal. pose proof @emits_fail.
  unfold tokenFromWrangler. emitting.
Qed.

Lemma emits_resolveAPIToken : emits Q resolveAPIToken.
Proof.
  pose proof (emits_Getenv _ Q_tokenVar). pose proof (emits_Getenv _ Q_tokenAlias).
  pose proof emits_tokenFromWrangler. pose proof @emits_fail.
  unfold resolveAPIToken. emitting.
Qed.

Lemma emits_requestCF (method path : string) (body : option JSON.value) :
  (forall token, Q (EvHTTP (apiRequest method path token body))) ->
  emits Q (requestCF method path body).
Proof.
  intros Hreq. pose proof emits_formatAPIErrors. pose proof @emits_fail.
  unfold requestCF. apply emits_bindOk; [apply emits_resolveAPIToken|intros token].
  cbv zeta. apply emits_bind; [apply emits_emit, Hreq|intros _]. emitting.
Qed.

Hypothesis Q_memberships : forall token, Q (EvHTTP (membershipsRequest token)).
Hypothesis Q_accountVar : Q (EvGetenv "CF_ACCOUNT_ID").
Hypothesis Q_accountAlias : Q (EvGetenv "CLOUDFLARE_ACCOUNT_ID").

Lemma emits_inferAccountIDFromMemberships (token : string) :
  emits Q (inferAccountIDFromMemberships token).
Proof.
  pose proof emits_formatAPIErrors. pose proof @emits_fail.
  unfold inferAccountIDFromMemberships. cbv zeta.
  apply emits_bind; [apply emits_emit, Q_memberships|intros _]. emitting.
Qed.

Lemma emits_resolveAccountID : emits Q resolveAccountID.
Proof.
  pose proof (emits_Getenv _ Q_accountVar). pose proof (emits_Getenv _ Q_accountAlias).
  pose proof emits_resolveAPIToken. pose proof emits_inferAccountIDFromMemberships.
  unfold resolveAccountID. emitting.
Qed.

Hypothesis Q_get : forall path token, Q (EvHTTP (apiRequest "GET" path token None)).

Lemma emits_getZoneByName (name : string) : emits Q (getZoneByName name).
Proof.
  pose proof emits_resolveAccountID. pose proof @emits_unmarshal.
  unfold getZoneByName.
  apply emits_bindOk; [assumption|intros accountID].
  apply emits_bindOk; [now apply emits_requestCF; intros token; apply Q_get|intros resp].
  emitting.
Qed.

Hypothesis Q_print : forall text, Q (EvPrint text).

Lemma emits_Print (text : string) : emits Q (Print text).
Proof. apply emits_emit, Q_print. Qed.

Lemma emits_printAll (lines : list string) : emits Q (printAll lines).
Proof.
  induction lines as [|line rest IH]; cbn [printAll].
  - apply emits_ret.
  - apply emits_bind; [apply emits_Print|intros _; exact IH].
Qed.

Lemma emits_listZones : emits Q listZones.
Proof.
  pose proof emits_resolveAccountID. pose proof @emits_unmarshal.
  pose proof emits_printAll.
  unfold listZones.
  apply emits_bindOk; [assumption|intros accountID].
  apply emits_bindOk; [now apply emits_requestCF; intros token; apply Q_get|intros resp].
  apply emits_bindOk; [apply emits_unmarshal|intros zones].
  destruct zones.
  - apply emits_bind; [apply emits_Print|intros _; apply emits_ret].
  - emitting.
Qed.

Lemma emits_listRegistrarDomains : emits Q listRegistrarDomains.
Proof.
  pose proof emits_resolveAccountID. pose proof @emits_unmarshal.
  pose proof emits_printAll.
  unfold listRegistrarDomains.
  apply emits_bindOk; [assumption|intros accountID].
  apply emits_bindOk; [now apply emits_requestCF; intros token; apply Q_get|intros resp].
  apply emits_bindOk; [apply emits_unmarshal|intros domains].
  destruct domains.
  - apply emits_bind; [apply emits_Print|intros _; apply emits_ret].
  - emitting.
Qed.

(** The events of the commands that write. *)
Hypothesis Q_post :
  forall path token body, Q (EvHTTP (apiRequest "POST" path token (Some body))).

Lemma emits_addZone (domain : string) : emits Q (addZone domain).
Proof.
  pose proof emits_resolveAccountID. pose proof @emits_unmarshal.
  pose proof emits_getZoneByName. pose proof emits_Print.
  unfold addZone.
  apply emits_bindOk; [assumption|intros accountID].
  apply emits_bind; [now apply emits_requestCF; intros token; apply Q_post|intros r].
  emitting.
Qed.

Lemma emits_addDNSRecord (zoneName typeName name content : string) (ttl : Z)
    (proxied : bool) :
  emits Q (addDNSRecord zoneName typeName name content ttl proxied).
Proof.
  pose proof @emits_unmarshal. pose proof emits_Print. pose proof @emits_fail.
  unfold addDNSRecord.
  apply emits_bindOk; [apply emits_getZoneByName|intros [z|]]; [|apply emits_fail].
  apply emits_bindOk; [now apply emits_requestCF; intros token; apply Q_post|intros resp].
  emitting.
Qed.

(** The events of the wizard and of the dispatcher. *)
Context (lib : Library) (h : Host).

Lemma emits_bindRead {A B : Type} (m : M (result A * Reader))
    (k : A * Reader -> M (result B)) :
  emits Q m -> (forall p, emits Q (k p)) -> emits Q (bindRead m k).
Proof.
  intros Hm Hk. apply emits_bind; [exact Hm|].
  intros [[a|e] reader]; [apply Hk|apply emits_ret].
Qed.

Ltac asking :=
  repeat first
    [ simple apply emits_bindRead; [|intros [? ?]]
    | progress emitting ].

Lemma emits_prompt (reader : Reader) (question fallback : string) :
  emits Q (prompt reader question fallback).
Proof. pose proof emits_Print. unfold prompt. emitting. Qed.

Lemma emits_promptYesNo (reader : Reader) (question : string) (fallback : bool) :
  emits Q (promptYesNo reader question fallback).
Proof. pose proof emits_prompt. unfold promptYesNo. emitting. Qed.

Lemma emits_wrapAtoiError (context num : string) (e : NumError) :
  emits Q (wrapAtoiError lib context num e).
Proof. unfold wrapAtoiError. emitting. Qed.

Lemma emits_openURL (rawURL : string) :
  (forall name args, In (name, args) (openers rawURL) -> Q (EvExec name args)) ->
  emits Q (openURL h rawURL).
Proof.
  intros Hopen. pose proof @emits_fail. unfold openURL.
  assert (Hin : In (if String.eqb (GOOS h) "darwin" then ("open", [rawURL])
                    else if String.eqb (GOOS h) "windows"
                         then ("cmd", ["/c"; "start"; rawURL])
                         else ("xdg-open", [rawURL]))
                   (openers rawURL)).
  { unfold openers. destruct (String.eqb (GOOS h) "darwin"); [now left|].
    destruct (String.eqb (GOOS h) "windows"); [right; now left|right; right; now left]. }
  destruct (if String.eqb (GOOS h) "darwin" then _ else _) as [name args].
  apply emits_bind; [apply emits_emit, Hopen, Hin|intros _]. emitting.
Qed.

Hypothesis Q_open :
  forall name args, In (name, args) (openers dashboardURL) -> Q (EvExec name args).

Lemma emits_recordLoop (fuel : nat) (reader : Reader) (domain : string) :
  emits Q (recordLoop lib fuel reader domain).
Proof.
  pose proof emits_prompt. pose proof emits_promptYesNo. pose proof emits_wrapAtoiError.
  pose proof emits_addDNSRecord.
  revert reader. induction fuel as [|fuel IH]; intros reader; cbn [recordLoop].
  - apply emits_ret.
  - asking.
Qed.

Lemma emits_runWizard (fuel : nat) : emits Q (runWizard lib h fuel).
Proof.
  pose proof emits_prompt. pose proof emits_promptYesNo.
  pose proof (emits_openURL dashboardURL Q_open).
  pose proof emits_recordLoop. pose proof emits_Print. pose proof @emits_fail.
  pose proof emits_addZone.
  unfold runWizard. asking.
Qed.

Lemma emits_run (fuel : nat) (args : list string) : emits Q (run lib h fuel args).
Proof.
  pose proof emits_runWizard. pose proof emits_wrapAtoiError.
  pose proof emits_Print. pose proof @emits_fail.
  pose proof emits_addZone. pose proof emits_addDNSRecord.
  pose proof emits_listZones. pose proof emits_listRegistrarDomains.
  unfold run, printHelp. emitting.
Qed.

End Emits.

Section Added.

Lemma added_trace {A : Type} (m : M A) (st : State) (evs : list Event) :
  trace (snd (m st)) = trace st ++ evs -> added m st = evs.
Proof. intros H. unfold added. rewrite H. apply drop_app_length. Qed.

Lemma emits_added {A : Type} (Q : Event -> Prop) (m : M A) (st : State) :
  emits Q m -> Forall Q (added m st).
Proof. intros H. destruct (H st) as (evs & Ht & F). now rewrite (added_trace _ _ _ Ht). Qed.

Lemma readOnly_getenv (key : string) : readOnly (EvGetenv key).
Proof. intros req [=]. Qed.

Lemma readOnly_exec (name : string) (args : list string) : readOnly (EvExec name args).
Proof. intros req [=]. Qed.

Lemma readOnly_get (req : Request) : req_method req = "GET" -> readOnly (EvHTTP req).
Proof. intros H r [= <-]. exact H. Qed.

Lemma readOnly_print (text : string) : readOnly (EvPrint text).
Proof. intros req [=]. Qed.

Lemma silent_http (req : Request) : silent (EvHTTP req).
Proof. reflexivity. Qed.

End Added.

Ltac reading_only :=
  intros;
  first [ apply readOnly_getenv | apply readOnly_exec | apply readOnly_print
        | apply readOnly_get; reflexivity ].

(** X10. The commands that list and the lookups only read: every request
    that [listZones], [listRegistrarDomains], [getZoneByName] and
    [resolveAccountID] send, the request for the memberships of the token
    included, is a [GET]. *)
Theorem listing_only_reads (st : State) (req : Request) :
  In (EvHTTP req) (added listZones st) \/
  In (EvHTTP req) (added listRegistrarDomains st) \/
  (exists name, In (EvHTTP req) (added (getZoneByName name) st)) \/
  In (EvHTTP req) (added resolveAccountID st) ->
  req_method req = "GET".
Proof.
  assert (H : forall (A : Type) (m : M A),
             emits readOnly m -> In (EvHTTP req) (added m st) -> req_method req = "GET").
  { intros A m Hm Hin. pose proof (emits_added readOnly m st Hm) as F.
    rewrite List.Forall_forall in F. exact (F _ Hin req eq_refl). }
  intros [Hin|[Hin|[[name Hin]|Hin]]]; revert Hin; apply H.
  - apply emits_listZones; reading_only.
  - apply emits_listRegistrarDomains; reading_only.
  - apply emits_getZoneByName; reading_only.
  - apply emits_resolveAccountID; reading_only.
Qed.

Lemma listing_only_reads_witness :
  let req := apiRequest "GET" (zoneListPath "acct") "tok" None in
  In (EvHTTP req) (added listZones (start Scenario.oneZone)) /\ req_method req = "GET".
Proof.
  intros req.
  assert (Hin : In (EvHTTP req) (added listZones (start Scenario.oneZone))).
  { vm_compute. do 2 right. left. reflexivity. }
  split; [exact Hin|].
  apply (listing_only_reads (start Scenario.oneZone) req). left. exact Hin.
Defined.


(** ** What the commands print *)

Section Reports.

Lemma silent_resolveAccountID : emits silent resolveAccountID.
Proof. apply emits_resolveAccountID; intros; reflexivity. Qed.

Lemma silent_requestCF (method path : string) (body : option JSON.value) :
  emits silent (requestCF method path body).
Proof. apply emits_requestCF; intros; reflexivity. Qed.

Lemma silent_getZoneByName (name : string) : emits silent (getZoneByName name).
Proof. apply emits_getZoneByName; intros; reflexivity. Qed.

Lemma reports_bind {A B : Type} (m : M A) (k : A -> M (result B)) :
  emits silent m -> (forall a, reports (k a)) -> reports (m ≫= k).
Proof.
  intros Hm Hk st. destruct (Hm st) as (evs1 & H1 & F1).
  unfold mbind, M_bind. destruct (m st) as [a st']. cbn [snd] in H1.
  destruct (Hk a st') as (pre & lines & H2 & F2 & Hl).
  exists (evs1 ++ pre), lines. split; [|split].
  - rewrite H2, H1. now rewrite <- !app_assoc.
  - now apply Forall_app.
  - exact Hl.
Qed.

Lemma reports_err {A : Type} (e : GoError) : reports (mret (@Err A e)).
Proof.
  intros st. exists [], []. split; [|split].
  - cbn. now rewrite app_nil_r.
  - constructor.
  - split; [intros _; now exists e|reflexivity].
Qed.

Lemma reports_bindOk {A B : Type} (m : M (result A)) (k : A -> M (result B)) :
  emits silent m -> (forall a, reports (k a)) -> reports (bindOk m k).
Proof.
  intros Hm Hk. apply reports_bind; [exact Hm|].
  intros [a|e]; [apply Hk|apply reports_err].
Qed.

Lemma reports_fail {A : Type} (msg : string) : reports (@fail A msg).
Proof.
  unfold fail. apply reports_bind; [apply emits_newError|]. intros e. apply reports_err.
Qed.

Lemma reports_printAll {A : Type} (lines : list string) (a : A) :
  lines <> [] -> reports (_ ← printAll lines; mret (Ok a)).
Proof.
  intros Hne st. exists [], lines.
  destruct (printAll_state lines st) as (_ & _ & _ & _ & Ht).
  unfold mbind, M_bind. destruct (printAll lines st) as [u st']. cbn [snd] in Ht.
  split; [|split].
  - exact Ht.
  - constructor.
  - split; [intros H; now destruct Hne|intros [e He]; discriminate].
Qed.

Lemma reports_Print {A : Type} (text : string) (a : A) :
  reports (_ ← Print text; mret (Ok a)).
Proof.
  intros st. exists [], [text]. split; [|split].
  - reflexivity.
  - constructor.
  - split; [discriminate|intros [e He]; discriminate].
Qed.

End Reports.

(** X11. The four commands print at their end only, after everything they
    read, run and send, and they print exactly when they return no error: a
    command that fails has printed nothing, and one that succeeds has
    printed at least one line (the list commands say so when there is
    nothing to list). *)
Theorem commands_print_on_success :
  reports listZones /\
  reports listRegistrarDomains /\
  (forall domain, reports (addZone domain)) /\
  (forall zoneName typeName name content ttl proxied,
     reports (addDNSRecord zoneName typeName name content ttl proxied)).
Proof.
  pose proof silent_resolveAccountID. pose proof silent_requestCF.
  pose proof silent_getZoneByName.
  repeat split.
  - unfold listZones.
    apply reports_bindOk; [assumption|intros accountID].
    apply reports_bindOk; [auto|intros resp].
    apply reports_bindOk; [apply emits_unmarshal|intros zones].
    destruct zones; [apply reports_Print|now apply reports_printAll].
  - unfold listRegistrarDomains.
    apply reports_bindOk; [assumption|intros accountID].
    apply reports_bindOk; [auto|intros resp].
    apply reports_bindOk; [apply emits_unmarshal|intros domains].
    destruct domains; [apply reports_Print|now apply reports_printAll].
  - intros domain. unfold addZone.
    apply reports_bindOk; [assumption|intros accountID].
    apply reports_bind; [auto|intros [resp|err]].
    + apply reports_bindOk; [apply emits_unmarshal|intros z]. apply reports_Print.
    + destruct Contains; [|apply reports_err].
      apply reports_bind; [auto|intros [[z|]|e]];
        [apply reports_Print|apply reports_err|apply reports_err].
  - intros zoneName typeName name content ttl proxied. unfold addDNSRecord.
    apply reports_bindOk; [auto|intros [z|]]; [|apply reports_fail].
    apply reports_bindOk; [auto|intros resp].
    apply reports_bindOk; [apply emits_unmarshal|intros r]. apply reports_Print.
Qed.

(** ** The request that creates a record *)

Section RecordRequest.

Lemma in_added {A : Type} (m : M A) (st : State) (evs : list Event) (ev : Event) :
  trace (snd (m st)) = trace st ++ evs -> In ev (added m st) -> In ev evs.
Proof. intros H. now rewrite (added_trace _ _ _ H). Qed.

(** The events of [requestCF]: those of the resolver, then the request. *)
Lemma requestCF_events (method path : string) (body : option JSON.value) (st : State) :
  exists evs,
    trace (snd (requestCF method path body st)) = trace st ++ evs /\
    Forall (fun ev => forall req, ev = EvHTTP req ->
              exists token, req = apiRequest method path token body) evs.
Proof.
  apply emits_requestCF; try (intros req [=]; fail).
  intros token req [= <-]. now exists token.
Qed.

Lemma addDNSRecord_requests
    (zoneName typeName name content : string) (ttl : Z) (proxied : bool)
    (st : State) (req : Request) :
  In (EvHTTP req) (added (addDNSRecord zoneName typeName name content ttl proxied) st) ->
  req_method req <> "GET" ->
  exists z,
    fst (getZoneByName zoneName st) = Ok (Some z) /\
    req_method req = "POST" /\
    req_url req = apiBase +:+ "/zones/" +:+ ID z +:+ "/dns_records" /\
    req_body req = Some (recordBody typeName name content ttl proxied).
Proof.
  intros Hin Hget.
  assert (Hlook : emits readOnly (getZoneByName zoneName)).
  { apply emits_getZoneByName; reading_only. }
  destruct (Hlook st) as (evs1 & H1 & F1).
  rewrite List.Forall_forall in F1.
  revert Hin. unfold added. rewrite addDNSRecord_eq.
  destruct (getZoneByName zoneName st) as [[[z|]|e] st1]; cbn [snd fst] in *.
  - destruct (requestCF_events "POST" (recordsPath z)
                (Some (recordBody typeName name content ttl proxied)) st1)
      as (evs2 & H2 & F2).
    rewrite List.Forall_forall in F2.
    assert (Hcases : In (EvHTTP req) (evs1 ++ evs2) ->
              exists z0, Ok (Some z) = Ok (Some z0) /\
                req_method req = "POST" /\
                req_url req = apiBase +:+ "/zones/" +:+ ID z0 +:+ "/dns_records" /\
                req_body req = Some (recordBody typeName name content ttl proxied)).
    { intros Hin. apply in_app_or in Hin as [Hin|Hin].
      - now destruct Hget; apply (F1 _ Hin).
      - destruct (F2 _ Hin req eq_refl) as [token ->]. exists z. repeat split. }
    destruct requestCF as [[resp|e] st2]; cbn [snd] in H2.
    + destruct unmarshalDNSRecord as [e|r]; cbn [snd]; proj; rewrite H2, H1.
      * rewrite <- app_assoc, drop_app_length. exact Hcases.
      * rewrite <- !app_assoc, drop_app_length, app_assoc.
        intros Hin. apply in_app_or in Hin as [Hin|[Hin|[]]]; [auto|discriminate].
    + cbn [snd]. rewrite H2, H1, <- app_assoc, drop_app_length. exact Hcases.
  - proj. rewrite H1, drop_app_length. intros Hin.
    now destruct Hget; apply (F1 _ Hin).
  - rewrite H1, drop_app_length. intros Hin.
    now destruct Hget; apply (F1 _ Hin).
Qed.

End RecordRequest.



(** ** The errors of the API *)

(** X13. When the API answers with a status of 400 or more, or without
    success, [requestCF] returns an error, and its text names every error of
    the answer by code and message; when the answer lists no error, the text
    gives the status. *)
Theorem requestCF_reports_every_error
    (method path : string) (body : option JSON.value) (st st1 : State)
    (token : string) (status : Z) (out : apiResponse) :
  resolveAPIToken st = (Ok token, st1) ->
  apiCall (world st1) (apiRequest method path token body) = Response status out ->
  (400 <= status)%Z \/ Success out = false ->
  exists err,
    fst (requestCF method path body st) = Err err /\
    (Errors out = [] ->
       err_msg err = "Cloudflare API request failed (HTTP " +:+ Itoa status +:+ ")") /\
    (forall e, In e (Errors out) ->
       Contains (err_msg err) (Itoa (Code e) +:+ ": " +:+ Message e) = true).
Proof.
  intros Htok Hcall Hbad. rewrite requestCF_eq, Htok. cbv zeta. rewrite Hcall.
  assert (Hc : (400 <=? status)%Z || negb (Success out) = true).
  { destruct Hbad as [H| ->]; [|apply orb_true_r].
    apply Z.leb_le in H. now rewrite H. }
  rewrite Hc. unfold formatAPIErrors.
  destruct (Errors out) as [|e0 rest] eqn:He.
  - eexists. split; [reflexivity|]. split; [reflexivity|intros e []].
  - eexists. split; [reflexivity|]. split; [discriminate|].
    intros e Hin. cbn [err_msg]. apply Join_contains.
    apply (in_map (fun e => Itoa (Code e) +:+ ": " +:+ Message e)) in Hin. exact Hin.
Qed.

Lemma requestCF_reports_every_error_witness :
  exists err,
    fst (requestCF "POST" "/zones" None (start (Sample.zoneExists Sample.found))) = Err err /\
    Contains (err_msg err) "1061: example.com already exists" = true.
Proof.
  destruct (requestCF_reports_every_error "POST" "/zones" None
              (start (Sample.zoneExists Sample.found))
              (snd (resolveAPIToken (start (Sample.zoneExists Sample.found))))
              "tok" 400
              {| Success := false;
                 Errors := [{| Code := 1061; Message := "example.com already exists" |}];
                 Result := "" |})
    as (err & Herr & _ & Hall).
  - vm_compute; reflexivity.
  - vm_compute; reflexivity.
  - left. lia.
  - exists err. split; [exact Herr|].
    apply (Hall {| Code := 1061; Message := "example.com already exists" |}).
    left. reflexivity.
Defined.


(** * The dispatcher and the wizard *)

(** ** Invariants of a whole run *)

Section QuietRun.

Context (P : State -> Prop) (lib : Library) (h : Host).
Hypothesis P_quiet : forall ev, isHTTP ev = false -> preserves P (emit ev).
Hypothesis P_newError : forall msg, preserves P (newError msg).
Hypothesis P_resolveAccountID : preserves P resolveAccountID.
Hypothesis P_requestCF : forall method path body, preserves P (requestCF method path body).

Lemma preserves_bindRead {A B : Type} (m : M (result A * Reader))
    (k : A * Reader -> M (result B)) :
  preserves P m -> (forall p, preserves P (k p)) -> preserves P (bindRead m k).
Proof.
  intros Hm Hk. apply preserves_bind; [exact Hm|].
  intros [[a|e] reader]; [apply Hk|apply preserves_ret].
Qed.

Lemma quiet_prompt (reader : Reader) (question fallback : string) :
  preserves P (prompt reader question fallback).
Proof.
  pose proof (quiet_Print P P_quiet). unfold prompt. keeps.
Qed.

Lemma quiet_promptYesNo (reader : Reader) (question : string) (fallback : bool) :
  preserves P (promptYesNo reader question fallback).
Proof.
  pose proof quiet_prompt. unfold promptYesNo. keeps.
Qed.

Lemma quiet_openURL (rawURL : string) : preserves P (openURL h rawURL).
Proof.
  pose proof (@quiet_fail P P_newError) as Hfail.
  unfold openURL.
  destruct (if String.eqb (GOOS h) "darwin" then _ else _) as [name args].
  apply preserves_bind; [now apply P_quiet|intros _]. keeps.
Qed.

Lemma quiet_wrapAtoiError (context num : string) (e : NumError) :
  preserves P (wrapAtoiError lib context num e).
Proof. unfold wrapAtoiError. keeps. Qed.

Ltac reading :=
  repeat first
    [ simple apply preserves_bindRead; [|intros [? ?]]
    | progress keeps ].

Lemma quiet_recordLoop (fuel : nat) (reader : Reader) (domain : string) :
  preserves P (recordLoop lib fuel reader domain).
Proof.
  pose proof quiet_prompt. pose proof quiet_promptYesNo. pose proof quiet_wrapAtoiError.
  assert (Hadd : forall a b c d e f, preserves P (addDNSRecord a b c d e f))
    by (intros; now apply quiet_addDNSRecord).
  revert reader. induction fuel as [|fuel IH]; intros reader; cbn [recordLoop].
  - apply preserves_ret.
  - reading.
Qed.

Lemma quiet_runWizard (fuel : nat) : preserves P (runWizard lib h fuel).
Proof.
  pose proof quiet_prompt. pose proof quiet_promptYesNo. pose proof quiet_openURL.
  pose proof quiet_recordLoop. pose proof (quiet_Print P P_quiet).
  pose proof (@quiet_fail P P_newError).
  assert (Hadd : forall d, preserves P (addZone d))
    by (intros; now apply quiet_addZone).
  unfold runWizard. reading.
Qed.

Lemma quiet_run (fuel : nat) (args : list string) : preserves P (run lib h fuel args).
Proof.
  pose proof quiet_runWizard. pose proof quiet_wrapAtoiError.
  pose proof (quiet_Print P P_quiet). pose proof (@quiet_fail P P_newError).
  assert (Hzone : forall d, preserves P (addZone d))
    by (intros; now apply quiet_addZone).
  assert (Hrec : forall a b c d e f, preserves P (addDNSRecord a b c d e f))
    by (intros; now apply quiet_addDNSRecord).
  assert (Hzones : preserves P listZones) by now apply quiet_listZones.
  assert (Hdomains : preserves P listRegistrarDomains)
    by now apply quiet_listRegistrarDomains.
  unfold run, printHelp. keeps.
Qed.

End QuietRun.

(** X14. Whatever the command line, the input and the host, every request
    that a run of the program has sent carries as [Authorization] header the
    word Bearer and the token held in the package variable, which is not
    empty. *)
Theorem run_requests_carry_token
    (lib : Library) (h : Host) (fuel : nat) (args : list string) (w : World)
    (req : Request) :
  let st := snd (run lib h fuel args (start w)) in
  In (EvHTTP req) (trace st) ->
  cachedAPIToken st <> "" /\
  req_authorization req = "Bearer " +:+ cachedAPIToken st.
Proof.
  intros st Hin.
  apply (quiet_run bearerOnly lib h bearerOnly_quiet bearerOnly_newError
           bearerOnly_resolveAccountID bearerOnly_requestCF fuel args (start w));
    [|exact Hin].
  intros r [].
Qed.


Lemma run_requests_carry_token_witness :
  let st := snd (run Console.plain (Console.linux ["example.com"]) 2 ["wizard"]
                   (start Scenario.oneZone)) in
  let req := apiRequest "POST" "/zones/z1/dns_records" "tok"
               (Some (recordBody "A" "@" "" 1 false)) in
  In (EvHTTP req) (trace st) /\
  cachedAPIToken st <> "" /\
  req_authorization req = "Bearer " +:+ cachedAPIToken st.
Proof.
  intros st req.
  assert (Hin : In (EvHTTP req) (trace st)).
  { vm_compute. do 16 right. left. reflexivity. }
  split; [exact Hin|].
  exact (run_requests_carry_token Console.plain (Console.linux ["example.com"]) 2
           ["wizard"] Scenario.oneZone req Hin).
Defined.

(** ** What a computation returns *)

Section Hoare.

Context (I : State -> Prop).

Lemma hoare_ret {A : Type} (a : A) (Q : A -> Prop) : Q a -> hoare I (mret a) Q.
Proof. intros H st Hi. split; [exact H|exact Hi]. Qed.

Lemma hoare_bind {A B : Type} (m : M A) (k : A -> M B) (R : A -> Prop) (Q : B -> Prop) :
  hoare I m R -> (forall a, R a -> hoare I (k a) Q) -> hoare I (m ≫= k) Q.
Proof.
  intros Hm Hk st Hi. destruct (Hm st Hi) as [Hr Hi1].
  unfold mbind, M_bind. destruct (m st) as [a st1]. exact (Hk a Hr st1 Hi1).
Qed.

Lemma hoare_fmap {A B : Type} (f : A -> B) (m : M A) (Q : B -> Prop) :
  hoare I m (fun a => Q (f a)) -> hoare I (f <$> m) Q.
Proof.
  intros Hm st Hi. destruct (Hm st Hi) as [Hr Hi1].
  unfold fmap, M_fmap. destruct (m st) as [a st1]. split; [exact Hr|exact Hi1].
Qed.

Lemma hoare_conseq {A : Type} (m : M A) (R Q : A -> Prop) :
  hoare I m R -> (forall a, R a -> Q a) -> hoare I m Q.
Proof. intros Hm Himp st Hi. destruct (Hm st Hi) as [Hr Hi1]. auto. Qed.

Lemma hoare_preserves {A : Type} (m : M A) : preserves I m -> hoare I m (fun _ => True).
Proof. intros Hm st Hi. split; [exact Logic.I|exact (Hm st Hi)]. Qed.

Lemma hoare_both {A : Type} (m : M A) (Q1 Q2 : A -> Prop) :
  hoare I m Q1 -> hoare I m Q2 -> hoare I m (fun a => Q1 a /\ Q2 a).
Proof.
  intros H1 H2 st Hi. destruct (H1 st Hi) as [Ha Hb]. destruct (H2 st Hi) as [Hc _].
  auto.
Qed.

Lemma hoare_bindOk {A B : Type} (m : M (result A)) (k : A -> M (result B))
    (R : result A -> Prop) (Q : result B -> Prop) :
  hoare I m R ->
  (forall a, R (Ok a) -> hoare I (k a) Q) ->
  (forall e, R (Err e) -> Q (Err e)) ->
  hoare I (bindOk m k) Q.
Proof.
  intros Hm Hk He. apply (hoare_bind _ _ R); [exact Hm|].
  intros [a|e] Hr; [now apply Hk|now apply hoare_ret, He].
Qed.

Lemma hoare_bindRead {A B : Type} (m : M (result A * Reader))
    (k : A * Reader -> M (result B))
    (R : result A * Reader -> Prop) (Q : result B -> Prop) :
  hoare I m R ->
  (forall a reader, R (Ok a, reader) -> hoare I (k (a, reader)) Q) ->
  (forall e reader, R (Err e, reader) -> Q (Err e)) ->
  hoare I (bindRead m k) Q.
Proof.
  intros Hm Hk He. apply (hoare_bind _ _ R); [exact Hm|].
  intros [[a|e] reader] Hr; [now apply Hk|now apply hoare_ret, (He e reader)].
Qed.

End Hoare.


(** ** The questions *)

Section Questions.

Lemma prompt_value (reader : Reader) (question fallback : string) (st : State) :
  let line := source reader (position reader) in
  let p := fst (prompt reader question fallback st) in
  snd p = snd (ReadString reader) /\
  (blankLine line -> fst p = Ok fallback) /\
  (forall v, fst p = Ok v ->
     v = if String.eqb (TrimSpace (read_text line)) "" then fallback
         else TrimSpace (read_text line)).
Proof.
  unfold prompt, ReadString, blankLine. cbv zeta. run.
  destruct (read_err (source reader (position reader))) eqn:Herr; cbn [fst snd].
  1,2: destruct (String.eqb (TrimSpace _) "") eqn:Hb; cbn [fst snd];
       (split; [reflexivity|split; [|now intros v [= <-]]]);
       intros [Hblank _]; [reflexivity|rewrite Hblank in Hb; discriminate].
  split; [reflexivity|split; [|intros v [=]]].
  intros [_ Hne]. now destruct (Hne msg).
Qed.

Lemma promptYesNo_value (reader : Reader) (question : string) (fallback : bool)
    (st : State) :
  let line := source reader (position reader) in
  let p := fst (promptYesNo reader question fallback st) in
  snd p = snd (ReadString reader) /\
  (blankLine line -> fst p = Ok fallback) /\
  (fst p = Ok false -> fallback = true -> answersNo line).
Proof.
  cbv zeta. unfold promptYesNo.
  pose proof (prompt_value reader
                (question +:+ " (" +:+ (if fallback then "Y/n" else "y/N") +:+ ")") "" st)
    as (Hrd & Hblank & Hval).
  unfold mbind, M_bind.
  destruct (prompt reader _ "" st) as [[[v|e] reader'] st1]; cbn [fst snd] in *.
  - specialize (Hval v eq_refl).
    assert (Htext : String.eqb v "" = false ->
                    v = TrimSpace (read_text (source reader (position reader)))).
    { intros Hv. destruct (String.eqb (TrimSpace _) "") eqn:Ht; [|exact Hval].
      subst v. discriminate. }
    assert (Hempty : blankLine (source reader (position reader)) ->
                     String.eqb v "" = true).
    { intros Hb. specialize (Hblank Hb). injection Hblank as ->. reflexivity. }
    destruct (String.eqb v "") eqn:Hv;
      [|destruct (EqualFold v "y" || EqualFold v "yes") eqn:Hy;
        [|destruct (EqualFold v "n" || EqualFold v "no") eqn:Hn]];
      cbn [fst snd]; (split; [exact Hrd|]); split;
      try (intros Hb; specialize (Hempty Hb); discriminate);
      try reflexivity; try discriminate;
      try (intros Hno Hfb; rewrite Hfb in Hno; discriminate).
    intros _ _. unfold answersNo. rewrite <- (Htext eq_refl). exact Hn.
  - split; [exact Hrd|]. split; [|discriminate].
    intros Hb. specialize (Hblank Hb). discriminate.
Qed.

Lemma idle_next (reader : Reader) : idle reader -> idle (snd (ReadString reader)).
Proof. intros H n Hn. apply H. cbn in Hn. lia. Qed.

Lemma idle_later (reader reader' : Reader) :
  idle reader -> source reader' = source reader ->
  position reader <= position reader' -> idle reader'.
Proof. intros H Hs Hp n Hn. rewrite Hs. apply H. lia. Qed.

Lemma idle_here (reader : Reader) :
  idle reader -> blankLine (source reader (position reader)).
Proof. intros H. apply H. lia. Qed.

Context (I : State -> Prop).
Hypothesis I_quiet : forall ev, isHTTP ev = false -> preserves I (emit ev).
Hypothesis I_newError : forall msg, preserves I (newError msg).

Lemma hoare_value {A : Type} (m : M A) (Q : A -> Prop) :
  preserves I m -> (forall st, Q (fst (m st))) -> hoare I m Q.
Proof. intros Hm Hq st Hi. split; [apply Hq|now apply Hm]. Qed.

(** The reader a question leaves reads from the same input. *)
Lemma prompt_source (src : nat -> ReadResult) (reader : Reader)
    (question fallback : string) :
  source reader = src ->
  hoare I (prompt reader question fallback) (fun p => source (snd p) = src).
Proof.
  intros Hs. apply hoare_value; [now apply quiet_prompt|]. intros st.
  destruct (prompt_value reader question fallback st) as (-> & _). exact Hs.
Qed.

Lemma promptYesNo_source (src : nat -> ReadResult) (reader : Reader)
    (question : string) (fallback : bool) :
  source reader = src ->
  hoare I (promptYesNo reader question fallback)
    (fun p => source (snd p) = src /\
              (fst p = Ok false -> fallback = true ->
               answersNo (src (position reader)))).
Proof.
  intros Hs. apply hoare_value; [now apply quiet_promptYesNo|]. intros st.
  destruct (promptYesNo_value reader question fallback st) as (-> & _ & Hno).
  split; [exact Hs|]. now rewrite <- Hs.
Qed.

(** On a blank line, or at the end of the input, a question is answered by
    its default. *)
Lemma prompt_idle (reader : Reader) (question fallback : string) :
  idle reader ->
  hoare I (prompt reader question fallback)
    (fun p => p = (Ok fallback, snd (ReadString reader))).
Proof.
  intros Hidle. apply hoare_value; [now apply quiet_prompt|]. intros st.
  destruct (prompt_value reader question fallback st) as (Hrd & Hblank & _).
  specialize (Hblank (idle_here _ Hidle)).
  destruct (fst (prompt reader question fallback st)) as [r rd]. cbn [fst snd] in *.
  now subst.
Qed.

Lemma promptYesNo_idle (reader : Reader) (question : string) (fallback : bool) :
  idle reader ->
  hoare I (promptYesNo reader question fallback)
    (fun p => p = (Ok fallback, snd (ReadString reader))).
Proof.
  intros Hidle. apply hoare_value; [now apply quiet_promptYesNo|]. intros st.
  destruct (promptYesNo_value reader question fallback st) as (Hrd & Hblank & _).
  specialize (Hblank (idle_here _ Hidle)).
  destruct (fst (promptYesNo reader question fallback st)) as [r rd].
  cbn [fst snd] in *. now subst.
Qed.

End Questions.


(** ** How the wizard ends *)

Ltac anything := repeat intro; exact Logic.I.

Section WizardEnd.

Context (lib : Library) (h : Host).

Let anyState : State -> Prop := fun _ => True.

Lemma hoare_any {A : Type} (m : M A) : hoare anyState m (fun _ => True).
Proof. intros st _. split; exact Logic.I. Qed.

Lemma hoare_result {A : Type} (m : M A) (Q : A -> Prop) :
  (forall st, Q (fst (m st))) -> hoare anyState m Q.
Proof. intros H st _. split; [apply H|exact Logic.I]. Qed.

Let sameInput (src : nat -> ReadResult) (r : result Reader) : Prop :=
  match r with
  | Ok reader => source reader = src
  | Err _ => True
  end.

Ltac ask src :=
  first
    [ apply (hoare_bindRead anyState _ _ (fun p => source (snd p) = src));
      [ apply prompt_source; [anything|anything|assumption]
      | let H := fresh "Hs" in intros ? ? H; cbn [snd] in H
      | anything ]
    | apply (hoare_bindRead anyState _ _ (fun p => source (snd p) = src));
      [ eapply hoare_conseq;
        [ apply promptYesNo_source; [anything|anything|eassumption]
        | now intros ? [? _] ]
      | let H := fresh "Hs" in intros ? ? H; cbn [snd] in H
      | anything ] ].

Ltac pass :=
  apply (hoare_bind anyState _ _ (fun _ => True)); [apply hoare_any|intros ? _].

Lemma recordLoop_end (src : nat -> ReadResult) (domain : string) (fuel : nat) :
  forall reader, source reader = src ->
  hoare anyState (recordLoop lib fuel reader domain)
    (fun l => match l with
              | Break => exists n, answersNo (src n)
              | Return (Ok _) => False
              | _ => True
              end).
Proof.
  induction fuel as [|fuel IH]; intros reader Hs; cbn [recordLoop].
  { apply hoare_ret. exact Logic.I. }
  apply (hoare_bind anyState _ _
           (fun p => source (snd p) = src /\
                     (fst p = Ok false -> true = true ->
                      answersNo (src (position reader)))));
    [apply promptYesNo_source; [anything|anything|exact Hs]|].
  intros [[[|]|e] rd] [Hrd Hno]; cbn [fst snd] in *.
  - apply (hoare_bind anyState _ _ (sameInput src)).
    + do 5 ask src.
      destruct (Atoi a3) as [e|ttl].
      * pass. apply hoare_ret. exact Logic.I.
      * ask src.
        apply (hoare_bindOk anyState _ _ (fun _ => True));
          [apply hoare_any| |anything].
        intros _ _. apply hoare_ret. assumption.
    + intros [rd'|e] Hr; [exact (IH rd' Hr)|apply hoare_ret; exact Logic.I].
  - apply hoare_ret. exists (position reader). now apply Hno.
  - apply hoare_ret. exact Logic.I.
Qed.

Lemma runWizard_end (fuel : nat) :
  hoare anyState (runWizard lib h fuel)
    (fun o => o = Some (Ok tt) -> exists n, answersNo (stdin h n)).
Proof.
  unfold runWizard.
  apply (hoare_bind anyState _ _
           (fun r => match r with
                     | Ok (reader, _) => source reader = stdin h
                     | Err _ => True
                     end)).
  - assert (H0 : source (NewReader h) = stdin h) by reflexivity.
    ask (stdin h).
    destruct (String.eqb a ""); [apply hoare_result; anything|].
    ask (stdin h).
    apply (hoare_bindOk anyState _ _ (sameInput (stdin h))); [| |anything].
    + destruct a0; [now apply hoare_ret|].
      pass. pass. ask (stdin h). pass. ask (stdin h). now apply hoare_ret.
    + intros rd Hrd. cbn [sameInput] in Hrd.
      ask (stdin h).
      apply (hoare_bindOk anyState _ _ (fun _ => True)); [apply hoare_any| |anything].
      intros _ _. now apply hoare_ret.
  - intros [[rd d]|e] Hr.
    + apply (hoare_bind anyState _ _ _ _ (recordLoop_end (stdin h) d fuel rd Hr)).
      intros [|[u|e]|] Hl.
      * pass. apply hoare_ret. intros _. exact Hl.
      * destruct Hl.
      * apply hoare_ret. discriminate.
      * apply hoare_ret. discriminate.
    + apply hoare_ret. discriminate.
Qed.

End WizardEnd.

(** X15. The wizard ends well only on an explicit no: when [runWizard]
    returns no error, one of the lines it read was, after trimming, n or no
    (in any case of the letters).  Nothing else ends the wizard without an
    error, neither an empty answer nor the end of the input, which both
    count as yes to the question whether to add a record. *)
Theorem runWizard_ends_on_no (lib : Library) (h : Host) (fuel : nat) (st : State) :
  fst (runWizard lib h fuel st) = Some (Ok tt) ->
  exists n, answersNo (stdin h n).
Proof. intros H. exact (proj1 (runWizard_end lib h fuel st Logic.I) H). Qed.

Lemma runWizard_ends_on_no_witness :
  exists n, answersNo (stdin (Console.linux ["example.com"; ""; "no"; "No"]) n).
Proof.
  apply (runWizard_ends_on_no Console.plain
           (Console.linux ["example.com"; ""; "no"; "No"]) 1 (start Sample.bare)).
  vm_compute. reflexivity.
Defined.


(** ** The wizard on an input that has ended *)

Section Endless.

Context (lib : Library) (w : World) (domain : string).

Lemma inWorld_emit (ev : Event) : preserves (inWorld w) (emit ev).
Proof. intros st H. exact H. Qed.

Lemma inWorld_quiet (ev : Event) : isHTTP ev = false -> preserves (inWorld w) (emit ev).
Proof. intros _. apply inWorld_emit. Qed.

Lemma inWorld_newError (msg : string) : preserves (inWorld w) (newError msg).
Proof. intros st H. exact H. Qed.

Lemma inWorld_resolveAPIToken : preserves (inWorld w) resolveAPIToken.
Proof.
  apply preserves_resolveAPIToken_writing;
    [exact inWorld_emit|exact inWorld_newError|].
  intros v st H. exact H.
Qed.

Lemma inWorld_resolveAccountID : preserves (inWorld w) resolveAccountID.
Proof.
  apply preserves_resolveAccountID;
    [exact inWorld_emit|exact inWorld_newError|exact inWorld_resolveAPIToken|].
  intros v st H. exact H.
Qed.

Lemma inWorld_requestCF (method path : string) (body : option JSON.value) :
  preserves (inWorld w) (requestCF method path body).
Proof.
  apply preserves_requestCF;
    [exact inWorld_emit|exact inWorld_newError|exact inWorld_resolveAPIToken].
Qed.

Lemma inWorld_addZone (d : string) : preserves (inWorld w) (addZone d).
Proof.
  apply quiet_addZone;
    auto using inWorld_quiet, inWorld_newError, inWorld_resolveAccountID,
               inWorld_requestCF.
Qed.

Lemma inWorld_addDNSRecord (zoneName typeName name content : string) (ttl : Z)
    (proxied : bool) :
  preserves (inWorld w) (addDNSRecord zoneName typeName name content ttl proxied).
Proof.
  apply quiet_addDNSRecord;
    auto using inWorld_quiet, inWorld_newError, inWorld_resolveAccountID,
               inWorld_requestCF.
Qed.

(** A line with text is the answer, trimmed. *)
Lemma prompt_answer (reader : Reader) (question fallback : string) :
  let line := source reader (position reader) in
  TrimSpace (read_text line) <> "" ->
  (forall msg, read_err line <> ReadFailed msg) ->
  hoare (inWorld w) (prompt reader question fallback)
    (fun p => p = (Ok (TrimSpace (read_text line)), snd (ReadString reader))).
Proof.
  intros line Htext Hread. apply hoare_value.
  { apply quiet_prompt; [exact inWorld_quiet|exact inWorld_newError]. }
  intros st. subst line. unfold prompt, ReadString. cbv zeta. run.
  destruct (read_err (source reader (position reader))) eqn:Herr;
    [| |now destruct (Hread msg)];
    (destruct (String.eqb (TrimSpace _) "") eqn:Hb; [|reflexivity]);
    apply String.eqb_eq in Hb; now destruct Htext.
Qed.

Hypothesis accepted :
  forall st, world st = w -> fst (addDNSRecord domain "A" "@" "" 1 false st) = Ok tt.

Ltac idling :=
  match goal with
  | H : idle ?r |- idle _ => apply (idle_later r _ H); [reflexivity|cbn; lia]
  end.

Ltac default :=
  eapply hoare_bindRead;
  [ first [ apply prompt_idle | apply promptYesNo_idle ];
    first [ exact inWorld_quiet | exact inWorld_newError | idling ]
  | let H := fresh in intros ? ? H; cbv beta in H; injection H as -> ->
  | let H := fresh in intros ? ? H; cbv beta in H; discriminate H ].

Lemma recordLoop_idle (fuel : nat) :
  forall reader, idle reader ->
  hoare (inWorld w) (recordLoop lib fuel reader domain) (fun l => l = Running).
Proof.
  induction fuel as [|fuel IH]; intros reader Hidle; cbn [recordLoop].
  { now apply hoare_ret. }
  eapply hoare_bind.
  { apply promptYesNo_idle; first [exact inWorld_quiet|exact inWorld_newError|idling]. }
  intros p ->.
  apply (hoare_bind _ _ _
           (fun r => r = Ok (Nat.iter 7 (fun rd => snd (ReadString rd)) reader))).
  - do 5 default.
    replace (Atoi "1") with (@inr NumError Z 1%Z) by reflexivity.
    default.
    change (ToUpper lib "A") with "A".
    apply (hoare_bindOk _ _ _ (fun r => r = Ok tt)).
    + intros st Hw. split; [now apply accepted|now apply inWorld_addDNSRecord].
    + intros _ _. now apply hoare_ret.
    + intros e [=].
  - intros r ->. apply IH. cbn [Nat.iter]. idling.
Qed.

Context (h : Host).
Hypothesis first_line : TrimSpace (read_text (stdin h 0)) = domain.
Hypothesis domain_given : domain <> "".
Hypothesis first_read : forall msg, read_err (stdin h 0) <> ReadFailed msg.
Hypothesis rest_blank : forall n, 1 <= n -> blankLine (stdin h n).
Hypothesis zone_accepted :
  forall st, world st = w -> exists z, fst (addZone domain st) = Ok z.

Lemma runWizard_idle (fuel : nat) :
  hoare (inWorld w) (runWizard lib h fuel) (fun o => o = None).
Proof.
  unfold runWizard.
  assert (Hidle : idle (snd (ReadString (NewReader h)))).
  { intros n Hn. apply rest_blank. exact Hn. }
  apply (hoare_bind _ _ _
           (fun r => r = Ok (Nat.iter 3 (fun rd => snd (ReadString rd)) (NewReader h),
                             domain))).
  - eapply hoare_bindRead.
    { apply prompt_answer; cbn [NewReader source position];
        [now rewrite first_line|exact first_read]. }
    2: { intros e rd H. cbv beta in H. discriminate H. }
    intros a rd H. cbv beta in H. cbn [NewReader source position] in H.
    rewrite first_line in H. injection H as -> ->.
    destruct (String.eqb domain "") eqn:Hd;
      [apply String.eqb_eq in Hd; now destruct domain_given|].
    default.
    apply (hoare_bindOk _ _ _ (fun r => r = Ok (snd (ReadString (snd (ReadString
                                               (NewReader h))))))).
    { now apply hoare_ret. }
    2: { intros e [=]. }
    intros rd [= ->].
    default.
    apply (hoare_bindOk _ _ _ (fun r => r = Ok tt)).
    + apply (hoare_bindOk _ _ _ (fun r => exists z, r = Ok z)).
      * intros st Hw. split; [now apply zone_accepted|now apply inWorld_addZone].
      * intros [z|] _; [|now apply hoare_ret].
        destruct (String.eqb (Status z) "active"); [now apply hoare_ret|].
        apply (hoare_bind _ _ _ (fun _ => True));
          [apply hoare_preserves, inWorld_emit|intros ? _; now apply hoare_ret].
      * intros e [z [=]].
    + intros _ _. now apply hoare_ret.
    + intros e [=].
  - intros r ->. eapply hoare_bind.
    + apply recordLoop_idle. cbn [Nat.iter]. idling.
    + intros l ->. now apply hoare_ret.
Qed.

End Endless.

(** X16. With standard input that holds the domain and nothing more (only
    blank lines, or its end, after the first line), and a server that
    accepts the zone and the record, the wizard never returns: the end of
    the input answers every question by its default, the question whether
    to add a record included, so that round after round it adds the record
    of type A and name @ with empty content to the zone. *)
Theorem runWizard_never_ends_on_ended_input
    (lib : Library) (h : Host) (w : World) (domain : string) :
  TrimSpace (read_text (stdin h 0)) = domain ->
  domain <> "" ->
  (forall msg, read_err (stdin h 0) <> ReadFailed msg) ->
  (forall n, 1 <= n -> blankLine (stdin h n)) ->
  (forall st, world st = w -> exists z, fst (addZone domain st) = Ok z) ->
  (forall st, world st = w -> fst (addDNSRecord domain "A" "@" "" 1 false st) = Ok tt) ->
  forall fuel st, world st = w -> fst (runWizard lib h fuel st) = None.
Proof.
  intros Hline Hdomain Hread Hblank Hzone Hrecord fuel st Hw.
  exact (proj1 (runWizard_idle lib w domain Hrecord h Hline Hdomain Hread Hblank Hzone
                  fuel st Hw)).
Qed.

(** The sample server accepts whatever the package variables hold. *)
Section OneZone.

Lemma oneZone_resolveAPIToken (st : State) :
  world st = Scenario.oneZone ->
  exists token st1,
    resolveAPIToken st = (Ok token, st1) /\ world st1 = Scenario.oneZone.
Proof.
  intros Hw. pose proof (inWorld_resolveAPIToken Scenario.oneZone st Hw) as Hw1.
  destruct (resolveAPIToken st) as [r st1] eqn:E. cbn [snd] in Hw1.
  rewrite resolveAPIToken_eq in E.
  destruct (nonEmpty (cachedAPIToken st)); [injection E as <- <-; eauto|].
  cbv zeta in E. rewrite Hw in E.
  replace (nonEmpty (TrimSpace (lookupenv Scenario.oneZone "CF_API_TOKEN")))
    with true in E by (vm_compute; reflexivity).
  injection E as <- <-. eauto.
Qed.

Lemma oneZone_resolveAccountID (st : State) :
  world st = Scenario.oneZone ->
  exists accountID st1,
    resolveAccountID st = (Ok accountID, st1) /\ world st1 = Scenario.oneZone.
Proof.
  intros Hw. pose proof (inWorld_resolveAccountID Scenario.oneZone st Hw) as Hw1.
  destruct (resolveAccountID st) as [r st1] eqn:E. cbn [snd] in Hw1.
  rewrite resolveAccountID_eq in E.
  destruct (nonEmpty (cachedAccountID st)); [injection E as <- <-; eauto|].
  cbv zeta in E. rewrite Hw in E.
  replace (nonEmpty (TrimSpace (lookupenv Scenario.oneZone "CF_ACCOUNT_ID")))
    with true in E by (vm_compute; reflexivity).
  injection E as <- <-. eauto.
Qed.

Lemma oneZone_requestCF (method path : string) (body : option JSON.value) (st : State) :
  world st = Scenario.oneZone ->
  exists st1,
    requestCF method path body st
    = (Ok (if String.eqb method "GET" then Scenario.listed else Scenario.created), st1) /\
    world st1 = Scenario.oneZone.
Proof.
  intros Hw. pose proof (inWorld_requestCF Scenario.oneZone method path body st Hw) as Hw1.
  destruct (requestCF method path body st) as [r st2] eqn:E. cbn [snd] in Hw1.
  exists st2. split; [|exact Hw1]. f_equal.
  rewrite requestCF_eq in E.
  destruct (oneZone_resolveAPIToken st Hw) as (token & st1 & Ht & Hw2).
  rewrite Ht in E. cbv zeta in E. rewrite Hw2 in E.
  cbn [apiCall Scenario.oneZone apiRequest req_method] in E.
  destruct (String.eqb method "GET"); now injection E as <- <-.
Qed.

Lemma oneZone_addZone (domain : string) (st : State) :
  world st = Scenario.oneZone -> exists z, fst (addZone domain st) = Ok z.
Proof.
  intros Hw. rewrite addZone_eq.
  destruct (oneZone_resolveAccountID st Hw) as (accountID & st1 & -> & Hw1).
  destruct (oneZone_requestCF "POST" "/zones" (Some (zoneCreateBody accountID domain))
              st1 Hw1) as (st2 & -> & Hw2).
  change (String.eqb "POST" "GET") with false. cbv iota.
  replace (unmarshalZone (Result Scenario.created))
    with (@inr JSON.error _ {| ID := "r1"; Name := "www"; Status := "" |})
    by (vm_compute; reflexivity).
  cbn [fst]. eauto.
Qed.

Lemma oneZone_addDNSRecord (zoneName typeName name content : string) (ttl : Z)
    (proxied : bool) (st : State) :
  world st = Scenario.oneZone ->
  fst (addDNSRecord zoneName typeName name content ttl proxied st) = Ok tt.
Proof.
  intros Hw. rewrite addDNSRecord_eq, getZoneByName_eq.
  destruct (oneZone_resolveAccountID st Hw) as (accountID & st1 & -> & Hw1).
  destruct (oneZone_requestCF "GET" (zoneLookupPath accountID zoneName) None st1 Hw1)
    as (st2 & -> & Hw2).
  change (String.eqb "GET" "GET") with true. cbv iota.
  replace (unmarshalZones (Result Scenario.listed)) with
    (@inr JSON.error _ [{| ID := "z1"; Name := "example.com"; Status := "active" |}])
    by (vm_compute; reflexivity).
  cbv iota.
  match goal with
  | |- context [requestCF "POST" ?path ?body st2] =>
      destruct (oneZone_requestCF "POST" path body st2 Hw2) as (st3 & -> & Hw3)
  end.
  change (String.eqb "POST" "GET") with false. cbv iota.
  replace (unmarshalDNSRecord (Result Scenario.created))
    with (@inr JSON.error _ {| record_ID := "r1"; record_Type := "A";
                               record_Name := "www"; record_Content := "1.2.3.4" |})
    by (vm_compute; reflexivity).
  reflexivity.
Qed.

Lemma typed_ended (lines : list string) (n : nat) :
  length lines <= n -> blankLine (Console.typed lines n).
Proof.
  intros Hn. unfold Console.typed. rewrite lookup_ge_None_2 by exact Hn.
  split; [reflexivity|discriminate].
Qed.

End OneZone.

Lemma runWizard_never_ends_on_ended_input_witness :
  fst (runWizard Console.plain (Console.linux ["example.com"]) 1000
         (start Scenario.oneZone)) = None.
Proof.
  apply (runWizard_never_ends_on_ended_input Console.plain
           (Console.linux ["example.com"]) Scenario.oneZone "example.com").
  - vm_compute. reflexivity.
  - discriminate.
  - discriminate.
  - intros n Hn. now apply typed_ended.
  - intros st Hw. now apply oneZone_addZone.
  - intros st Hw. now apply oneZone_addDNSRecord.
  - reflexivity.
Defined.


(** ** The command line of [dns add] *)

Section DnsAdd.

Context (lib : Library) (h : Host).

Lemma run_dns_add_eq (fuel : nat) (rest : list string) :
  run lib h fuel ("dns" :: "add" :: rest) =
  let flags := parseFlags rest in
  match parseIntWithDefault (flag flags "ttl") 1 with
  | inl e =>
      e' ← wrapAtoiError lib "invalid --ttl" (flag flags "ttl") e;
      mret (Some (Err e'))
  | inr ttl =>
      if String.eqb (flag flags "zone") ""
         || String.eqb (ToUpper lib (flag flags "type")) ""
         || String.eqb (flag flags "name") ""
         || String.eqb (flag flags "content") "" then
        Some <$> fail missingFlags
      else
        Some <$> addDNSRecord (flag flags "zone") (ToUpper lib (flag flags "type"))
                   (flag flags "name") (flag flags "content") ttl
                   (parseBoolWithDefault (flag flags "proxied") false)
  end.
Proof. reflexivity. Qed.

Lemma added_fmap {A B : Type} (f : A -> B) (m : M A) (st : State) :
  added (f <$> m) st = added m st.
Proof. unfold added, fmap, M_fmap. now destruct (m st). Qed.

Lemma added_nothing {A : Type} (m : M A) (st : State) :
  trace (snd (m st)) = trace st -> added m st = [].
Proof. intros H. apply added_trace. now rewrite app_nil_r. Qed.

End DnsAdd.

(** X17. A [dns add] command line that leaves out one of [--zone],
    [--type], [--name] and [--content], or gives it an empty value, fails
    before anything is read from the environment, run or sent, and prints
    nothing; the error is the one about the missing flags, unless [--ttl] is
    no number, which is found first. *)
Theorem run_dns_add_checks_first
    (lib : Library) (h : Host) (fuel : nat) (rest : list string) (st : State) :
  let flags := parseFlags rest in
  flag flags "zone" = "" \/ flag flags "type" = "" \/
  flag flags "name" = "" \/ flag flags "content" = "" ->
  exists e,
    fst (run lib h fuel ("dns" :: "add" :: rest) st) = Some (Err e) /\
    added (run lib h fuel ("dns" :: "add" :: rest)) st = [] /\
    err_msg e =
      match parseIntWithDefault (flag flags "ttl") 1 with
      | inl ne => "invalid --ttl: " +:+ numErrorText lib "Atoi" (flag flags "ttl") ne
      | inr _ => missingFlags
      end.
Proof.
  intros flags Hmiss. rewrite run_dns_add_eq. cbv zeta. fold flags.
  destruct (parseIntWithDefault (flag flags "ttl") 1) as [ne|ttl] eqn:Httl.
  - eexists. split; [reflexivity|]. split; [now apply added_nothing|reflexivity].
  - assert (Hc : String.eqb (flag flags "zone") ""
                 || String.eqb (ToUpper lib (flag flags "type")) ""
                 || String.eqb (flag flags "name") ""
                 || String.eqb (flag flags "content") "" = true).
    { destruct Hmiss as [H|[H|[H|H]]]; rewrite H; cbn [String.eqb];
        rewrite ?orb_true_r; reflexivity. }
    rewrite Hc. eexists. split; [reflexivity|]. split; [now apply added_nothing|reflexivity].
Qed.

Lemma run_dns_add_checks_first_witness :
  exists e,
    fst (run Console.plain (Console.linux []) 0
           ["dns"; "add"; "--zone"; "example.com"; "--type"; "A"; "--content="; "--name";
            "www"] (start Scenario.oneZone)) = Some (Err e) /\
    err_msg e = missingFlags.
Proof.
  destruct (run_dns_add_checks_first Console.plain (Console.linux []) 0
              ["--zone"; "example.com"; "--type"; "A"; "--content="; "--name"; "www"]
              (start Scenario.oneZone)) as (e & He & _ & Hmsg).
  - right. right. right. vm_compute. reflexivity.
  - exists e. split; [exact He|exact Hmsg].
Defined.




(** ** What a run touches *)


(** ** The addresses of the lookups *)

Section Addresses.

Lemma count_app (c : ascii) (s t : string) : count c (s +:+ t) = count c s + count c t.
Proof.
  induction s as [|a s IH]; [reflexivity|].
  rewrite append_cons. cbn [count]. rewrite IH. lia.
Qed.

Lemma escaped_byte (a : ascii) :
  allBytes escaped
    (if JSON.inRange 65 90 a || JSON.inRange 97 122 a || JSON.inRange 48 57 a
        || JSON.isByte 45 a || JSON.isByte 95 a || JSON.isByte 46 a || JSON.isByte 126 a
     then String a ""
     else if JSON.isByte 32 a then "+"
          else String "%" (String (hexDigit (code a / 16))
                             (String (hexDigit (code a mod 16)) ""))) = true.
Proof. destruct a as [[] [] [] [] [] [] [] []]; vm_compute; reflexivity. Qed.

Lemma allBytes_app (p : ascii -> bool) (s t : string) :
  allBytes p (s +:+ t) = allBytes p s && allBytes p t.
Proof.
  induction s as [|a s IH]; [reflexivity|].
  rewrite append_cons. cbn [allBytes]. rewrite IH. now rewrite andb_assoc.
Qed.

Lemma QueryEscape_escaped (s : string) : allBytes escaped (QueryEscape s) = true.
Proof.
  induction s as [|a s IH]; [reflexivity|].
  pose proof (escaped_byte a) as Ha. cbn [QueryEscape].
  destruct (JSON.inRange 65 90 a || JSON.inRange 97 122 a || JSON.inRange 48 57 a
            || JSON.isByte 45 a || JSON.isByte 95 a || JSON.isByte 46 a
            || JSON.isByte 126 a).
  - cbn [allBytes] in *. rewrite andb_true_r in Ha. now rewrite Ha, IH.
  - destruct (JSON.isByte 32 a); cbn [allBytes] in *.
    + now rewrite IH.
    + rewrite andb_true_r in Ha. rewrite !andb_true_iff in Ha.
      destruct Ha as (H1 & H2 & H3). now rewrite H1, H2, H3, IH.
Qed.

Lemma count_escaped (c : ascii) (s : string) :
  escaped c = false -> allBytes escaped s = true -> count c s = 0.
Proof.
  intros Hc. induction s as [|a s IH]; [reflexivity|].
  cbn [allBytes count]. intros H. apply andb_true_iff in H as [Ha Hs].
  rewrite (IH Hs). destruct (Ascii.eqb a c) eqn:E; [|reflexivity].
  apply Ascii.eqb_eq in E. subst a. congruence.
Qed.

Lemma count_QueryEscape (c : ascii) (s : string) :
  escaped c = false -> count c (QueryEscape s) = 0.
Proof. intros Hc. apply count_escaped; [exact Hc|apply QueryEscape_escaped]. Qed.

End Addresses.

(** X20. Whatever the account identifier and the zone name contain, the
    address of the lookup by name has one question mark, the three
    parameters [account.id], [name] and [per_page] and no fragment, and the
    one of the list of zones its two parameters: what is escaped adds no
    separator. *)
Theorem lookup_addresses_keep_their_shape (accountID name : string) :
  let lookup := zoneLookupPath accountID name in
  let list := zoneListPath accountID in
  (count "?" lookup, count "&" lookup, count "=" lookup, count "#" lookup) = (1, 2, 3, 0) /\
  (count "?" list, count "&" list, count "=" list, count "#" list) = (1, 1, 2, 0).
Proof.
  unfold zoneLookupPath, zoneListPath. cbv zeta.
  rewrite !count_app, !count_QueryEscape by reflexivity.
  split; reflexivity.
Qed.


(** ** An empty account identifier *)

(** X21. An account identifier that is empty (the one account of the
    memberships may have none) is returned without an error but is not
    memoized: the next call of [resolveAccountID] starts over, reading the
    account variable of the environment first. *)
Theorem resolveAccountID_empty_not_memoized (st st1 : State) :
  resolveAccountID st = (Ok "", st1) ->
  exists evs, added resolveAccountID st1 = EvGetenv "CF_ACCOUNT_ID" :: evs.
Proof.
  intros Hr. apply resolveAccountID_caches in Hr.
  assert (Hany : forall (A : Type) (m : M A) (s : State),
             emits (fun _ => True) m ->
             exists evs, trace (snd (m s)) = trace s ++ evs).
  { intros A m s Hm. destruct (Hm s) as (evs & H & _). now exists evs. }
  assert (Htok : emits (fun _ : Event => True) resolveAPIToken)
    by (apply emits_resolveAPIToken; exact Logic.I).
  assert (Hinf : forall token,
             emits (fun _ : Event => True) (inferAccountIDFromMemberships token))
    by (intros token; apply emits_inferAccountIDFromMemberships; intros; exact Logic.I).
  unfold added. rewrite resolveAccountID_eq, Hr. change (nonEmpty "") with false.
  cbv iota zeta.
  set (s1 := logged (EvGetenv "CF_ACCOUNT_ID") st1).
  set (s2 := logged (EvGetenv "CLOUDFLARE_ACCOUNT_ID") s1).
  assert (H1 : trace s1 = trace st1 ++ [EvGetenv "CF_ACCOUNT_ID"]) by reflexivity.
  assert (H2 : trace s2 = trace st1 ++ EvGetenv "CF_ACCOUNT_ID"
                                       :: [EvGetenv "CLOUDFLARE_ACCOUNT_ID"]).
  { unfold s2. cbn [logged emit snd trace]. now rewrite H1, <- app_assoc. }
  assert (Hfrom : forall s' : State,
             (exists evs, trace s' = trace s2 ++ evs) ->
             exists evs, drop (length (trace st1)) (trace s')
                         = EvGetenv "CF_ACCOUNT_ID" :: evs).
  { intros s' [evs He]. rewrite He, H2, <- app_assoc, drop_app_length. cbn. eauto. }
  destruct (nonEmpty (TrimSpace (lookupenv (world st1) "CF_ACCOUNT_ID"))).
  { cbn [snd accountCached setCachedAccountID trace]. fold s1.
    rewrite H1, drop_app_length. eauto. }
  destruct (nonEmpty (TrimSpace (lookupenv (world st1) "CLOUDFLARE_ACCOUNT_ID"))).
  { cbn [snd accountCached setCachedAccountID trace]. fold s2.
    apply Hfrom. exists []. now rewrite app_nil_r. }
  destruct (Hany _ _ s2 Htok) as [evs3 H3].
  destruct (resolveAPIToken s2) as [[token|e] s3]; cbn [snd] in H3;
    [|apply Hfrom; eauto].
  destruct (Hany _ _ s3 (Hinf token)) as [evs4 H4].
  destruct (inferAccountIDFromMemberships token s3) as [[accountID|e] s4];
    cbn [snd accountCached setCachedAccountID trace] in *;
    apply Hfrom; exists (evs3 ++ evs4); now rewrite H4, H3, app_assoc.
Qed.

Lemma resolveAccountID_empty_not_memoized_witness :
  exists evs,
    added resolveAccountID (snd (resolveAccountID (start Scenario.namelessAccount)))
    = EvGetenv "CF_ACCOUNT_ID" :: evs.
Proof.
  apply (resolveAccountID_empty_not_memoized (start Scenario.namelessAccount)).
  vm_compute. reflexivity.
Defined.
